(** * File intelligence engine of chuckOS: search, ranking, preference
      learning and auto-organization.

    Shallow embedding of [src/jaymi_file_intelligence.py] (the command line
    engine, class [JaymiFileIntelligence]) and of
    [src/backend/core/file_intelligence.py] (the web service engine, class
    [JaymiFileIntelligenceAPI]).

    Conventions of the model.
    - A Python [str] is a [string]; only code points below 128 are
      interpreted ([lower] maps [A-Z] to [a-z], [split] cuts at the ASCII
      white space of [str.split()]).
    - A Python [float] is an exact rational of [Q].  The constants 10.0,
      5.0, 2.0, 1.0 and 0.5 and their sums are exact in binary floating
      point; the learned confidence [count / len] is the only quotient.
    - A [datetime] is a number of microseconds ([Z]); [timedelta.days] is
      the floor of the difference divided by one day.
    - A [pathlib.Path] is the list of its parts below the root [/].
    - Printing, speech output and the JSON persistence of the memory file
      are not modelled; they do not influence any returned value. *)

From Stdlib Require Import List String Ascii Bool Arith ZArith QArith Lia.
From Stdlib Require Import Permutation Sorted DecimalString DecimalNat Lqa.
Import ListNotations.

Local Open Scope string_scope.
Local Open Scope list_scope.

(** ** Strings as Python uses them *)

Definition lower_char (c : ascii) : ascii :=
  let n := nat_of_ascii c in
  if (65 <=? n)%nat && (n <=? 90)%nat then ascii_of_nat (n + 32) else c.

(** [str.lower()] *)
Fixpoint lower (s : string) : string :=
  match s with
  | EmptyString => EmptyString
  | String c s' => String (lower_char c) (lower s')
  end.

(** [q in s] on strings: [q] occurs in [s] as a contiguous block. *)
Fixpoint contains (q s : string) : bool :=
  if String.prefix q s then true
  else match s with
       | EmptyString => false
       | String _ s' => contains q s'
       end.

(** White space of [str.split()] with no argument, below code point 128. *)
Definition is_space (c : ascii) : bool :=
  let n := nat_of_ascii c in
  ((9 <=? n)%nat && (n <=? 13)%nat) || ((28 <=? n)%nat && (n <=? 32)%nat).

Definition flush (cur : string) (acc : list string) : list string :=
  match cur with
  | EmptyString => acc
  | _ => acc ++ [cur]
  end.

Fixpoint split_from (s : string) (cur : string) (acc : list string)
  : list string :=
  match s with
  | EmptyString => flush cur acc
  | String c s' =>
      if is_space c then split_from s' EmptyString (flush cur acc)
      else split_from s' (cur ++ String c EmptyString) acc
  end.

(** [s.split()] *)
Definition split (s : string) : list string := split_from s EmptyString [].

(** [x in xs] on a list of strings *)
Definition in_list (x : string) (xs : list string) : bool :=
  existsb (String.eqb x) xs.

(** [any(word in query for word in words)] *)
Definition any_in (words : list string) (query : string) : bool :=
  existsb (fun w => contains w query) words.

(** ** Paths *)

Definition Path := list string.

Definition Path_eq_dec : forall p q : Path, {p = q} + {p <> q} :=
  list_eq_dec string_dec.


(** [p / seg] *)
Definition joinpath (p : Path) (seg : string) : Path := p ++ [seg].

(** [p.name] *)
Definition name (p : Path) : string := last p "".

(** [p.parent] *)
Definition parent (p : Path) : Path := removelast p.

(** [str(p)] *)
Definition str (p : Path) : string := "/" ++ String.concat "/" p.

(** [s.rfind('.')], scanning from the left and keeping the last hit. *)
Fixpoint rfind_dot (s : string) (i : nat) (hit : option nat) : option nat :=
  match s with
  | EmptyString => hit
  | String c s' =>
      rfind_dot s' (S i) (if Ascii.eqb c "."%char then Some i else hit)
  end.

(** The suffix of a file name: [name[i:]] when [0 < i < len(name) - 1]
    for [i = name.rfind('.')], the empty string otherwise. *)
Definition suffix_of_name (n : string) : string :=
  match rfind_dot n 0 None with
  | Some i =>
      if (0 <? i)%nat && (i <? String.length n - 1)%nat
      then substring i (String.length n - i) n
      else ""
  | None => ""
  end.

(** [p.suffix] *)
Definition suffix (p : Path) : string := suffix_of_name (name p).

(** [p.stem] *)
Definition stem (p : Path) : string :=
  let n := name p in
  substring 0 (String.length n - String.length (suffix p)) n.

(** ** Categories *)

Inductive Category : Type :=
| images | documents | spreadsheets | presentations | audio | video
| archives | code | data | other.

Definition Category_eq_dec : forall a b : Category, {a = b} + {a <> b}.
Proof. decide equality. Defined.

Definition category_eqb (a b : Category) : bool :=
  if Category_eq_dec a b then true else false.

(** [self.file_categories], in the order the dictionary is written. *)
Definition file_categories : list (Category * list string) :=
  [ (images, [".jpg"; ".jpeg"; ".png"; ".gif"; ".bmp"; ".tiff"; ".webp"; ".svg"]);
    (documents, [".pdf"; ".doc"; ".docx"; ".txt"; ".md"; ".rtf"; ".odt"]);
    (spreadsheets, [".xls"; ".xlsx"; ".csv"; ".ods"]);
    (presentations, [".ppt"; ".pptx"; ".odp"]);
    (audio, [".mp3"; ".wav"; ".flac"; ".aac"; ".ogg"; ".m4a"]);
    (video, [".mp4"; ".avi"; ".mkv"; ".mov"; ".wmv"; ".flv"; ".webm"]);
    (archives, [".zip"; ".rar"; ".7z"; ".tar"; ".gz"; ".bz2"]);
    (code, [".py"; ".js"; ".html"; ".css"; ".cpp"; ".java"; ".php"; ".rb"]);
    (data, [".json"; ".xml"; ".yaml"; ".sql"; ".db"; ".sqlite"]) ].

(** [self.file_categories[c]]; every key the code looks up is present. *)
Definition extensions_of (c : Category) : list string :=
  match find (fun kv => category_eqb (fst kv) c) file_categories with
  | Some kv => snd kv
  | None => []
  end.

Fixpoint categorize_in (table : list (Category * list string))
  (extension : string) : Category :=
  match table with
  | [] => other
  | (category, extensions) :: rest =>
      if in_list extension extensions then category
      else categorize_in rest extension
  end.

(** [categorize_file] (and [_categorize_file], which has the same body) *)
Definition categorize_file (file_path : Path) : Category :=
  categorize_in file_categories (lower (suffix file_path)).

(** ** The file system as the engine observes it *)

Inductive exn : Type := OSError | ValueError.

(** Outcome of a call that may raise. *)
Inductive result (A : Type) : Type :=
| Ok (a : A)
| Raise (e : exn).
Arguments Ok {A} a.
Arguments Raise {A} e.

Definition bind {A B : Type} (m : result A) (k : A -> result B) : result B :=
  match m with
  | Ok a => k a
  | Raise e => Raise e
  end.

Notation "x <- m ;; k" := (bind m (fun x => k))
  (at level 61, m at next level, right associativity).

(** [os.stat_result]: size in bytes and modification time (as the
    [datetime] that [datetime.fromtimestamp] makes of it). *)
Record Stat : Type := mkStat { st_size : Z; st_mtime : Z }.

(** A path yielded by a directory listing together with what the file
    system answers about it: the answer of [is_file()] (which swallows a
    missing file), [stat()] (which raises [OSError] when the file is gone
    or unreadable) and the decoded text that [open(...).read()] gives
    ([None] when opening or reading raises).  A call of [is_file()] or
    [exists()] that itself raises (a parent directory that may not be
    searched) and a modification time that [datetime.fromtimestamp]
    refuses are outside this record: the statements below speak of the
    runs in which those calls answer. *)
Record File : Type := mkFile {
  path : Path;
  is_file : bool;
  stat : result Stat;
  content : option string
}.

(** A directory given to a search or an analysis: [exists()],
    [rglob("*")] (every descendant) and [iterdir()] (the children). *)
Record Dir : Type := mkDir {
  dir_path : Path;
  dir_exists : bool;
  rglob : list File;
  iterdir : list File
}.

Definition KiB : Z := 1024.
Definition MiB : Z := 1024 * 1024.

(** One day, in microseconds. *)
Definition day : Z := 86400 * 1000000.

(** ** Search strategies *)

(** The loop [for file_path in search_dir.rglob("*"): if keep: append]. *)
Fixpoint select (keep : File -> result bool) (files : list File)
  (results : list File) : result (list File) :=
  match files with
  | [] => Ok results
  | file_path :: rest =>
      hit <- keep file_path ;;
      if (hit : bool) then select keep rest (results ++ [file_path])
      else select keep rest results
  end.

(** The loop [for search_dir in search_dirs: if search_dir.exists(): ...]. *)
Fixpoint scan (keep : File -> result bool) (search_dirs : list Dir)
  (results : list File) : result (list File) :=
  match search_dirs with
  | [] => Ok results
  | search_dir :: rest =>
      if dir_exists search_dir then
        results' <- select keep (rglob search_dir) results ;;
        scan keep rest results'
      else scan keep rest results
  end.

Definition filename_hit (query : string) (file_path : File) : result bool :=
  if is_file file_path then
    st <- stat file_path ;;
    Ok ((0 <? st_size st)%Z && contains query (lower (name (path file_path))))
  else Ok false.

Definition search_by_filename (query : string) (search_dirs : list Dir)
  : result (list File) :=
  scan (filename_hit query) search_dirs [].

Definition text_extensions : list string :=
  [".txt"; ".md"; ".py"; ".js"; ".html"; ".css"; ".json"].

(** Content search keeps, next to its results, the log of the paths it
    passed to [open]. *)
Fixpoint content_select (query : string) (files : list File)
  (opened : list Path) (results : list File)
  : list Path * result (list File) :=
  match files with
  | [] => (opened, Ok results)
  | file_path :: rest =>
      if is_file file_path
         && in_list (lower (suffix (path file_path))) text_extensions then
        match stat file_path with
        | Raise e => (opened, Raise e)
        | Ok st =>
            if (0 <? st_size st)%Z && (st_size st <? 1024 * 1024)%Z then
              let opened' := opened ++ [path file_path] in
              match content file_path with
              | Some text =>
                  if contains query (lower text)
                  then content_select query rest opened' (results ++ [file_path])
                  else content_select query rest opened' results
              | None => content_select query rest opened' results
              end
            else content_select query rest opened results
        end
      else content_select query rest opened results
  end.

Fixpoint content_scan (query : string) (search_dirs : list Dir)
  (opened : list Path) (results : list File)
  : list Path * result (list File) :=
  match search_dirs with
  | [] => (opened, Ok results)
  | search_dir :: rest =>
      if dir_exists search_dir then
        match content_select query (rglob search_dir) opened results with
        | (opened', Ok results') => content_scan query rest opened' results'
        | (opened', Raise e) => (opened', Raise e)
        end
      else content_scan query rest opened results
  end.

Definition search_by_content_keywords (query : string)
  (search_dirs : list Dir) : result (list File) :=
  snd (content_scan query search_dirs [] []).

(** The paths [search_by_content_keywords] opens. *)
Definition content_opened (query : string) (search_dirs : list Dir)
  : list Path :=
  fst (content_scan query search_dirs [] []).

(** [type_keywords], in the order the dictionary is written. *)
Definition type_keywords : list (string * Category) :=
  [ ("photo", images); ("picture", images); ("image", images);
    ("document", documents); ("doc", documents); ("text", documents);
    ("music", audio); ("song", audio); ("audio", audio);
    ("video", video); ("movie", video);
    ("code", code); ("script", code); ("program", code) ].

(** The loop that sets [target_category] and breaks at the first hit. *)
Fixpoint target_category_in (table : list (string * Category))
  (query : string) : option Category :=
  match table with
  | [] => None
  | (keyword, category) :: rest =>
      if contains keyword query then Some category
      else target_category_in rest query
  end.

Definition target_category (query : string) : option Category :=
  target_category_in type_keywords query.

Definition type_hit (extensions : list string) (file_path : File)
  : result bool :=
  if is_file file_path
     && in_list (lower (suffix (path file_path))) extensions then
    st <- stat file_path ;; Ok (0 <? st_size st)%Z
  else Ok false.

Definition search_by_file_type (query : string) (search_dirs : list Dir)
  : result (list File) :=
  match target_category query with
  | Some category => scan (type_hit (extensions_of category)) search_dirs []
  | None => Ok []
  end.

Definition recent_words : list string := ["today"; "recent"; "new"; "latest"].
Definition old_words : list string := ["old"; "archive"; "backup"].

Definition recent_hit (now : Z) (file_path : File) : result bool :=
  if is_file file_path then
    st <- stat file_path ;;
    if (0 <? st_size st)%Z then Ok (now - 7 * day <? st_mtime st)%Z
    else Ok false
  else Ok false.

Definition old_hit (now : Z) (file_path : File) : result bool :=
  if is_file file_path then
    st <- stat file_path ;;
    if (0 <? st_size st)%Z then Ok (st_mtime st <? now - 90 * day)%Z
    else Ok false
  else Ok false.

Definition search_by_date_context (now : Z) (query : string)
  (search_dirs : list Dir) : result (list File) :=
  if any_in recent_words query then scan (recent_hit now) search_dirs []
  else if any_in old_words query then scan (old_hit now) search_dirs []
  else Ok [].

Definition large_words : list string := ["large"; "big"; "huge"].
Definition small_words : list string := ["small"; "tiny"].

Definition large_hit (file_path : File) : result bool :=
  if is_file file_path then
    st <- stat file_path ;; Ok (10 * 1024 * 1024 <? st_size st)%Z
  else Ok false.

Definition small_hit (file_path : File) : result bool :=
  if is_file file_path then
    st <- stat file_path ;;
    Ok ((0 <? st_size st)%Z && (st_size st <? 100 * 1024)%Z)
  else Ok false.

Definition search_by_size_context (query : string) (search_dirs : list Dir)
  : result (list File) :=
  if any_in large_words query then scan large_hit search_dirs []
  else if any_in small_words query then scan small_hit search_dirs []
  else Ok [].


(** ** Merging the strategies' results *)

(** The loop [for file in found_files: if file not in seen: ...].  The
    command line engine keeps [Path] objects in [seen], the web service
    their [str()]; both compare the path. *)
Fixpoint unique_from (seen : list Path) (found_files : list File)
  : list File :=
  match found_files with
  | [] => []
  | file :: rest =>
      if in_dec Path_eq_dec (path file) seen then unique_from seen rest
      else file :: unique_from (path file :: seen) rest
  end.

Definition unique_files (found_files : list File) : list File :=
  unique_from [] found_files.

(** ** Learned preferences *)

(** One record of [file_memory["organization_preferences"]]. *)
Record Preference : Type := mkPreference {
  preferred_location : string;
  confidence : Q;
  learned_on : Z
}.

(** The dictionary [file_memory["organization_preferences"]]: it is only
    read and written at category keys. *)
Definition Preferences := Category -> option Preference.

Definition no_preferences : Preferences := fun _ => None.

(** [prefs[category] = pref] *)
Definition set_preference (prefs : Preferences) (category : Category)
  (pref : Preference) : Preferences :=
  fun c => if category_eqb c category then Some pref else prefs c.

(** ** Ranking *)

Definition Qlt_bool (x y : Q) : bool := negb (Qle_bool y x).

(** [(datetime.now() - mod_time).days] *)
Definition days_old (now mod_time : Z) : Z := ((now - mod_time) / day)%Z.

Definition match_bonus (query filename_lower : string) (score : Q) : Q :=
  if String.eqb query filename_lower then score + 10
  else if contains query filename_lower then score + 5
  else score.

Definition word_bonus (query filename_lower : string) (score : Q) : Q :=
  fold_left
    (fun score word => if contains word filename_lower then score + 2 else score)
    (split query) score.

Definition recency_bonus (now : Z) (st : Stat) (score : Q) : Q :=
  let days := days_old now (st_mtime st) in
  if (days <? 7)%Z then score + 1
  else if (days <? 30)%Z then score + (1 # 2)
  else score.

Definition preference_bonus (prefs : Preferences) (file_path : Path)
  (score : Q) : Q :=
  match prefs (categorize_file file_path) with
  | Some pref =>
      if contains (preferred_location pref) (str (parent file_path))
      then score + confidence pref
      else score
  | None => score
  end.

(** Body of the loop of [rank_search_results]: the score of one file.
    [stat()] is not guarded there. *)
Definition score_of (prefs : Preferences) (now : Z) (query : string)
  (file_path : File) : result Q :=
  let score := 0 in
  let filename_lower := lower (name (path file_path)) in
  let score := match_bonus query filename_lower score in
  let score := word_bonus query filename_lower score in
  st <- stat file_path ;;
  let score := recency_bonus now st score in
  let score := preference_bonus prefs (path file_path) score in
  Ok score.

(** Body of the loop of [_rank_search_results]: no preference term, and
    a failing [stat()] only loses the recency bonus. *)
Definition _score_of (now : Z) (query : string) (file_path : File) : Q :=
  let score := 0 in
  let filename_lower := lower (name (path file_path)) in
  let score := match_bonus query filename_lower score in
  let score := word_bonus query filename_lower score in
  match stat file_path with
  | Ok st => recency_bonus now st score
  | Raise _ => score
  end.

Fixpoint scored_files (prefs : Preferences) (now : Z) (query : string)
  (files : list File) : result (list (File * Q)) :=
  match files with
  | [] => Ok []
  | file_path :: rest =>
      score <- score_of prefs now query file_path ;;
      tail <- scored_files prefs now query rest ;;
      Ok (if Qlt_bool 0 score then (file_path, score) :: tail else tail)
  end.

Fixpoint _scored_files (now : Z) (query : string) (files : list File)
  : list (File * Q) :=
  match files with
  | [] => []
  | file_path :: rest =>
      let score := _score_of now query file_path in
      if Qlt_bool 0 score
      then (file_path, score) :: _scored_files now query rest
      else _scored_files now query rest
  end.

(** [sorted(scored_files, key=lambda x: x[1], reverse=True)].  Python's
    sort is stable, also under [reverse=True]; the outcome of a stable
    sort is fixed by the keys, and insertion from the right produces it:
    an entry goes in front of the first later entry whose score is not
    greater than its own. *)
Fixpoint insert_by_score (x : File * Q) (l : list (File * Q))
  : list (File * Q) :=
  match l with
  | [] => [x]
  | y :: l' =>
      if Qlt_bool (snd x) (snd y) then y :: insert_by_score x l'
      else x :: y :: l'
  end.

Definition sorted_by_score (l : list (File * Q)) : list (File * Q) :=
  fold_right insert_by_score [] l.

Definition rank_search_results (prefs : Preferences) (now : Z)
  (files : list File) (query : string) : result (list (File * Q)) :=
  scored <- scored_files prefs now query files ;;
  Ok (sorted_by_score scored).

Definition _rank_search_results (now : Z) (files : list File)
  (query : string) : list (File * Q) :=
  sorted_by_score (_scored_files now query files).

(** ** The search entry points *)

(** The five strategies in the order of [search_strategies]; every
    [extend] appends to [found_files]. *)
Definition found_files (now : Z) (query_lower : string)
  (search_dirs : list Dir) : result (list File) :=
  r1 <- search_by_filename query_lower search_dirs ;;
  r2 <- search_by_content_keywords query_lower search_dirs ;;
  r3 <- search_by_file_type query_lower search_dirs ;;
  r4 <- search_by_date_context now query_lower search_dirs ;;
  r5 <- search_by_size_context query_lower search_dirs ;;
  Ok (r1 ++ r2 ++ r3 ++ r4 ++ r5).

(** [smart_file_search]: the clock is read once per search. *)
Definition smart_file_search (prefs : Preferences) (now : Z)
  (search_dirs : list Dir) (query : string) : result (list (File * Q)) :=
  let query_lower := lower query in
  found <- found_files now query_lower search_dirs ;;
  rank_search_results prefs now (unique_files found) query_lower.

(** [smart_search], up to the ranked list (the response keeps its first
    twenty entries). *)
Definition smart_search (now : Z) (search_dirs : list Dir) (query : string)
  : result (list (File * Q)) :=
  let query_lower := lower query in
  found <- found_files now query_lower search_dirs ;;
  Ok (firstn 20 (_rank_search_results now (unique_files found) query_lower)).

(** ** Analysis and preference learning *)

(** A [defaultdict] keyed by category: the keys in insertion order with
    their values; a missing key reads as the default. *)
Definition DefaultDict (V : Type) := list (Category * V).

Fixpoint dd_get {V : Type} (default : V) (d : DefaultDict V) (k : Category)
  : V :=
  match d with
  | [] => default
  | (k', v) :: rest => if category_eqb k' k then v else dd_get default rest k
  end.

(** [d[k] = f(d[k])]; a new key goes to the end. *)
Fixpoint dd_update {V : Type} (default : V) (f : V -> V) (d : DefaultDict V)
  (k : Category) : DefaultDict V :=
  match d with
  | [] => [(k, f default)]
  | (k', v) :: rest =>
      if category_eqb k' k then (k', f v) :: rest
      else (k', v) :: dd_update default f rest k
  end.

(** [collections.Counter] over strings: keys in first-seen order. *)
Fixpoint counter_add (c : list (string * nat)) (k : string)
  : list (string * nat) :=
  match c with
  | [] => [(k, 1%nat)]
  | (k', n) :: rest =>
      if String.eqb k' k then (k', S n) :: rest
      else (k', n) :: counter_add rest k
  end.

Definition Counter (l : list string) : list (string * nat) :=
  fold_left counter_add l [].

(** [max(items, key=count)]: the first item of greatest count. *)
Fixpoint first_max (best : string * nat) (items : list (string * nat))
  : string * nat :=
  match items with
  | [] => best
  | kv :: rest =>
      if (snd best <? snd kv)%nat then first_max kv rest
      else first_max best rest
  end.

(** [c.most_common(1)] *)
Definition most_common_1 (c : list (string * nat)) : list (string * nat) :=
  match c with
  | [] => []
  | kv :: rest => [first_max kv rest]
  end.

(** The counters of [analyze_file_system]. *)
Record Analysis : Type := mkAnalysis {
  total_files : Z;
  total_size : Z;
  file_stats : DefaultDict Z;
  size_stats : DefaultDict Z;
  location_patterns : DefaultDict (list string)
}.

Definition empty_analysis : Analysis := mkAnalysis 0 0 [] [] [].

(** Body of the inner loop of [analyze_file_system] (and of
    [analyze_system]): [stat()] is inside [try], a failure skips the
    file; an empty file is skipped. *)
Definition observe (scan_dir : Dir) (acc : Analysis) (file_path : File)
  : Analysis :=
  if is_file file_path then
    match stat file_path with
    | Raise _ => acc
    | Ok st =>
        let file_size := st_size st in
        if (file_size =? 0)%Z then acc
        else
          let category := categorize_file (path file_path) in
          mkAnalysis
            (total_files acc + 1)
            (total_size acc + file_size)
            (dd_update 0%Z (fun n => n + 1)%Z (file_stats acc) category)
            (dd_update 0%Z (fun n => n + file_size)%Z (size_stats acc) category)
            (dd_update [] (fun l => l ++ [name (dir_path scan_dir)])
               (location_patterns acc) category)
    end
  else acc.

(** One round of the outer loop [for scan_dir in scan_dirs]. *)
Definition scan_step (acc : Analysis) (scan_dir : Dir) : Analysis :=
  if dir_exists scan_dir
  then fold_left (observe scan_dir) (rglob scan_dir) acc
  else acc.

Definition scan_all (scan_dirs : list Dir) : Analysis :=
  fold_left scan_step scan_dirs empty_analysis.

(** First loop of [learn_organization_patterns].  (Its second loop
    writes [file_memory["file_patterns"]], which nothing reads.) *)
Definition learn_one (now : Z) (prefs : Preferences)
  (item : Category * list string) : Preferences :=
  let (category, locations) := item in
  match locations with
  | [] => prefs
  | _ :: _ =>
      match most_common_1 (Counter locations) with
      | most_common_location :: _ =>
          set_preference prefs category
            (mkPreference (fst most_common_location)
               (Z.of_nat (snd most_common_location)
                # Pos.of_nat (List.length locations))
               now)
      | [] => prefs
      end
  end.

Definition learn_organization_patterns (now : Z) (prefs : Preferences)
  (location_patterns : DefaultDict (list string)) : Preferences :=
  fold_left (learn_one now) location_patterns prefs.

(** [analyze_file_system]: the new preference table and the report. *)
Definition analyze_file_system (now : Z) (prefs : Preferences)
  (scan_dirs : list Dir) : Preferences * Analysis :=
  let a := scan_all scan_dirs in
  (learn_organization_patterns now prefs (location_patterns a), a).

(** ** Auto-organization *)

Definition nonempty_hit (file_path : File) : result bool :=
  if is_file file_path then
    st <- stat file_path ;; Ok (0 <? st_size st)%Z
  else Ok false.

(** [location_mapping] of [auto_organize_files] *)
Definition location_mapping (home : Path) : list (string * Path) :=
  [ ("Documents", joinpath home "Documents");
    ("Pictures", joinpath home "Pictures");
    ("Music", joinpath home "Music");
    ("Videos", joinpath home "Videos") ].

Fixpoint lookup {V : Type} (k : string) (d : list (string * V)) : option V :=
  match d with
  | [] => None
  | (k', v) :: rest => if String.eqb k' k then Some v else lookup k rest
  end.

Definition string_of_nat (n : nat) : string :=
  NilEmpty.string_of_uint (Nat.to_uint n).

(** The loop [while target_path.exists()]: at most [List.length existing]
    names can be taken, so [S (List.length existing)] rounds are enough
    (lemma [free_target_fresh]). *)
Fixpoint free_target (fuel : nat) (existing : list Path) (target_dir : Path)
  (stem suffix : string) (counter : nat) (target_path : Path) : Path :=
  match fuel with
  | O => target_path
  | S fuel' =>
      if in_dec Path_eq_dec target_path existing then
        free_target fuel' existing target_dir stem suffix (S counter)
          (joinpath target_dir (stem ++ "_" ++ string_of_nat counter ++ suffix))
      else target_path
  end.

(** What [auto_organize_files] has done so far: the moves performed
    (source, target), their number, and the paths that exist. *)
Record Organized : Type := mkOrganized {
  moves : list (Path * Path);
  organized_count : nat;
  existing : list Path
}.

(** Body of the loop over [files_to_organize].  [writable] tells whether
    [mkdir] and [shutil.move] into a directory succeed; when they raise,
    the file stays. *)
Definition organize_one (home : Path) (prefs : Preferences)
  (writable : Path -> bool) (acc : Organized) (file_path : File)
  : Organized :=
  let category := categorize_file (path file_path) in
  match prefs category with
  | Some pref =>
      match lookup (preferred_location pref) (location_mapping home) with
      | Some target_dir =>
          if writable target_dir then
            let target_path :=
              free_target (S (List.length (existing acc))) (existing acc) target_dir
                (stem (path file_path)) (suffix (path file_path)) 1
                (joinpath target_dir (name (path file_path))) in
            mkOrganized
              (moves acc ++ [(path file_path, target_path)])
              (S (organized_count acc))
              (target_path
               :: remove Path_eq_dec (path file_path) (existing acc))
          else acc
      | None => acc
      end
  | None => acc
  end.

(** [auto_organize_files] on the [Downloads] directory.  The two early
    returns (folder missing, nothing to organize) move nothing; they
    show here as an outcome without moves. *)
Definition auto_organize_files (home : Path) (prefs : Preferences)
  (writable : Path -> bool) (downloads_dir : Dir) (existing : list Path)
  : result Organized :=
  if dir_exists downloads_dir then
    files_to_organize <- select nonempty_hit (iterdir downloads_dir) [] ;;
    Ok (fold_left (organize_one home prefs writable) files_to_organize
          (mkOrganized [] 0 existing))
  else Ok (mkOrganized [] 0 existing).






(** ** Suggestions *)

(** The dictionary keys of the categories. *)
Definition category_name (c : Category) : string :=
  match c with
  | images => "images"
  | documents => "documents"
  | spreadsheets => "spreadsheets"
  | presentations => "presentations"
  | audio => "audio"
  | video => "video"
  | archives => "archives"
  | code => "code"
  | data => "data"
  | other => "other"
  end.

(** [f"{n}"] for an integer. *)
Definition str_of_int (n : Z) : string := NilEmpty.string_of_int (Z.to_int n).

(** One entry of the suggestion list. *)
Record Suggestion : Type := mkSuggestion {
  type : string;
  message : string;
  priority : string
}.

(** [sum(d.values())] *)
Definition sum_values (d : DefaultDict Z) : Z :=
  fold_left (fun total kv => (total + snd kv)%Z) d 0%Z.

(** [max(items, key=lambda x: x[1])] once a first item is at hand: the
    first item of greatest value. *)
Fixpoint max_item (best : Category * Z) (items : list (Category * Z))
  : Category * Z :=
  match items with
  | [] => best
  | kv :: rest =>
      if (snd best <? snd kv)%Z then max_item kv rest else max_item best rest
  end.

(** [max(d.items(), key=lambda x: x[1])]; [max] of nothing raises. *)
Definition largest_item (d : DefaultDict Z) : result (Category * Z) :=
  match d with
  | [] => Raise ValueError
  | kv :: rest => Ok (max_item kv rest)
  end.

(** [generate_smart_suggestions] and [_generate_suggestions] (the same
    body; the former also stores the list in the memory file).
    [format_1f] stands for the float format [:.1f]. *)
Definition generate_smart_suggestions (format_1f : Q -> string)
  (file_stats size_stats : DefaultDict Z) : result (list Suggestion) :=
  let suggestions := [] in
  let total_size_mb := inject_Z (sum_values size_stats) / inject_Z (1024 * 1024) in
  suggestions <-
    (if Qlt_bool 1000 total_size_mb then
       largest_category <- largest_item size_stats ;;
       Ok (suggestions
           ++ [mkSuggestion "storage_optimization"
                 ("Your " ++ category_name (fst largest_category)
                  ++ " files are using "
                  ++ format_1f (inject_Z (snd largest_category)
                                / inject_Z (1024 * 1024))
                  ++ "MB. Consider archiving old files.")
                 "medium"])
     else Ok suggestions) ;;
  let downloads_files := dd_get 0%Z file_stats other in
  let suggestions :=
    if (20 <? downloads_files)%Z then
      suggestions
      ++ [mkSuggestion "organization"
            ("You have " ++ str_of_int downloads_files
             ++ " uncategorized files. I can help organize them automatically.")
            "high"]
    else suggestions in
  let suggestions :=
    if (5 <? dd_get 0%Z file_stats archives)%Z then
      suggestions
      ++ [mkSuggestion "cleanup"
            ("You have " ++ str_of_int (dd_get 0%Z file_stats archives)
             ++ " archive files. Some might be safe to remove after extraction.")
            "low"]
    else suggestions in
  Ok suggestions.

(** ** The response of the web service search *)





(** ** The interactive command loop *)

(** [s.lstrip()] *)
Fixpoint lstrip (s : string) : string :=
  match s with
  | EmptyString => EmptyString
  | String c s' => if is_space c then lstrip s' else s
  end.

(** [s.rstrip()] *)
Fixpoint rstrip (s : string) : string :=
  match s with
  | EmptyString => EmptyString
  | String c s' =>
      match rstrip s' with
      | EmptyString => if is_space c then EmptyString else String c EmptyString
      | rest => String c rest
      end
  end.

(** [s.strip()] *)
Definition strip (s : string) : string := rstrip (lstrip s).

(** [s[n:]] *)
Fixpoint drop (n : nat) (s : string) : string :=
  match n, s with
  | O, _ => s
  | S n', EmptyString => EmptyString
  | S n', String _ s' => drop n' s'
  end.

(** What one round of the loop does with the line typed. *)
Inductive Action : Type :=
| Quit
| Analyze
| Search (query : string)
| AskForQuery
| Organize
| Insights
| Suggestions
| UnknownCommand.

(** Body of the loop of [interactive_file_intelligence]. *)
Definition interactive_command (line : string) : Action :=
  let command := lower (strip line) in
  if String.eqb command "quit" then Quit
  else if String.eqb command "analyze" then Analyze
  else if String.prefix "search " command then
    let query := drop 7 command in
    match query with
    | EmptyString => AskForQuery
    | _ => Search query
    end
  else if String.eqb command "organize" then Organize
  else if String.eqb command "insights" then Insights
  else if String.eqb command "suggestions" then Suggestions
  else UnknownCommand.

(** [interactive_file_intelligence] on the lines typed: the actions taken,
    up to and including [quit]. *)
Fixpoint interactive_file_intelligence (lines : list string) : list Action :=
  match lines with
  | [] => []
  | line :: rest =>
      match interactive_command line with
      | Quit => [Quit]
      | action => action :: interactive_file_intelligence rest
      end
  end.

(** ** The scoring formula as the specification words it *)

(** +10.0 if the lowercase basename equals the query, otherwise +5.0 if
    the query is a substring of it. *)
Definition claimed_match (query basename : string) : Q :=
  if String.eqb basename query then 10
  else if contains query basename then 5
  else 0.

(** +2.0 for each white-space-split query word that occurs in the
    basename. *)
Definition claimed_words (query basename : string) : Q :=
  2 * inject_Z
        (Z.of_nat
           (List.length (filter (fun w => contains w basename) (split query)))).

(** Modified less than [days] days before [now]. *)
Definition modified_within (days now mod_time : Z) : bool :=
  (now - mod_time <? days * day)%Z.

(** +1.0 if modified within 7 days, else +0.5 if within 30 days. *)
Definition claimed_recency (now : Z) (st : Stat) : Q :=
  if modified_within 7 now (st_mtime st) then 1
  else if modified_within 30 now (st_mtime st) then 1 # 2
  else 0.

(** The confidence of the category's learned preference when the name of
    its preferred location appears in the parent path string. *)
Definition claimed_preference (prefs : Preferences) (file_path : Path) : Q :=
  match prefs (categorize_file file_path) with
  | Some pref =>
      if contains (preferred_location pref) (str (parent file_path))
      then confidence pref
      else 0
  | None => 0
  end.

Definition claimed_score (prefs : Preferences) (now : Z) (query : string)
  (file_path : Path) (st : Stat) : Q :=
  claimed_match query (lower (name file_path))
  + claimed_words query (lower (name file_path))
  + claimed_recency now st
  + claimed_preference prefs file_path.

(** ** Vocabulary of the statements about ranking *)

(** The score [rank_search_results] gives a file ([0] stands in when
    [stat()] raises and no score exists). *)
Definition score_value (prefs : Preferences) (now : Z) (query : string)
  (file_path : File) : Q :=
  match score_of prefs now query file_path with
  | Ok score => score
  | Raise _ => 0
  end.

(** The entries of strictly positive score, in the order of the input. *)
Definition positive_entries (score : File -> Q) (files : list File)
  : list (File * Q) :=
  filter (fun x => Qlt_bool 0 (snd x)) (map (fun f => (f, score f)) files).

(** [x] may stand before [y] in a list ordered by descending score. *)
Definition score_ge (x y : File * Q) : Prop := snd y <= snd x.

(** The entries whose score equals [s]. *)
Definition with_score (s : Q) (l : list (File * Q)) : list (File * Q) :=
  filter (fun x => Qeq_bool (snd x) s) l.

(** Every file of the list answers [stat()]. *)
Definition all_statable (files : list File) : Prop :=
  forall f, In f files -> exists st, stat f = Ok st.

(** ** Vocabulary of the statements about merging *)

(** Position of the first entry of [l] whose path is [p] (the length of
    [l] when there is none). *)
Fixpoint first_index (p : Path) (l : list File) : nat :=
  match l with
  | [] => 0
  | f :: rest =>
      if Path_eq_dec (path f) p then 0 else S (first_index p rest)
  end.

(** [x] was discovered before [y] in [l]. *)
Definition seen_before (l : list File) (x y : File) : Prop :=
  (first_index (path x) l < first_index (path y) l)%nat.

(** The paths of a ranked list. *)
Definition ranked_paths (ranked : list (File * Q)) : list Path :=
  map (fun x => path (fst x)) ranked.

(** ** Vocabulary of the statements about the strategies *)

(** Everything the search visits: the descendants of the directories
    that exist, in the order of the walk. *)
Definition walk (search_dirs : list Dir) : list File :=
  flat_map (fun d => if dir_exists d then rglob d else []) search_dirs.

(** [stat()] answers for every regular file the walk meets. *)
Definition statable (search_dirs : list Dir) : Prop :=
  forall f, In f (walk search_dirs) -> is_file f = true ->
            exists st, stat f = Ok st.

(** Size and modification time of a file that answers [stat()]. *)
Definition size_of (f : File) : Z :=
  match stat f with
  | Ok st => st_size st
  | Raise _ => 0
  end.

Definition mtime_of (f : File) : Z :=
  match stat f with
  | Ok st => st_mtime st
  | Raise _ => 0
  end.

(** A regular file that is not empty. *)
Definition nonempty_file (f : File) : bool :=
  is_file f && (0 <? size_of f)%Z.

(** The lowercase extension is in the given list. *)
Definition extension_in (extensions : list string) (f : File) : bool :=
  in_list (lower (suffix (path f))) extensions.

(** The decoded, lowercased content contains the query. *)
Definition content_has (query : string) (f : File) : bool :=
  match content f with
  | Some text => contains query (lower text)
  | None => false
  end.

(** A file the content search opens: a non-empty text file below the
    size cap. *)
Definition openable (f : File) : bool :=
  is_file f && extension_in text_extensions f
  && (0 <? size_of f)%Z && (size_of f <? 1024 * 1024)%Z.

(** The content strategy's selection as the specification words it:
    allow-listed extension, size greater than 0 and at most 1 MiB,
    content containing the query. *)
Definition claimed_content_match (query : string) (f : File) : bool :=
  is_file f && extension_in text_extensions f
  && (0 <? size_of f)%Z && (size_of f <=? 1024 * 1024)%Z
  && content_has query f.

(** ** Vocabulary of the statements about learning *)

(** A file the analysis counts for category [c]: a regular file that
    answers [stat()], is not empty, and falls in [c]. *)
Definition observed (c : Category) (f : File) : bool :=
  is_file f
  && match stat f with
     | Ok st => negb (st_size st =? 0)%Z
     | Raise _ => false
     end
  && category_eqb (categorize_file (path f)) c.

(** For each observed file of category [c], in the order of the scan,
    the name of the scanned directory under which it was found. *)
Definition observed_roots (c : Category) (scan_dirs : list Dir)
  : list string :=
  flat_map
    (fun d =>
       if dir_exists d
       then map (fun _ => name (dir_path d)) (filter (observed c) (rglob d))
       else [])
    scan_dirs.

(** For each observed file of category [c], the name of its immediate
    parent directory. *)
Definition observed_parents (c : Category) (scan_dirs : list Dir)
  : list string :=
  flat_map
    (fun d =>
       if dir_exists d
       then map (fun f => name (parent (path f)))
              (filter (observed c) (rglob d))
       else [])
    scan_dirs.

Definition occurrences (l : list string) (x : string) : nat :=
  count_occ string_dec l x.

(** [x] is a most frequent element of [l]. *)
Definition is_mode (x : string) (l : list string) : Prop :=
  In x l /\ forall y, (occurrences l y <= occurrences l x)%nat.

(** A preference record describes the list of locations [l]: its
    location is a mode of [l] and its confidence the mode's share. *)
Definition describes (pref : Preference) (l : list string) : Prop :=
  is_mode (preferred_location pref) l
  /\ confidence pref
     == Z.of_nat (occurrences l (preferred_location pref))
        # Pos.of_nat (List.length l).

(** The count a [Counter] holds for a key. *)
Fixpoint counter_get (c : list (string * nat)) (k : string) : nat :=
  match c with
  | [] => 0
  | (k', n) :: rest => if String.eqb k' k then n else counter_get rest k
  end.

(** The record [learn_organization_patterns] writes for a list of
    locations, if it writes one. *)
Definition learned (now : Z) (locations : list string) : option Preference :=
  match locations with
  | [] => None
  | _ :: _ =>
      match most_common_1 (Counter locations) with
      | most_common_location :: _ =>
          Some (mkPreference (fst most_common_location)
                  (Z.of_nat (snd most_common_location)
                   # Pos.of_nat (List.length locations))
                  now)
      | [] => None
      end
  end.

(** Learning as the specification words it: after an analysis every
    category with an observed file is mapped to a most frequent
    immediate-parent directory name and that name's share. *)
Definition claimed_learning (now : Z) (prefs : Preferences)
  (scan_dirs : list Dir) : Prop :=
  forall c,
    observed_parents c scan_dirs <> [] ->
    exists pref,
      fst (analyze_file_system now prefs scan_dirs) c = Some pref
      /\ describes pref (observed_parents c scan_dirs).

(** ** Vocabulary of the statements about organizing *)


(** The [counter]-th name the collision loop tries. *)
Definition candidate (target_dir : Path) (stem suffix : string)
  (counter : nat) : Path :=
  joinpath target_dir (stem ++ "_" ++ string_of_nat counter ++ suffix).

(** ** Canonical paths *)

(** The canonical form of an absolute path none of whose parts is a
    symbolic link: [..] steps up (the root is its own parent) and [.]
    stays.  The code computes no such form anywhere; this is the notion
    the specification of the merge speaks of. *)
Fixpoint resolve_parts (resolved : list string) (parts : list string)
  : list string :=
  match parts with
  | [] => rev resolved
  | part :: rest =>
      if String.eqb part ".." then resolve_parts (tl resolved) rest
      else if String.eqb part "." then resolve_parts resolved rest
      else resolve_parts (part :: resolved) rest
  end.

Definition canonical (p : Path) : Path := resolve_parts [] p.

(** The merge as the specification words it: at most one entry per
    canonical absolute path. *)
Definition claimed_merge (now : Z) (search_dirs : list Dir)
  (query : string) : Prop :=
  forall found,
    found_files now (lower query) search_dirs = Ok found ->
    NoDup (map (fun f => canonical (path f)) (unique_files found)).

(** ** Vocabulary of the further statements *)

(** A file the analysis counts: a regular file that answers [stat()] and
    is not empty. *)
Definition counted (f : File) : bool :=
  is_file f
  && match stat f with
     | Ok st => negb (st_size st =? 0)%Z
     | Raise _ => false
     end.

(** Sum of a weight over a list of files. *)
Definition sum_over (w : File -> Z) (l : list File) : Z :=
  fold_right (fun f total => (w f + total)%Z) 0%Z l.

(** Position of the first occurrence of [x] in [l] (the length of [l]
    when there is none). *)
Fixpoint first_position (x : string) (l : list string) : nat :=
  match l with
  | [] => 0
  | y :: rest => if String.eqb y x then 0 else S (first_position x rest)
  end.

(** The last character of a string, if any. *)
Fixpoint last_char (s : string) : option ascii :=
  match s with
  | EmptyString => None
  | String c EmptyString => Some c
  | String _ s' => last_char s'
  end.

(** A multiple of one half. *)
Definition half_integer (x : Q) : Prop := exists k : Z, x == k # 2.


(** The query or one of its words occurs in the lowercase basename. *)
Definition name_matches (query : string) (f : File) : Prop :=
  contains query (lower (name (path f))) = true
  \/ exists w, In w (split query)
               /\ contains w (lower (name (path f))) = true.

(** ** Concrete file systems used by the checks below *)

Definition sample_stat (size mtime : Z) : result Stat := Ok (mkStat size mtime).

Definition sample_dir : Dir :=
  let p := ["home"; "u"; "Documents"] in
  let fs :=
    [ mkFile (p ++ ["work"]) false (sample_stat 4096 0) None;
      mkFile (p ++ ["work"; "Report.PDF"]) true (sample_stat 5000 0) None;
      mkFile (p ++ ["notes.txt"]) true (sample_stat 12 0) (Some "Quarterly REPORT");
      mkFile (p ++ ["empty.txt"]) true (sample_stat 0 0) (Some "");
      mkFile (p ++ ["movie.mp4"]) true (sample_stat (15 * MiB) 0) None ] in
  mkDir p true fs [].


Definition docs_path : Path := ["home"; "u"; "Documents"].

(** The clock of the examples: one hundred days after the epoch. *)
Definition sample_now : Z := 100 * day.

Definition report_pdf : File :=
  mkFile (docs_path ++ ["report.pdf"]) true
    (sample_stat 5000 (98 * day)) None.

Definition report_bak : File :=
  mkFile (docs_path ++ ["report.pdf.bak"]) true
    (sample_stat 5000 (99 * day)) None.

Definition holiday_jpg : File :=
  mkFile ["home"; "u"; "Downloads"; "holiday.jpg"] true
    (sample_stat 3000 (10 * day)) None.

(** Documents are usually kept in [Documents], four times out of five. *)
Definition sample_prefs : Preferences :=
  set_preference no_preferences documents
    (mkPreference "Documents" (4 # 5) 0).

Definition sample_files : list File := [holiday_jpg; report_bak; report_pdf].

(** A text file of exactly 1 MiB. *)
Definition one_mib_txt : File :=
  mkFile (docs_path ++ ["ledger.txt"]) true
    (sample_stat (1024 * 1024) (98 * day)) (Some "Budget 2024").

Definition one_mib_dir : Dir := mkDir docs_path true [one_mib_txt] [].

(** A directory in which one file vanished after it was listed:
    [is_file()] answered before, [stat()] raises. *)
Definition kept_txt : File :=
  mkFile (docs_path ++ ["kept.txt"]) true
    (sample_stat 120 (98 * day)) (Some "kept notes").

Definition gone_txt : File :=
  mkFile (docs_path ++ ["gone.txt"]) true (Raise OSError) None.

Definition later_txt : File :=
  mkFile (docs_path ++ ["later.txt"]) true
    (sample_stat 80 (99 * day)) (Some "later notes").

Definition vanishing_dir : Dir :=
  mkDir docs_path true [kept_txt; gone_txt; later_txt] [].

(** [Documents] holding two reports in the folder [work] and one file of
    its own. *)
Definition nested_dir : Dir :=
  mkDir docs_path true
    [ mkFile (docs_path ++ ["work"]) false (sample_stat 4096 0) None;
      mkFile (docs_path ++ ["work"; "a.pdf"]) true (sample_stat 5000 0) None;
      mkFile (docs_path ++ ["work"; "b.pdf"]) true (sample_stat 7000 0) None;
      mkFile (docs_path ++ ["c.pdf"]) true (sample_stat 900 0) None ]
    [].

Definition home_path : Path := ["home"; "u"].

(** A [Downloads] folder holding one picture. *)
Definition downloads_dir : Dir :=
  mkDir (joinpath home_path "Downloads") true [holiday_jpg] [holiday_jpg].

(** Pictures are usually kept in [Pictures]. *)
Definition picture_prefs : Preferences :=
  set_preference no_preferences images (mkPreference "Pictures" (4 # 5) 0).

(** Two scanned roots with one picture each. *)
Definition tie_dirs : list Dir :=
  [ mkDir ["home"; "u"; "Pictures"] true
      [mkFile ["home"; "u"; "Pictures"; "a.jpg"] true (sample_stat 5000 0) None]
      [];
    mkDir ["home"; "u"; "Downloads"] true
      [mkFile ["home"; "u"; "Downloads"; "c.jpg"] true (sample_stat 3000 0) None]
      [] ].

(** One folder given to the search under two spellings, as a caller of
    the web service may pass them in [file_paths]. *)
Definition dotted_docs_path : Path :=
  ["home"; "u"; "Documents"; ".."; "Documents"].

Definition plain_a : File :=
  mkFile (docs_path ++ ["a.txt"]) true
    (sample_stat 10 (98 * day)) (Some "hello").

Definition dotted_a : File :=
  mkFile (dotted_docs_path ++ ["a.txt"]) true
    (sample_stat 10 (98 * day)) (Some "hello").

Definition twice_spelled_dirs : list Dir :=
  [ mkDir docs_path true [plain_a] [];
    mkDir dotted_docs_path true [dotted_a] [] ].

(** ** Sanity checks on concrete inputs *)

Example lower_ex : lower "Report.PDF" = "report.pdf".
Proof. reflexivity. Qed.

Example contains_ex :
  contains "port" "report.pdf" = true /\ contains "" "" = true /\
  contains "x" "report" = false.
Proof. repeat split; reflexivity. Qed.

Example split_ex : split "  my  tax report " = ["my"; "tax"; "report"].
Proof. reflexivity. Qed.

Example suffix_ex :
  suffix ["home"; "u"; "a.tar.gz"] = ".gz" /\ suffix ["home"; ".bashrc"] = "" /\
  suffix ["home"; "trailing."] = "" /\ stem ["home"; "a.tar.gz"] = "a.tar".
Proof. repeat split; reflexivity. Qed.

Example categorize_ex :
  categorize_file ["home"; "u"; "Pictures"; "A.JPG"] = images /\
  categorize_file ["home"; "u"; "notes"] = other.
Proof. split; reflexivity. Qed.

Example search_by_filename_ex :
  search_by_filename "report" [sample_dir]
  = Ok [mkFile ["home"; "u"; "Documents"; "work"; "Report.PDF"] true
          (sample_stat 5000 0) None].
Proof. reflexivity. Qed.

Example search_by_content_ex :
  match search_by_content_keywords "report" [sample_dir] with
  | Ok r => map path r
  | Raise _ => []
  end = [["home"; "u"; "Documents"; "notes.txt"]]
  /\ content_opened "report" [sample_dir]
     = [["home"; "u"; "Documents"; "notes.txt"]].
Proof. split; reflexivity. Qed.

Example search_by_size_ex :
  match search_by_size_context "large files" [sample_dir] with
  | Ok r => map path r
  | Raise _ => []
  end = [["home"; "u"; "Documents"; "movie.mp4"]].
Proof. reflexivity. Qed.

Example score_of_ex :
  score_of sample_prefs sample_now "report.pdf" report_pdf
  = Ok (0 + 10 + 2 + 1 + (4 # 5))%Q
  /\ score_of sample_prefs sample_now "report.pdf" report_bak
     = Ok (0 + 5 + 2 + 1)%Q
  /\ score_of sample_prefs sample_now "report.pdf" holiday_jpg = Ok 0%Q
  /\ score_of sample_prefs sample_now "holiday" holiday_jpg
     = Ok (0 + 5 + 2)%Q.
Proof. repeat split; reflexivity. Qed.

Example rank_search_results_ex :
  match rank_search_results sample_prefs sample_now
          [holiday_jpg; report_bak; report_pdf] "report.pdf" with
  | Ok ranked => map (fun x => name (path (fst x))) ranked
  | Raise _ => []
  end = ["report.pdf"; "report.pdf.bak"].
Proof. reflexivity. Qed.

Example interactive_ex :
  interactive_file_intelligence
    ["  Search  Tax Report "; "search "; "SEARCH"; "organize"; "quit"; "analyze"]
  = [Search " tax report"; UnknownCommand; UnknownCommand; Organize; Quit].
Proof. reflexivity. Qed.

Example suggestions_ex :
  option_map (map type)
    (match generate_smart_suggestions (fun _ => "2048.0")
             [(other, 21%Z); (archives, 6%Z)]
             [(video, (2 * 1024 * MiB)%Z); (other, 10%Z)]
     with Ok l => Some l | Raise _ => None end)
  = Some ["storage_optimization"; "organization"; "cleanup"].
Proof. reflexivity. Qed.

(** ** Facts about strings *)

Section StringFacts.

Local Open Scope string_scope.

Lemma append_nil_r (s : string) : s ++ "" = s.
Proof. induction s as [|c s IH]; simpl; [reflexivity | now rewrite IH]. Qed.

Lemma append_assoc (a b c : string) : (a ++ b) ++ c = a ++ b ++ c.
Proof. induction a as [|x a IH]; simpl; [reflexivity | now rewrite IH]. Qed.

Lemma prefix_iff (q s : string) :
  String.prefix q s = true <-> exists b, s = q ++ b.
Proof.
  revert s; induction q as [|c q IH]; intros s.
  - destruct s; simpl; split; intros _; try reflexivity; eexists; reflexivity.
  - destruct s as [|d s]; simpl.
    + split; [discriminate | intros [b Hb]; discriminate].
    + destruct (ascii_dec c d) as [->|Hcd].
      * rewrite IH. split; intros [b Hb]; exists b.
        -- now rewrite Hb.
        -- now inversion Hb.
      * split; [discriminate | intros [b Hb]; simpl in Hb; congruence].
Qed.

Lemma contains_nil (q : string) :
  contains q "" = if String.prefix q "" then true else false.
Proof. reflexivity. Qed.

Lemma contains_cons (q : string) (d : ascii) (s : string) :
  contains q (String d s)
  = if String.prefix q (String d s) then true else contains q s.
Proof. reflexivity. Qed.

Lemma contains_iff (q s : string) :
  contains q s = true <-> exists a b, s = a ++ q ++ b.
Proof.
  induction s as [|d s IH].
  - rewrite contains_nil. destruct (String.prefix q "") eqn:Hp.
    + split; [intros _ | reflexivity].
      apply prefix_iff in Hp. destruct Hp as [b Hb]. now exists "", b.
    + split; [discriminate |].
      intros (a & b & Hab). destruct a; simpl in Hab.
      * assert (String.prefix q "" = true) by (apply prefix_iff; now exists b).
        congruence.
      * discriminate.
  - rewrite contains_cons. destruct (String.prefix q (String d s)) eqn:Hp.
    + split; [intros _ | reflexivity].
      apply prefix_iff in Hp. destruct Hp as [b Hb]. now exists "", b.
    + rewrite IH. split.
      * intros (a & b & Hab). exists (String d a), b. simpl. now rewrite Hab.
      * intros (a & b & Hab). destruct a as [|x a]; simpl in Hab.
        -- assert (String.prefix q (String d s) = true)
             by (apply prefix_iff; now exists b).
           congruence.
        -- inversion Hab; subst. now exists a, b.
Qed.

Lemma contains_refl (s : string) : contains s s = true.
Proof. apply contains_iff. exists "", "". simpl. now rewrite append_nil_r. Qed.

Lemma contains_empty (s : string) : contains "" s = true.
Proof. apply contains_iff. now exists "", s. Qed.

Lemma contains_trans (w q s : string) :
  contains w q = true -> contains q s = true -> contains w s = true.
Proof.
  rewrite !contains_iff. intros (a & b & ->) (a' & b' & ->).
  exists (a' ++ a), (b ++ b'). now rewrite !append_assoc.
Qed.

Lemma flush_In (cur : string) (acc : list string) (w : string) :
  In w (flush cur acc) -> In w acc \/ (w = cur /\ cur <> "").
Proof.
  destruct cur; simpl; [now left |].
  rewrite in_app_iff; simpl. intros [H | [H | []]]; [now left |].
  right; split; [now symmetry | discriminate].
Qed.

Lemma split_from_contained (t s : string) :
  forall cur acc pre,
    t = pre ++ cur ++ s ->
    (forall w, In w acc -> contains w t = true) ->
    forall w, In w (split_from s cur acc) -> contains w t = true.
Proof.
  induction s as [|c s IH]; intros cur acc pre Ht Hacc w Hw; simpl in Hw.
  - apply flush_In in Hw. destruct Hw as [Hw | [-> _]]; [now apply Hacc |].
    apply contains_iff. now exists pre, "".
  - assert (Hcur : forall w, In w (flush cur acc) -> contains w t = true).
    { intros v Hv. apply flush_In in Hv. destruct Hv as [Hv | [-> _]].
      - now apply Hacc.
      - apply contains_iff. now exists pre, (String c s). }
    destruct (is_space c).
    + apply (IH "" (flush cur acc) (pre ++ cur ++ String c "")); auto.
      rewrite Ht, !append_assoc. reflexivity.
    + apply (IH (cur ++ String c "") acc pre); auto.
      rewrite Ht, !append_assoc. reflexivity.
Qed.

(** Every word of [query.split()] occurs in the query. *)
Lemma split_contained (query w : string) :
  In w (split query) -> contains w query = true.
Proof.
  unfold split. apply (split_from_contained query query "" [] "").
  - reflexivity.
  - intros v [].
Qed.

Lemma in_list_iff (x : string) (xs : list string) :
  in_list x xs = true <-> In x xs.
Proof.
  unfold in_list. rewrite existsb_exists. split.
  - intros (y & Hy & He). apply String.eqb_eq in He. now subst.
  - intros H. exists x. split; [assumption | apply String.eqb_refl].
Qed.

End StringFacts.

(** ** Facts about scores and the sort *)

Section ScoreFacts.

Local Open Scope Q_scope.

Lemma Qlt_bool_iff (x y : Q) : Qlt_bool x y = true <-> x < y.
Proof.
  unfold Qlt_bool. rewrite negb_true_iff. split; intros H.
  - apply Qnot_le_lt. intros Hle. apply Qle_bool_iff in Hle. congruence.
  - destruct (Qle_bool y x) eqn:E; [| reflexivity].
    apply Qle_bool_iff in E. exfalso. eapply Qlt_not_le; eauto.
Qed.

Lemma Qlt_bool_false_iff (x y : Q) : Qlt_bool x y = false <-> y <= x.
Proof.
  unfold Qlt_bool. rewrite negb_false_iff. apply Qle_bool_iff.
Qed.

Lemma day_pos : (0 < day)%Z.
Proof. reflexivity. Qed.

(** Whole days elapsed are below [d] exactly when less than [d] days
    have elapsed. *)
Lemma days_old_lt (d now mod_time : Z) :
  (days_old now mod_time <? d)%Z = modified_within d now mod_time.
Proof.
  unfold days_old, modified_within.
  destruct (Z.ltb_spec (now - mod_time) (d * day)) as [H | H].
  - apply Z.ltb_lt. apply Z.div_lt_upper_bound; [apply day_pos | lia].
  - apply Z.ltb_ge. apply Z.div_le_lower_bound; [apply day_pos | lia].
Qed.

Lemma match_bonus_claimed (query basename : string) (score : Q) :
  match_bonus query basename score == score + claimed_match query basename.
Proof.
  unfold match_bonus, claimed_match. rewrite (String.eqb_sym basename query).
  destruct (String.eqb query basename); [lra |].
  destruct (contains query basename); lra.
Qed.

Lemma fold_words_claimed (basename : string) (words : list string) :
  forall score,
    fold_left
      (fun score word => if contains word basename then score + 2 else score)
      words score
    == score
       + 2 * inject_Z
               (Z.of_nat
                  (List.length (filter (fun w => contains w basename) words))).
Proof.
  induction words as [|w words IH]; intros score; simpl.
  - unfold inject_Z. lra.
  - rewrite IH. destruct (contains w basename); [| lra].
    cbn [List.length]. rewrite Nat2Z.inj_succ. unfold Z.succ.
    rewrite inject_Z_plus. unfold inject_Z at 3. lra.
Qed.

Lemma word_bonus_claimed (query basename : string) (score : Q) :
  word_bonus query basename score == score + claimed_words query basename.
Proof. apply fold_words_claimed. Qed.

Lemma recency_bonus_claimed (now : Z) (st : Stat) (score : Q) :
  recency_bonus now st score == score + claimed_recency now st.
Proof.
  unfold recency_bonus, claimed_recency. rewrite !days_old_lt.
  destruct (modified_within 7 now (st_mtime st)); [lra |].
  destruct (modified_within 30 now (st_mtime st)); lra.
Qed.

Lemma preference_bonus_claimed (prefs : Preferences) (p : Path) (score : Q) :
  preference_bonus prefs p score == score + claimed_preference prefs p.
Proof.
  unfold preference_bonus, claimed_preference.
  destruct (prefs (categorize_file p)) as [pref |]; [| lra].
  destruct (contains _ _); lra.
Qed.

Lemma score_of_claimed (prefs : Preferences) (now : Z) (query : string)
  (f : File) (st : Stat) :
  stat f = Ok st ->
  exists score,
    score_of prefs now query f = Ok score
    /\ score == claimed_score prefs now query (path f) st.
Proof.
  intros Hst. unfold score_of. rewrite Hst. cbn [bind].
  eexists. split; [reflexivity |].
  unfold claimed_score.
  rewrite preference_bonus_claimed, recency_bonus_claimed,
    word_bonus_claimed, match_bonus_claimed.
  lra.
Qed.

Lemma _score_of_claimed (now : Z) (query : string) (f : File) (st : Stat) :
  stat f = Ok st ->
  _score_of now query f == claimed_score no_preferences now query (path f) st.
Proof.
  intros Hst. unfold _score_of. rewrite Hst. unfold claimed_score.
  rewrite recency_bonus_claimed, word_bonus_claimed, match_bonus_claimed.
  unfold claimed_preference, no_preferences. lra.
Qed.

Lemma claimed_recency_bounds (now : Z) (st : Stat) :
  0 <= claimed_recency now st <= 1.
Proof.
  unfold claimed_recency.
  destruct (modified_within 7 now _); [lra |].
  destruct (modified_within 30 now _); lra.
Qed.

Lemma claimed_words_nonneg (query basename : string) :
  0 <= claimed_words query basename.
Proof.
  unfold claimed_words.
  assert (0 <= inject_Z (Z.of_nat
            (List.length (filter (fun w => contains w basename) (split query))))).
  { change 0 with (inject_Z 0). rewrite <- Zle_Qle. lia. }
  lra.
Qed.

End ScoreFacts.

(** ** The ranked list: the scored entries, sorted *)

Section SortFacts.

Local Open Scope Q_scope.

Lemma insert_by_score_perm (x : File * Q) (l : list (File * Q)) :
  Permutation (insert_by_score x l) (x :: l).
Proof.
  induction l as [|y l IH]; simpl; [apply Permutation_refl |].
  destruct (Qlt_bool (snd x) (snd y)); [| apply Permutation_refl].
  eapply Permutation_trans; [apply perm_skip, IH | apply perm_swap].
Qed.

Lemma sorted_by_score_perm (l : list (File * Q)) :
  Permutation (sorted_by_score l) l.
Proof.
  induction l as [|x l IH]; simpl; [constructor |].
  eapply Permutation_trans; [apply insert_by_score_perm |].
  now apply perm_skip.
Qed.

Lemma insert_by_score_sorted (x : File * Q) (l : list (File * Q)) :
  StronglySorted score_ge l -> StronglySorted score_ge (insert_by_score x l).
Proof.
  induction l as [|y l IH]; intros Hs; simpl.
  - repeat constructor.
  - apply StronglySorted_inv in Hs. destruct Hs as [Hl Hy].
    destruct (Qlt_bool (snd x) (snd y)) eqn:E.
    + apply Qlt_bool_iff in E. constructor; [now apply IH |].
      apply Forall_forall. intros z Hz.
      apply (Permutation_in _ (insert_by_score_perm x l)) in Hz.
      destruct Hz as [<- | Hz].
      * unfold score_ge. now apply Qlt_le_weak.
      * rewrite Forall_forall in Hy. now apply Hy.
    + apply Qlt_bool_false_iff in E.
      constructor; [now constructor |].
      constructor; [exact E |].
      rewrite Forall_forall in Hy |- *. intros z Hz.
      unfold score_ge in *. eapply Qle_trans; [apply Hy, Hz | exact E].
Qed.

Lemma sorted_by_score_sorted (l : list (File * Q)) :
  StronglySorted score_ge (sorted_by_score l).
Proof.
  induction l as [|x l IH]; simpl; [constructor |].
  now apply insert_by_score_sorted.
Qed.

(** Insertion never moves an entry across another of equal score. *)
Lemma insert_by_score_stable (s : Q) (x : File * Q) (l : list (File * Q)) :
  with_score s (insert_by_score x l) = with_score s (x :: l).
Proof.
  unfold with_score. induction l as [|y l IH]; [reflexivity |].
  cbn [insert_by_score].
  destruct (Qlt_bool (snd x) (snd y)) eqn:E; [| reflexivity].
  apply Qlt_bool_iff in E.
  cbn [filter] in *. rewrite IH.
  destruct (Qeq_bool (snd x) s) eqn:Ex; [| reflexivity].
  destruct (Qeq_bool (snd y) s) eqn:Ey; [| reflexivity].
  apply Qeq_bool_iff in Ex, Ey. exfalso.
  rewrite Ex, Ey in E. now apply Qlt_irrefl in E.
Qed.

Lemma sorted_by_score_stable (s : Q) (l : list (File * Q)) :
  with_score s (sorted_by_score l) = with_score s l.
Proof.
  induction l as [|x l IH]; [reflexivity |].
  cbn [sorted_by_score fold_right].
  rewrite insert_by_score_stable. unfold with_score in *. cbn [filter].
  fold (sorted_by_score l). now rewrite IH.
Qed.

Lemma positive_entries_In (score : File -> Q) (files : list File)
  (f : File) (s : Q) :
  In (f, s) (positive_entries score files)
  <-> In f files /\ s = score f /\ 0 < s.
Proof.
  unfold positive_entries. rewrite filter_In, in_map_iff. cbn [snd].
  rewrite Qlt_bool_iff. split.
  - intros [(g & Hg & Hin) Hpos]. inversion Hg; subst. auto.
  - intros (Hin & -> & Hpos). split; [| assumption]. now exists f.
Qed.

Lemma scored_files_ok (prefs : Preferences) (now : Z) (query : string)
  (files : list File) :
  all_statable files ->
  scored_files prefs now query files
  = Ok (positive_entries (score_value prefs now query) files).
Proof.
  unfold positive_entries.
  induction files as [|f files IH]; intros Hst; [reflexivity |].
  cbn [scored_files map filter snd].
  destruct (Hst f (or_introl eq_refl)) as [st Hf].
  destruct (score_of_claimed prefs now query f st Hf) as (s & Hs & _).
  unfold score_value at 1 2. rewrite Hs. cbn [bind].
  rewrite IH by (intros g Hg; apply Hst; now right).
  cbn [bind]. destruct (Qlt_bool 0 s); reflexivity.
Qed.

Lemma _scored_files_eq (now : Z) (query : string) (files : list File) :
  _scored_files now query files
  = positive_entries (_score_of now query) files.
Proof.
  unfold positive_entries.
  induction files as [|f files IH]; [reflexivity |].
  cbn [_scored_files map filter snd]. rewrite IH.
  destruct (Qlt_bool 0 (_score_of now query f)); reflexivity.
Qed.

Lemma rank_search_results_ok (prefs : Preferences) (now : Z)
  (files : list File) (query : string) :
  all_statable files ->
  rank_search_results prefs now files query
  = Ok (sorted_by_score
          (positive_entries (score_value prefs now query) files)).
Proof.
  intros Hst. unfold rank_search_results.
  now rewrite scored_files_ok.
Qed.

End SortFacts.

Section RankFacts.

Local Open Scope Q_scope.

(** What a ranker built on a score function returns. *)
Lemma ranked_spec (score : File -> Q) (files : list File) :
  let kept := positive_entries score files in
  let ranked := sorted_by_score kept in
  Permutation ranked kept
  /\ (forall f s, In (f, s) ranked <-> In f files /\ s = score f /\ 0 < s)
  /\ StronglySorted score_ge ranked
  /\ (forall s, with_score s ranked = with_score s kept).
Proof.
  intros kept ranked.
  pose proof (sorted_by_score_perm kept) as Hperm. fold ranked in Hperm.
  split; [exact Hperm |]. split; [| split].
  - intros f s. rewrite <- positive_entries_In. fold kept. split; intros Hin.
    + now apply (Permutation_in _ Hperm).
    + now apply (Permutation_in _ (Permutation_sym Hperm)).
  - apply sorted_by_score_sorted.
  - intros s. apply sorted_by_score_stable.
Qed.

Lemma StronglySorted_nth_error {A : Type} (R : A -> A -> Prop) (l : list A) :
  StronglySorted R l ->
  forall i j x y,
    (i < j)%nat -> nth_error l i = Some x -> nth_error l j = Some y -> R x y.
Proof.
  induction 1 as [|a l Hs IH Ha]; intros i j x y Hij Hi Hj.
  - destruct i; discriminate.
  - destruct j as [|j]; [lia |]. cbn [nth_error] in Hj.
    destruct i as [|i]; cbn [nth_error] in Hi.
    + inversion Hi; subst. rewrite Forall_forall in Ha.
      apply Ha. eapply nth_error_In; eauto.
    + apply (IH i j); auto. lia.
Qed.

(** In a ranked list a file of greater score stands before one of
    smaller positive score. *)
Lemma ranked_above (score : File -> Q) (files : list File) (f g : File) :
  In f files -> In g files -> 0 < score g -> score g < score f ->
  let ranked := sorted_by_score (positive_entries score files) in
  In (f, score f) ranked /\ In (g, score g) ranked
  /\ forall i j s t,
       nth_error ranked i = Some (f, s) ->
       nth_error ranked j = Some (g, t) -> (i < j)%nat.
Proof.
  intros Hf Hg Hpos Hlt ranked.
  destruct (ranked_spec score files) as (_ & Hin & Hsorted & _).
  fold ranked in Hin, Hsorted.
  assert (Hposf : 0 < score f) by (eapply Qlt_trans; eauto).
  split; [apply Hin; now repeat split |].
  split; [apply Hin; now repeat split |].
  intros i j s t Hi Hj.
  assert (Hs : s = score f) by (apply nth_error_In, Hin in Hi; tauto).
  assert (Ht : t = score g) by (apply nth_error_In, Hin in Hj; tauto).
  subst s t.
  destruct (Nat.lt_trichotomy i j) as [Hij | [Hij | Hij]]; [assumption | |].
  - subst j. rewrite Hi in Hj. inversion Hj as [Hfg]. subst g.
    exfalso. now apply Qlt_irrefl in Hlt.
  - pose proof (StronglySorted_nth_error _ _ Hsorted j i _ _ Hij Hj Hi) as Hge.
    unfold score_ge in Hge. cbn [snd] in Hge.
    destruct (Qlt_not_le _ _ Hlt Hge).
Qed.

Lemma filter_all {A : Type} (p : A -> bool) (l : list A) :
  (forall x, In x l -> p x = true) -> filter p l = l.
Proof.
  induction l as [|x l IH]; intros H; [reflexivity |].
  cbn [filter]. rewrite (H x (or_introl eq_refl)).
  f_equal. apply IH. intros y Hy. apply H. now right.
Qed.

(** When the query occurs in the basename, every query word counts. *)
Lemma claimed_words_all (query basename : string) :
  contains query basename = true ->
  claimed_words query basename
  == 2 * inject_Z (Z.of_nat (List.length (split query))).
Proof.
  intros Hc. unfold claimed_words. rewrite filter_all; [reflexivity |].
  intros w Hw. eapply contains_trans; [| exact Hc].
  now apply split_contained.
Qed.

Lemma claimed_preference_bounds (prefs : Preferences) (p : Path) :
  (forall c pref, prefs c = Some pref -> 0 <= confidence pref <= 1) ->
  0 <= claimed_preference prefs p <= 1.
Proof.
  intros Hc. unfold claimed_preference.
  destruct (prefs (categorize_file p)) as [pref |] eqn:E; [| lra].
  destruct (contains _ _); [eauto | lra].
Qed.

Lemma claimed_match_exact (query : string) : claimed_match query query = 10.
Proof. unfold claimed_match. now rewrite String.eqb_refl. Qed.

Lemma claimed_match_proper (query basename : string) :
  contains query basename = true -> basename <> query ->
  claimed_match query basename = 5.
Proof.
  intros Hc Hne. unfold claimed_match. rewrite Hc.
  destruct (String.eqb basename query) eqn:E; [| reflexivity].
  apply String.eqb_eq in E. contradiction.
Qed.

Lemma score_value_claimed (prefs : Preferences) (now : Z) (query : string)
  (f : File) (st : Stat) :
  stat f = Ok st ->
  score_value prefs now query f
  == claimed_score prefs now query (path f) st.
Proof.
  intros Hst. unfold score_value.
  destruct (score_of_claimed prefs now query f st Hst) as (s & -> & Hs).
  exact Hs.
Qed.

(** The web service score without a readable [stat()]: no recency. *)
Lemma _score_of_unreadable (now : Z) (query : string) (f : File) (e : exn) :
  stat f = Raise e ->
  _score_of now query f
  == claimed_match query (lower (name (path f)))
     + claimed_words query (lower (name (path f))).
Proof.
  intros Hst. unfold _score_of. rewrite Hst.
  rewrite word_bonus_claimed, match_bonus_claimed. lra.
Qed.

End RankFacts.

Lemma sample_files_statable : all_statable sample_files.
Proof. intros f [<- | [<- | [<- | []]]]; eexists; reflexivity. Defined.

Lemma sample_prefs_bounds :
  forall c pref, sample_prefs c = Some pref -> (0 <= confidence pref <= 1)%Q.
Proof.
  intros c pref H. destruct c; try discriminate H.
  inversion H; subst. split; discriminate.
Defined.

Lemma sample_prefs_nonneg :
  forall c pref, sample_prefs c = Some pref -> (0 <= confidence pref)%Q.
Proof. intros c pref H. now apply (sample_prefs_bounds c pref H). Defined.

(** ** Facts about the merge of the strategies' results *)

Section MergeFacts.

Lemma unique_from_In (l : list File) :
  forall seen f,
    In f (unique_from seen l) -> In f l /\ ~ In (path f) seen.
Proof.
  induction l as [|x l IH]; intros seen f Hf; [destruct Hf |].
  cbn [unique_from] in Hf.
  destruct (in_dec Path_eq_dec (path x) seen) as [Hx | Hx].
  - apply IH in Hf. destruct Hf; split; [now right | assumption].
  - destruct Hf as [<- | Hf]; [split; [now left | assumption] |].
    apply IH in Hf. destruct Hf as [Hin Hns]. split; [now right |].
    intros Hs. apply Hns. now right.
Qed.

Lemma unique_from_paths (l : list File) :
  forall seen p,
    In p (map path (unique_from seen l))
    <-> In p (map path l) /\ ~ In p seen.
Proof.
  induction l as [|x l IH]; intros seen p; cbn [unique_from map].
  - simpl. tauto.
  - destruct (in_dec Path_eq_dec (path x) seen) as [Hx | Hx].
    + rewrite IH. simpl. split.
      * intros [H1 H2]. auto.
      * intros [[He | H1] H2]; [subst; contradiction | auto].
    + cbn [map In]. rewrite IH. cbn [In]. split.
      * intros [He | [H1 H2]]; [subst; auto |]. split; [auto |].
        intros Hs. apply H2. now right.
      * intros [[He | H1] H2]; [now left |].
        destruct (Path_eq_dec (path x) p) as [E | E]; [now left |].
        right. split; [assumption |]. intros [Hs | Hs]; contradiction.
Qed.

Lemma unique_from_NoDup (l : list File) :
  forall seen, NoDup (map path (unique_from seen l)).
Proof.
  induction l as [|x l IH]; intros seen; cbn [unique_from].
  - constructor.
  - destruct (in_dec Path_eq_dec (path x) seen) as [Hx | Hx]; [apply IH |].
    cbn [map]. constructor; [| apply IH].
    rewrite unique_from_paths. intros [_ Hn]. apply Hn. now left.
Qed.

Lemma StronglySorted_impl_In {A : Type} (R R' : A -> A -> Prop) (l : list A) :
  (forall a b, In a l -> In b l -> R a b -> R' a b) ->
  StronglySorted R l -> StronglySorted R' l.
Proof.
  intros Himp Hs. induction Hs as [|a l Hs IH Ha]; constructor.
  - apply IH. intros x y Hx Hy. apply Himp; now right.
  - rewrite Forall_forall in Ha |- *. intros y Hy.
    apply Himp; [now left | now right | now apply Ha].
Qed.

Lemma first_index_cons_ne (x : File) (l : list File) (p : Path) :
  path x <> p -> first_index p (x :: l) = S (first_index p l).
Proof.
  intros Hne. cbn [first_index].
  destruct (Path_eq_dec (path x) p); [contradiction | reflexivity].
Qed.

Lemma first_index_cons_eq (x : File) (l : list File) :
  first_index (path x) (x :: l) = 0%nat.
Proof.
  cbn [first_index].
  destruct (Path_eq_dec (path x) (path x)); [reflexivity | contradiction].
Qed.

(** The merged list follows the order of first discovery. *)
Lemma unique_from_order (l : list File) :
  forall seen, StronglySorted (seen_before l) (unique_from seen l).
Proof.
  induction l as [|x l IH]; intros seen; cbn [unique_from]; [constructor |].
  assert (Hlift : forall seen',
             In (path x) seen' ->
             StronglySorted (seen_before (x :: l)) (unique_from seen' l)).
  { intros seen' Hx. apply (StronglySorted_impl_In (seen_before l)); [| apply IH].
    intros a b Ha Hb Hab. unfold seen_before in *.
    apply unique_from_In in Ha, Hb.
    rewrite !first_index_cons_ne; [lia | |]; intros E.
    - apply (proj2 Hb). now rewrite <- E.
    - apply (proj2 Ha). now rewrite <- E. }
  destruct (in_dec Path_eq_dec (path x) seen) as [Hx | Hx]; [now apply Hlift |].
  constructor; [apply Hlift; now left |].
  apply Forall_forall. intros y Hy. apply unique_from_In in Hy.
  unfold seen_before. rewrite first_index_cons_eq, first_index_cons_ne; [lia |].
  intros E. apply (proj2 Hy). now left.
Qed.

(** Each entry kept by the merge is the first one found at its path. *)
Lemma unique_from_first (l : list File) :
  forall seen f,
    In f (unique_from seen l) ->
    nth_error l (first_index (path f) l) = Some f.
Proof.
  induction l as [|x l IH]; intros seen f Hf; [destruct Hf |].
  cbn [unique_from] in Hf.
  destruct (in_dec Path_eq_dec (path x) seen) as [Hx | Hx].
  - pose proof (unique_from_In _ _ _ Hf) as [_ Hns].
    rewrite first_index_cons_ne by (intros E; apply Hns; now rewrite <- E).
    cbn [nth_error]. now apply (IH seen).
  - destruct Hf as [<- | Hf].
    + now rewrite first_index_cons_eq.
    + pose proof (unique_from_In _ _ _ Hf) as [_ Hns].
      rewrite first_index_cons_ne by (intros E; apply Hns; now left).
      cbn [nth_error]. now apply (IH (path x :: seen)).
Qed.

Lemma NoDup_map_filter {A B : Type} (g : A -> B) (p : A -> bool)
  (l : list A) :
  NoDup (map g l) -> NoDup (map g (filter p l)).
Proof.
  induction l as [|x l IH]; intros Hnd; [constructor |].
  cbn [map] in Hnd. inversion Hnd as [|? ? Hx Hl]; subst.
  cbn [filter]. destruct (p x); [| now apply IH].
  cbn [map]. constructor; [| now apply IH].
  intros Hin. apply Hx. apply in_map_iff in Hin.
  destruct Hin as (y & Hy & Hyin). apply filter_In in Hyin.
  apply in_map_iff. exists y. tauto.
Qed.

Lemma scored_files_In (prefs : Preferences) (now : Z) (query : string)
  (files : list File) :
  forall scored f s,
    scored_files prefs now query files = Ok scored ->
    In (f, s) scored -> In f files.
Proof.
  induction files as [|x files IH]; intros scored f s Hs Hin.
  - inversion Hs; subst. destruct Hin.
  - cbn [scored_files] in Hs.
    destruct (score_of prefs now query x) as [sx |]; [| discriminate].
    cbn [bind] in Hs.
    destruct (scored_files prefs now query files) as [tail |]; [| discriminate].
    cbn [bind] in Hs. inversion Hs; subst; clear Hs.
    destruct (Qlt_bool 0 sx).
    + destruct Hin as [E | Hin]; [inversion E; now left |].
      right. now apply (IH tail f s).
    + right. now apply (IH tail f s).
Qed.

Lemma scored_files_NoDup (prefs : Preferences) (now : Z) (query : string)
  (files : list File) :
  forall scored,
    NoDup (map path files) ->
    scored_files prefs now query files = Ok scored ->
    NoDup (ranked_paths scored).
Proof.
  induction files as [|x files IH]; intros scored Hnd Hs.
  - inversion Hs; subst. constructor.
  - cbn [scored_files] in Hs. cbn [map] in Hnd.
    inversion Hnd as [|? ? Hx Hl]; subst.
    destruct (score_of prefs now query x) as [sx |]; [| discriminate].
    cbn [bind] in Hs.
    destruct (scored_files prefs now query files) as [tail |] eqn:Et;
      [| discriminate].
    cbn [bind] in Hs. inversion Hs; subst; clear Hs.
    specialize (IH tail Hl eq_refl).
    destruct (Qlt_bool 0 sx); [| assumption].
    unfold ranked_paths in *. cbn [map fst]. constructor; [| assumption].
    intros Hin. apply Hx. apply in_map_iff in Hin.
    destruct Hin as ([y sy] & Hy & Hyin). cbn [fst] in Hy.
    apply in_map_iff. exists y. split; [assumption |].
    eapply scored_files_In; eauto.
Qed.

Lemma sorted_by_score_NoDup (l : list (File * Q)) :
  NoDup (ranked_paths l) -> NoDup (ranked_paths (sorted_by_score l)).
Proof.
  intros Hnd. unfold ranked_paths in *.
  eapply Permutation_NoDup; [| exact Hnd].
  apply Permutation_map, Permutation_sym, sorted_by_score_perm.
Qed.

Lemma rank_search_results_NoDup (prefs : Preferences) (now : Z)
  (files : list File) (query : string) (ranked : list (File * Q)) :
  NoDup (map path files) ->
  rank_search_results prefs now files query = Ok ranked ->
  NoDup (ranked_paths ranked).
Proof.
  intros Hnd Hr. unfold rank_search_results in Hr.
  destruct (scored_files prefs now query files) as [scored |] eqn:Es;
    [| discriminate].
  cbn [bind] in Hr. inversion Hr; subst.
  apply sorted_by_score_NoDup. eapply scored_files_NoDup; eauto.
Qed.

Lemma _rank_search_results_NoDup (now : Z) (files : list File)
  (query : string) :
  NoDup (map path files) ->
  NoDup (ranked_paths (_rank_search_results now files query)).
Proof.
  intros Hnd. unfold _rank_search_results.
  apply sorted_by_score_NoDup. rewrite _scored_files_eq.
  unfold ranked_paths, positive_entries.
  apply (NoDup_map_filter (fun x : File * Q => path (fst x))).
  rewrite map_map. cbn [fst]. exact Hnd.
Qed.

Lemma firstn_incl {A : Type} (n : nat) (l : list A) (x : A) :
  In x (firstn n l) -> In x l.
Proof.
  revert n. induction l as [|y l IH]; intros [|n] Hin; cbn [firstn] in Hin;
    try destruct Hin as [<- | Hin]; try (now left); try contradiction.
  right. now apply (IH n).
Qed.

Lemma NoDup_firstn {A : Type} (n : nat) (l : list A) :
  NoDup l -> NoDup (firstn n l).
Proof.
  revert n. induction l as [|x l IH]; intros [|n] Hnd; cbn [firstn];
    try constructor.
  - inversion Hnd; subst. intros Hin. apply firstn_incl in Hin. contradiction.
  - inversion Hnd; subst. now apply IH.
Qed.

End MergeFacts.

(** The ranked list of the command line search never repeats a path. *)
Lemma smart_file_search_NoDup (prefs : Preferences) (now : Z)
  (search_dirs : list Dir) (query : string) (ranked : list (File * Q)) :
  smart_file_search prefs now search_dirs query = Ok ranked ->
  NoDup (ranked_paths ranked).
Proof.
  unfold smart_file_search. intros Hr.
  destruct (found_files now (lower query) search_dirs) as [found |];
    [| discriminate].
  cbn [bind] in Hr. eapply rank_search_results_NoDup; eauto.
  apply unique_from_NoDup.
Qed.

(** ** Facts about the walk over the search directories *)

Section ScanFacts.

Lemma select_ok (keep : File -> result bool) (p : File -> bool)
  (files : list File) :
  (forall f, In f files -> keep f = Ok (p f)) ->
  forall results, select keep files results = Ok (results ++ filter p files).
Proof.
  induction files as [|f files IH]; intros Hk results; cbn [select filter].
  - now rewrite app_nil_r.
  - rewrite (Hk f (or_introl eq_refl)). cbn [bind].
    destruct (p f); rewrite IH by (intros g Hg; apply Hk; now right).
    + now rewrite <- app_assoc.
    + reflexivity.
Qed.

Lemma scan_ok (keep : File -> result bool) (p : File -> bool)
  (search_dirs : list Dir) :
  (forall f, In f (walk search_dirs) -> keep f = Ok (p f)) ->
  forall results,
    scan keep search_dirs results = Ok (results ++ filter p (walk search_dirs)).
Proof.
  induction search_dirs as [|d ds IH]; intros Hk results; cbn [scan walk flat_map].
  - now rewrite app_nil_r.
  - fold (walk ds). cbn [walk flat_map] in Hk. fold (walk ds) in Hk.
    destruct (dir_exists d).
    + rewrite (select_ok keep p) by (intros f Hf; apply Hk, in_or_app; now left).
      cbn [bind]. rewrite IH by (intros f Hf; apply Hk, in_or_app; now right).
      now rewrite filter_app, app_assoc.
    + cbn [app] in *. now apply IH.
Qed.

(** The first file whose test raises makes the whole loop raise. *)
Lemma select_raise (keep : File -> result bool) (e : exn)
  (before : list File) (f : File) (after : list File) :
  (forall g, In g before -> exists b, keep g = Ok b) ->
  keep f = Raise e ->
  forall results, select keep (before ++ f :: after) results = Raise e.
Proof.
  induction before as [|g before IH]; intros Hb Hf results; cbn [app select].
  - now rewrite Hf.
  - destruct (Hb g (or_introl eq_refl)) as [b ->]. cbn [bind].
    destruct b; apply IH; auto; intros h Hh; apply Hb; now right.
Qed.

Variable search_dirs : list Dir.
Hypothesis Hstat : statable search_dirs.

Lemma filename_hit_ok (query : string) (f : File) :
  In f (walk search_dirs) ->
  filename_hit query f
  = Ok (nonempty_file f && contains query (lower (name (path f)))).
Proof.
  intros Hin. unfold filename_hit, nonempty_file, size_of.
  destruct (is_file f) eqn:Ef; [| reflexivity].
  destruct (Hstat f Hin Ef) as [st ->]. reflexivity.
Qed.

Lemma type_hit_ok (extensions : list string) (f : File) :
  In f (walk search_dirs) ->
  type_hit extensions f = Ok (nonempty_file f && extension_in extensions f).
Proof.
  intros Hin. unfold type_hit, nonempty_file, extension_in, size_of.
  destruct (is_file f) eqn:Ef; [| reflexivity].
  destruct (Hstat f Hin Ef) as [st ->]. cbn [andb bind].
  destruct (in_list _ _); [now rewrite andb_true_r | now rewrite andb_false_r].
Qed.

Lemma recent_hit_ok (now : Z) (f : File) :
  In f (walk search_dirs) ->
  recent_hit now f = Ok (nonempty_file f && (now - 7 * day <? mtime_of f)%Z).
Proof.
  intros Hin. unfold recent_hit, nonempty_file, size_of, mtime_of.
  destruct (is_file f) eqn:Ef; [| reflexivity].
  destruct (Hstat f Hin Ef) as [st ->]. cbn [andb bind].
  destruct (0 <? st_size st)%Z; reflexivity.
Qed.

Lemma old_hit_ok (now : Z) (f : File) :
  In f (walk search_dirs) ->
  old_hit now f = Ok (nonempty_file f && (mtime_of f <? now - 90 * day)%Z).
Proof.
  intros Hin. unfold old_hit, nonempty_file, size_of, mtime_of.
  destruct (is_file f) eqn:Ef; [| reflexivity].
  destruct (Hstat f Hin Ef) as [st ->]. cbn [andb bind].
  destruct (0 <? st_size st)%Z; reflexivity.
Qed.

Lemma large_hit_ok (f : File) :
  In f (walk search_dirs) ->
  large_hit f = Ok (is_file f && (10 * 1024 * 1024 <? size_of f)%Z).
Proof.
  intros Hin. unfold large_hit, size_of.
  destruct (is_file f) eqn:Ef; [| reflexivity].
  destruct (Hstat f Hin Ef) as [st ->]. reflexivity.
Qed.

Lemma small_hit_ok (f : File) :
  In f (walk search_dirs) ->
  small_hit f
  = Ok (nonempty_file f && (size_of f <? 100 * 1024)%Z).
Proof.
  intros Hin. unfold small_hit, nonempty_file, size_of.
  destruct (is_file f) eqn:Ef; [| reflexivity].
  destruct (Hstat f Hin Ef) as [st ->]. reflexivity.
Qed.

End ScanFacts.

Lemma sample_dir_statable : statable [sample_dir].
Proof.
  intros f Hf _. cbn in Hf.
  repeat (destruct Hf as [<- | Hf]; [eexists; reflexivity |]).
  destruct Hf.
Defined.

(** ** Facts about the content search and its log of opened files *)

Section ContentFacts.

Variable query : string.

Lemma openable_stat (f : File) (st : Stat) :
  stat f = Ok st ->
  openable f
  = (is_file f && in_list (lower (suffix (path f))) text_extensions)
    && ((0 <? st_size st)%Z && (st_size st <? 1024 * 1024)%Z).
Proof.
  intros Hst. unfold openable, extension_in, size_of. rewrite Hst.
  now rewrite <- !andb_assoc.
Qed.

Lemma openable_text_file (f : File) :
  is_file f && in_list (lower (suffix (path f))) text_extensions = false ->
  openable f = false.
Proof.
  intros H. unfold openable, extension_in. now rewrite H.
Qed.

Lemma content_select_ok (files : list File) :
  (forall f, In f files -> is_file f = true -> exists st, stat f = Ok st) ->
  forall opened results,
    content_select query files opened results
    = (opened ++ map path (filter openable files),
       Ok (results
           ++ filter (fun f => openable f && content_has query f) files)).
Proof.
  induction files as [|f files IH]; intros Hst opened results.
  - cbn [content_select filter map]. now rewrite !app_nil_r.
  - assert (Hrest : forall g, In g files -> is_file g = true ->
                               exists st, stat g = Ok st)
      by (intros g Hg; apply Hst; now right).
    specialize (IH Hrest).
    cbn [content_select filter].
    destruct (is_file f && in_list (lower (suffix (path f))) text_extensions)
      eqn:E1.
    + apply andb_true_iff in E1. destruct E1 as [Ef Eext].
      destruct (Hst f (or_introl eq_refl) Ef) as [st Hs].
      rewrite Hs, (openable_stat f st Hs), Ef, Eext. cbn [andb].
      destruct ((0 <? st_size st)%Z && (st_size st <? 1024 * 1024)%Z);
        [| apply IH].
      cbn [map andb]. unfold content_has at 1.
      destruct (content f) as [text |].
      * destruct (contains query (lower text)); rewrite IH;
          now rewrite <- !app_assoc.
      * rewrite IH. now rewrite <- !app_assoc.
    + rewrite (openable_text_file f E1). cbn [andb]. apply IH.
Qed.

Lemma content_scan_ok (search_dirs : list Dir) :
  statable search_dirs ->
  forall opened results,
    content_scan query search_dirs opened results
    = (opened ++ map path (filter openable (walk search_dirs)),
       Ok (results
           ++ filter (fun f => openable f && content_has query f)
                (walk search_dirs))).
Proof.
  induction search_dirs as [|d ds IH]; intros Hst opened results.
  - cbn. now rewrite !app_nil_r.
  - cbn [content_scan walk flat_map]. fold (walk ds).
    unfold statable in Hst. cbn [walk flat_map] in Hst. fold (walk ds) in Hst.
    assert (Hds : statable ds).
    { intros f Hf. apply Hst, in_or_app. now right. }
    destruct (dir_exists d).
    + rewrite content_select_ok
        by (intros f Hf; apply Hst, in_or_app; now left).
      rewrite (IH Hds). rewrite !filter_app, map_app, !app_assoc. reflexivity.
    + cbn [app]. now apply IH.
Qed.

(** Whatever happens, only openable files are opened. *)
Lemma content_select_opened (files : list File) :
  forall opened results p,
    In p (fst (content_select query files opened results)) ->
    In p opened
    \/ exists f, In f files /\ path f = p /\ openable f = true.
Proof.
  induction files as [|f files IH]; intros opened results p Hp.
  - now left.
  - assert (Hskip : forall results',
               In p (fst (content_select query files opened results')) ->
               In p opened
               \/ exists g, In g (f :: files) /\ path g = p
                            /\ openable g = true).
    { intros results' H. apply IH in H. destruct H as [H | (g & Hg & H)].
      - now left.
      - right. exists g. split; [now right | exact H]. }
    cbn [content_select] in Hp.
    destruct (is_file f && in_list (lower (suffix (path f))) text_extensions)
      eqn:E1; [| now apply (Hskip results)].
    destruct (stat f) as [st | e] eqn:Est; [| now left].
    destruct ((0 <? st_size st)%Z && (st_size st <? 1024 * 1024)%Z) eqn:E2;
      [| now apply (Hskip results)].
    assert (Hopen : openable f = true).
    { rewrite (openable_stat f st Est), E1, E2. reflexivity. }
    assert (Hkeep : forall results',
               In p (fst (content_select query files
                            (opened ++ [path f]) results')) ->
               In p opened
               \/ exists g, In g (f :: files) /\ path g = p
                            /\ openable g = true).
    { intros results' H. apply IH in H. destruct H as [H | (g & Hg & H)].
      - apply in_app_or in H. destruct H as [H | [<- | []]]; [now left |].
        right. exists f. split; [now left | auto].
      - right. exists g. split; [now right | exact H]. }
    destruct (content f) as [text |]; [| now apply (Hkeep results)].
    destruct (contains query (lower text)); eapply Hkeep; eauto.
Qed.

Lemma content_scan_opened (search_dirs : list Dir) :
  forall opened results p,
    In p (fst (content_scan query search_dirs opened results)) ->
    In p opened
    \/ exists f, In f (walk search_dirs) /\ path f = p /\ openable f = true.
Proof.
  induction search_dirs as [|d ds IH]; intros opened results p Hp.
  - now left.
  - cbn [content_scan] in Hp. cbn [walk flat_map]. fold (walk ds).
    destruct (dir_exists d).
    + destruct (content_select query (rglob d) opened results)
        as [opened' [results' | e]] eqn:Es.
      * apply IH in Hp. destruct Hp as [Hp | (f & Hf & H)].
        -- pose proof (content_select_opened (rglob d) opened results p) as H.
           rewrite Es in H. destruct (H Hp) as [H' | (f & Hf & H')].
           ++ now left.
           ++ right. exists f. split; [apply in_or_app; now left | exact H'].
        -- right. exists f. split; [apply in_or_app; now right | exact H].
      * pose proof (content_select_opened (rglob d) opened results p) as H.
        rewrite Es in H. destruct (H Hp) as [H' | (f & Hf & H')].
        -- now left.
        -- right. exists f. split; [apply in_or_app; now left | exact H'].
    + cbn [app]. now apply (IH opened results).
Qed.

End ContentFacts.

(** ** What each strategy returns when [stat()] answers *)

Section StrategyFacts.

Variable search_dirs : list Dir.
Hypothesis Hstat : statable search_dirs.

Lemma search_by_filename_ok (query : string) :
  search_by_filename query search_dirs
  = Ok (filter
          (fun f => nonempty_file f && contains query (lower (name (path f))))
          (walk search_dirs)).
Proof.
  unfold search_by_filename.
  rewrite (scan_ok _ _ _ (filename_hit_ok search_dirs Hstat query)).
  reflexivity.
Qed.

Lemma search_by_content_keywords_ok (query : string) :
  search_by_content_keywords query search_dirs
  = Ok (filter (fun f => openable f && content_has query f)
          (walk search_dirs)).
Proof.
  unfold search_by_content_keywords. now rewrite content_scan_ok.
Qed.

Lemma target_category_first (table : list (string * Category))
  (query : string) :
  forall before keyword category after,
    table = before ++ (keyword, category) :: after ->
    (forall kv, In kv before -> contains (fst kv) query = false) ->
    contains keyword query = true ->
    target_category_in table query = Some category.
Proof.
  intros before. revert table.
  induction before as [|[k c] before IH];
    intros table keyword category after -> Hb Hk; cbn [app target_category_in].
  - now rewrite Hk.
  - pose proof (Hb (k, c) (or_introl eq_refl)) as Hkc. cbn [fst] in Hkc.
    rewrite Hkc.
    apply (IH _ keyword category after eq_refl); auto.
    intros kv Hkv. apply Hb. now right.
Qed.

Lemma search_by_file_type_ok (query : string) (category : Category) :
  target_category query = Some category ->
  search_by_file_type query search_dirs
  = Ok (filter
          (fun f => nonempty_file f
                    && extension_in (extensions_of category) f)
          (walk search_dirs)).
Proof.
  intros Ht. unfold search_by_file_type. rewrite Ht.
  rewrite (scan_ok _ _ _ (type_hit_ok search_dirs Hstat _)).
  reflexivity.
Qed.

Lemma search_by_date_context_recent (now : Z) (query : string) :
  any_in recent_words query = true ->
  search_by_date_context now query search_dirs
  = Ok (filter
          (fun f => nonempty_file f && (now - 7 * day <? mtime_of f)%Z)
          (walk search_dirs)).
Proof.
  intros Hr. unfold search_by_date_context. rewrite Hr.
  rewrite (scan_ok _ _ _ (recent_hit_ok search_dirs Hstat now)).
  reflexivity.
Qed.

Lemma search_by_date_context_old (now : Z) (query : string) :
  any_in recent_words query = false ->
  any_in old_words query = true ->
  search_by_date_context now query search_dirs
  = Ok (filter
          (fun f => nonempty_file f && (mtime_of f <? now - 90 * day)%Z)
          (walk search_dirs)).
Proof.
  intros Hr Ho. unfold search_by_date_context. rewrite Hr, Ho.
  rewrite (scan_ok _ _ _ (old_hit_ok search_dirs Hstat now)).
  reflexivity.
Qed.

Lemma search_by_size_context_large (query : string) :
  any_in large_words query = true ->
  search_by_size_context query search_dirs
  = Ok (filter
          (fun f => is_file f && (10 * 1024 * 1024 <? size_of f)%Z)
          (walk search_dirs)).
Proof.
  intros Hl. unfold search_by_size_context. rewrite Hl.
  rewrite (scan_ok _ _ _ (large_hit_ok search_dirs Hstat)).
  reflexivity.
Qed.

Lemma search_by_size_context_small (query : string) :
  any_in large_words query = false ->
  any_in small_words query = true ->
  search_by_size_context query search_dirs
  = Ok (filter
          (fun f => nonempty_file f && (size_of f <? 100 * 1024)%Z)
          (walk search_dirs)).
Proof.
  intros Hl Hs. unfold search_by_size_context. rewrite Hl, Hs.
  rewrite (scan_ok _ _ _ (small_hit_ok search_dirs Hstat)).
  reflexivity.
Qed.

End StrategyFacts.

(** ** The empty query *)

Section EmptyQuery.

Local Open Scope Q_scope.

Lemma lower_empty (s : string) : lower s = ""%string -> s = ""%string.
Proof. destruct s; [reflexivity | discriminate]. Qed.

Lemma openable_nonempty (f : File) :
  openable f = true -> nonempty_file f = true.
Proof.
  unfold openable, nonempty_file. intros H.
  repeat (apply andb_true_iff in H; destruct H as [H ?]).
  apply andb_true_iff. split; assumption.
Qed.

Lemma claimed_preference_nonneg (prefs : Preferences) (p : Path) :
  (forall c pref, prefs c = Some pref -> 0 <= confidence pref) ->
  0 <= claimed_preference prefs p.
Proof.
  intros Hc. unfold claimed_preference.
  destruct (prefs (categorize_file p)) as [pref |] eqn:E; [| lra].
  destruct (contains _ _); [eauto | lra].
Qed.

Lemma empty_query_match (basename : string) :
  basename <> ""%string -> claimed_match "" basename = 5.
Proof.
  intros Hne. apply claimed_match_proper; [apply contains_empty | assumption].
Qed.

Lemma empty_query_match_ge (basename : string) :
  5 <= claimed_match "" basename.
Proof.
  unfold claimed_match. rewrite contains_empty.
  destruct (String.eqb basename ""); lra.
Qed.

Lemma empty_query_score (prefs : Preferences) (now : Z) (f : File)
  (st : Stat) :
  (forall c pref, prefs c = Some pref -> 0 <= confidence pref) ->
  stat f = Ok st ->
  5 <= score_value prefs now "" f.
Proof.
  intros Hc Hst. rewrite (score_value_claimed prefs now "" f st Hst).
  unfold claimed_score.
  pose proof (empty_query_match_ge (lower (name (path f)))).
  pose proof (claimed_words_nonneg "" (lower (name (path f)))).
  pose proof (claimed_recency_bounds now st).
  pose proof (claimed_preference_nonneg prefs (path f) Hc).
  lra.
Qed.

Variable search_dirs : list Dir.
Hypothesis Hstat : statable search_dirs.

Lemma search_by_filename_empty :
  search_by_filename "" search_dirs
  = Ok (filter nonempty_file (walk search_dirs)).
Proof.
  rewrite (search_by_filename_ok search_dirs Hstat).
  f_equal. apply filter_ext. intros f.
  now rewrite contains_empty, andb_true_r.
Qed.

Lemma found_files_empty (now : Z) :
  found_files now "" search_dirs
  = Ok (filter nonempty_file (walk search_dirs)
        ++ filter (fun f => openable f && content_has "" f) (walk search_dirs)
        ++ [] ++ [] ++ []).
Proof.
  unfold found_files.
  rewrite search_by_filename_empty. cbn [bind].
  rewrite (search_by_content_keywords_ok search_dirs Hstat). cbn [bind].
  reflexivity.
Qed.

Lemma found_files_empty_In (now : Z) (found : list File) (f : File) :
  found_files now "" search_dirs = Ok found ->
  In f found <-> In f (walk search_dirs) /\ nonempty_file f = true.
Proof.
  rewrite found_files_empty. intros E. inversion E; subst; clear E.
  rewrite !app_nil_r, in_app_iff, !filter_In. split.
  - intros [H | [Hin Ho]]; [exact H |].
    apply andb_true_iff in Ho. split; [assumption |].
    now apply openable_nonempty.
  - intros H. now left.
Qed.

End EmptyQuery.

(** ** Facts about the analysis and the learned preferences *)

Section LearningFacts.

Lemma category_eqb_eq (a b : Category) : category_eqb a b = true <-> a = b.
Proof.
  unfold category_eqb. destruct (Category_eq_dec a b); split; congruence.
Qed.

Lemma category_eqb_refl (a : Category) : category_eqb a a = true.
Proof. now apply category_eqb_eq. Qed.

Lemma dd_get_update {V : Type} (default : V) (g : V -> V)
  (d : DefaultDict V) (k k' : Category) :
  dd_get default (dd_update default g d k) k'
  = if category_eqb k k' then g (dd_get default d k) else dd_get default d k'.
Proof.
  induction d as [|[k0 v] d IH]; cbn [dd_update dd_get].
  - reflexivity.
  - unfold category_eqb in *.
    destruct (Category_eq_dec k0 k) as [-> | Hk0]; cbn [dd_get];
      unfold category_eqb.
    + destruct (Category_eq_dec k k'); reflexivity.
    + rewrite IH.
      destruct (Category_eq_dec k0 k') as [-> | Hk0'];
        destruct (Category_eq_dec k k') as [Hkk | Hkk];
        try reflexivity; congruence.
Qed.

Lemma dd_update_keys {V : Type} (default : V) (g : V -> V)
  (d : DefaultDict V) (k k' : Category) :
  In k' (map fst (dd_update default g d k)) <-> k' = k \/ In k' (map fst d).
Proof.
  induction d as [|[k0 v] d IH]; cbn [dd_update map fst In].
  - intuition.
  - unfold category_eqb. destruct (Category_eq_dec k0 k) as [-> | Hk0];
      cbn [map fst In].
    + intuition.
    + rewrite IH. intuition.
Qed.

Lemma dd_update_NoDup {V : Type} (default : V) (g : V -> V)
  (d : DefaultDict V) (k : Category) :
  NoDup (map fst d) -> NoDup (map fst (dd_update default g d k)).
Proof.
  induction d as [|[k0 v] d IH]; intros Hnd; cbn [dd_update map fst].
  - constructor; [intros [] | constructor].
  - cbn [map fst] in Hnd. inversion Hnd as [|? ? Hk0 Hd]; subst.
    unfold category_eqb. destruct (Category_eq_dec k0 k) as [-> | Hne];
      cbn [map fst].
    + now constructor.
    + constructor; [| now apply IH].
      rewrite dd_update_keys. intros [E | Hin]; [congruence | contradiction].
Qed.

Lemma dd_get_absent {V : Type} (default : V) (d : DefaultDict V)
  (k : Category) :
  ~ In k (map fst d) -> dd_get default d k = default.
Proof.
  induction d as [|[k0 v] d IH]; intros Hk; cbn [dd_get]; [reflexivity |].
  cbn [map fst In] in Hk. unfold category_eqb.
  destruct (Category_eq_dec k0 k) as [-> | Hne]; [tauto |].
  apply IH. tauto.
Qed.

(** *** The locations the analysis collects *)

Lemma observe_locations (scan_dir : Dir) (acc : Analysis) (f : File)
  (c : Category) :
  dd_get [] (location_patterns (observe scan_dir acc f)) c
  = dd_get [] (location_patterns acc) c
    ++ (if observed c f then [name (dir_path scan_dir)] else []).
Proof.
  unfold observe, observed.
  destruct (is_file f); cbn [andb]; [| now rewrite app_nil_r].
  destruct (stat f) as [st | e]; cbn [andb]; [| now rewrite app_nil_r].
  destruct (st_size st =? 0)%Z; cbn [negb andb]; [now rewrite app_nil_r |].
  cbn [location_patterns]. rewrite dd_get_update.
  destruct (category_eqb (categorize_file (path f)) c) eqn:E;
    [| now rewrite app_nil_r].
  apply category_eqb_eq in E. now rewrite E.
Qed.

Lemma observe_NoDup (scan_dir : Dir) (acc : Analysis) (f : File) :
  NoDup (map fst (location_patterns acc)) ->
  NoDup (map fst (location_patterns (observe scan_dir acc f))).
Proof.
  intros Hnd. unfold observe.
  destruct (is_file f); [| assumption].
  destruct (stat f) as [st | e]; [| assumption].
  destruct (st_size st =? 0)%Z; [assumption |].
  cbn [location_patterns]. now apply dd_update_NoDup.
Qed.

Lemma observe_all_locations (scan_dir : Dir) (files : list File)
  (c : Category) :
  forall acc,
    dd_get [] (location_patterns (fold_left (observe scan_dir) files acc)) c
    = dd_get [] (location_patterns acc) c
      ++ map (fun _ => name (dir_path scan_dir)) (filter (observed c) files).
Proof.
  induction files as [|f files IH]; intros acc; cbn [fold_left filter].
  - now rewrite app_nil_r.
  - rewrite IH, observe_locations.
    destruct (observed c f); cbn [map]; now rewrite <- app_assoc.
Qed.

Lemma observe_all_NoDup (scan_dir : Dir) (files : list File) :
  forall acc,
    NoDup (map fst (location_patterns acc)) ->
    NoDup (map fst
             (location_patterns (fold_left (observe scan_dir) files acc))).
Proof.
  induction files as [|f files IH]; intros acc Hnd; cbn [fold_left];
    [assumption |].
  apply IH. now apply observe_NoDup.
Qed.

Lemma scan_dirs_locations (scan_dirs : list Dir) (c : Category) :
  forall acc,
    dd_get [] (location_patterns (fold_left scan_step scan_dirs acc)) c
    = dd_get [] (location_patterns acc) c ++ observed_roots c scan_dirs.
Proof.
  induction scan_dirs as [|d ds IH]; intros acc;
    cbn [fold_left observed_roots flat_map].
  - now rewrite app_nil_r.
  - rewrite IH. unfold scan_step. fold (observed_roots c ds).
    destruct (dir_exists d).
    + rewrite observe_all_locations. now rewrite <- app_assoc.
    + reflexivity.
Qed.

Lemma scan_dirs_NoDup (scan_dirs : list Dir) :
  forall acc,
    NoDup (map fst (location_patterns acc)) ->
    NoDup (map fst (location_patterns (fold_left scan_step scan_dirs acc))).
Proof.
  induction scan_dirs as [|d ds IH]; intros acc Hnd; cbn [fold_left];
    [assumption |].
  apply IH. unfold scan_step. destruct (dir_exists d); [| assumption].
  now apply observe_all_NoDup.
Qed.

Lemma scan_all_locations (scan_dirs : list Dir) (c : Category) :
  dd_get [] (location_patterns (scan_all scan_dirs)) c
  = observed_roots c scan_dirs.
Proof.
  unfold scan_all.
  now rewrite scan_dirs_locations.
Qed.

Lemma scan_all_NoDup (scan_dirs : list Dir) :
  NoDup (map fst (location_patterns (scan_all scan_dirs))).
Proof.
  unfold scan_all.
  apply scan_dirs_NoDup. constructor.
Qed.

End LearningFacts.

(** *** The counter and its most common element *)

Section CounterFacts.

Lemma counter_get_add (c : list (string * nat)) (k k' : string) :
  counter_get (counter_add c k) k'
  = (counter_get c k' + if String.eqb k k' then 1 else 0)%nat.
Proof.
  induction c as [|[k0 n] c IH]; cbn [counter_add counter_get].
  - destruct (String.eqb k k'); reflexivity.
  - destruct (String.eqb_spec k0 k) as [-> | Hne]; cbn [counter_get].
    + destruct (String.eqb k k'); lia.
    + rewrite IH. destruct (String.eqb_spec k0 k') as [-> | Hne'];
        [| reflexivity].
      destruct (String.eqb_spec k k'); [congruence | lia].
Qed.

Lemma counter_add_keys (c : list (string * nat)) (k k' : string) :
  In k' (map fst (counter_add c k)) <-> k' = k \/ In k' (map fst c).
Proof.
  induction c as [|[k0 n] c IH]; cbn [counter_add map fst In].
  - intuition.
  - destruct (String.eqb_spec k0 k) as [-> | Hne]; cbn [map fst In].
    + intuition.
    + rewrite IH. intuition.
Qed.

Lemma counter_add_NoDup (c : list (string * nat)) (k : string) :
  NoDup (map fst c) -> NoDup (map fst (counter_add c k)).
Proof.
  induction c as [|[k0 n] c IH]; intros Hnd; cbn [counter_add map fst].
  - constructor; [intros [] | constructor].
  - cbn [map fst] in Hnd. inversion Hnd as [|? ? Hk0 Hc]; subst.
    destruct (String.eqb_spec k0 k) as [-> | Hne]; cbn [map fst].
    + now constructor.
    + constructor; [| now apply IH].
      rewrite counter_add_keys. intros [E | Hin]; [congruence | contradiction].
Qed.

Lemma occurrences_cons (x : string) (l : list string) (k : string) :
  occurrences (x :: l) k
  = ((if String.eqb x k then 1 else 0) + occurrences l k)%nat.
Proof.
  unfold occurrences. cbn [count_occ].
  destruct (string_dec x k) as [-> | Hne].
  - now rewrite String.eqb_refl.
  - destruct (String.eqb_spec x k); [contradiction | reflexivity].
Qed.

Lemma counter_fold (l : list string) :
  forall c k,
    counter_get (fold_left counter_add l c) k
    = (counter_get c k + occurrences l k)%nat
    /\ (In k (map fst (fold_left counter_add l c))
        <-> In k (map fst c) \/ In k l)
    /\ (NoDup (map fst c) -> NoDup (map fst (fold_left counter_add l c))).
Proof.
  induction l as [|x l IH]; intros c k; cbn [fold_left].
  - unfold occurrences. cbn. split; [lia |]. split; [tauto | auto].
  - destruct (IH (counter_add c x) k) as (Hget & Hkeys & Hnd).
    split; [| split].
    + rewrite Hget, counter_get_add, occurrences_cons. lia.
    + rewrite Hkeys, counter_add_keys. cbn [In]. intuition.
    + intros H. now apply Hnd, counter_add_NoDup.
Qed.

Lemma counter_get_Counter (l : list string) (k : string) :
  counter_get (Counter l) k = occurrences l k.
Proof. unfold Counter. now rewrite (proj1 (counter_fold l [] k)). Qed.

Lemma Counter_keys (l : list string) (k : string) :
  In k (map fst (Counter l)) <-> In k l.
Proof.
  unfold Counter. rewrite (proj1 (proj2 (counter_fold l [] k))).
  cbn. tauto.
Qed.

Lemma Counter_NoDup (l : list string) : NoDup (map fst (Counter l)).
Proof.
  unfold Counter. apply (proj2 (proj2 (counter_fold l [] ""%string))).
  constructor.
Qed.

Lemma counter_In_get (c : list (string * nat)) (k : string) (n : nat) :
  NoDup (map fst c) -> In (k, n) c -> counter_get c k = n.
Proof.
  induction c as [|[k0 m] c IH]; intros Hnd Hin; [destruct Hin |].
  cbn [map fst] in Hnd. inversion Hnd as [|? ? Hk0 Hc]; subst.
  cbn [counter_get]. destruct Hin as [E | Hin].
  - inversion E; subst. now rewrite String.eqb_refl.
  - destruct (String.eqb_spec k0 k) as [-> | Hne]; [| now apply IH].
    exfalso. apply Hk0. apply in_map_iff. now exists (k, n).
Qed.

Lemma counter_get_In (c : list (string * nat)) (k : string) :
  In k (map fst c) -> In (k, counter_get c k) c.
Proof.
  induction c as [|[k0 m] c IH]; intros Hin; [destruct Hin |].
  cbn [counter_get]. destruct (String.eqb_spec k0 k) as [-> | Hne].
  - now left.
  - right. apply IH. destruct Hin as [E | Hin]; [contradiction | assumption].
Qed.

Lemma first_max_spec (items : list (string * nat)) :
  forall best,
    In (first_max best items) (best :: items)
    /\ forall kv, In kv (best :: items) ->
                  (snd kv <= snd (first_max best items))%nat.
Proof.
  induction items as [|kv items IH]; intros best; cbn [first_max].
  - split; [now left |]. intros kv [<- | []]. lia.
  - destruct (Nat.ltb_spec (snd best) (snd kv)) as [Hlt | Hge].
    + destruct (IH kv) as [Hin Hmax]. split.
      * destruct Hin as [E | Hin]; [right; now left | right; now right].
      * intros x [<- | [<- | Hx]].
        -- specialize (Hmax kv (or_introl eq_refl)). lia.
        -- apply Hmax. now left.
        -- apply Hmax. now right.
    + destruct (IH best) as [Hin Hmax]. split.
      * destruct Hin as [E | Hin]; [now left | right; now right].
      * intros x [<- | [<- | Hx]].
        -- apply Hmax. now left.
        -- specialize (Hmax best (or_introl eq_refl)). lia.
        -- apply Hmax. now right.
Qed.

(** The most common element of a non-empty list is one of its modes,
    with its number of occurrences. *)
Lemma most_common_1_spec (l : list string) :
  l <> [] ->
  exists x,
    most_common_1 (Counter l) = [(x, occurrences l x)] /\ is_mode x l.
Proof.
  intros Hne. destruct (Counter l) as [|kv rest] eqn:Ec.
  - destruct l as [|y l]; [contradiction |].
    assert (H : In y (map fst (Counter (y :: l))))
      by (apply Counter_keys; now left).
    rewrite Ec in H. destruct H.
  - cbn [most_common_1].
    destruct (first_max_spec rest kv) as [Hin Hmax].
    destruct (first_max kv rest) as [x n] eqn:Em.
    rewrite <- Ec in Hin, Hmax.
    assert (Hn : n = occurrences l x).
    { rewrite <- counter_get_Counter.
      symmetry. apply counter_In_get; [apply Counter_NoDup | assumption]. }
    assert (Hx : In x l).
    { apply Counter_keys. apply in_map_iff. now exists (x, n). }
    exists x. subst n. split; [reflexivity |]. split; [assumption |].
    intros y. destruct (in_dec string_dec y l) as [Hy | Hy].
    + apply Counter_keys, counter_get_In in Hy.
      rewrite counter_get_Counter in Hy.
      apply (Hmax _ Hy).
    + unfold occurrences at 1.
      rewrite (proj1 (count_occ_not_In string_dec l y) Hy). lia.
Qed.

Lemma Zpos_of_nat (n : nat) :
  n <> 0%nat -> Z.pos (Pos.of_nat n) = Z.of_nat n.
Proof.
  intros Hn. rewrite <- positive_nat_Z. now rewrite Nat2Pos.id.
Qed.

(** What is learned from a non-empty list of locations. *)
Lemma learned_describes (now : Z) (l : list string) :
  l <> [] ->
  exists pref,
    learned now l = Some pref
    /\ describes pref l
    /\ (0 < confidence pref <= 1)%Q
    /\ learned_on pref = now.
Proof.
  intros Hne. destruct (most_common_1_spec l Hne) as (x & Hmc & Hmode).
  exists (mkPreference x (Z.of_nat (occurrences l x)
                          # Pos.of_nat (List.length l)) now).
  split.
  - unfold learned. rewrite Hmc. destruct l; [contradiction | reflexivity].
  - cbn [preferred_location confidence learned_on].
    split; [split; [assumption | reflexivity] |].
    split; [| reflexivity].
    assert (Hlen : List.length l <> 0%nat)
      by (destruct l; [contradiction | discriminate]).
    assert (Hpos : (0 < occurrences l x)%nat)
      by (apply (count_occ_In string_dec), Hmode).
    assert (Hle : (occurrences l x <= List.length l)%nat)
      by apply count_occ_bound.
    unfold Qlt, Qle. cbn [Qnum Qden]. rewrite (Zpos_of_nat _ Hlen). lia.
Qed.

Lemma learn_one_learned (now : Z) (prefs : Preferences) (k : Category)
  (locations : list string) :
  learn_one now prefs (k, locations)
  = match learned now locations with
    | Some pref => set_preference prefs k pref
    | None => prefs
    end.
Proof.
  unfold learn_one, learned. destruct locations; [reflexivity |].
  destruct (most_common_1 _); reflexivity.
Qed.

Lemma learn_fold (now : Z) (items : DefaultDict (list string)) :
  NoDup (map fst items) ->
  forall prefs c,
    fold_left (learn_one now) items prefs c
    = match learned now (dd_get [] items c) with
      | Some pref => Some pref
      | None => prefs c
      end.
Proof.
  induction items as [|[k locations] items IH]; intros Hnd prefs c.
  - reflexivity.
  - cbn [map fst] in Hnd. inversion Hnd as [|? ? Hk Hitems]; subst.
    cbn [fold_left dd_get]. rewrite (IH Hitems), learn_one_learned.
    unfold category_eqb. destruct (Category_eq_dec k c) as [-> | Hne].
    + rewrite (dd_get_absent [] items c Hk). cbn [learned].
      destruct (learned now locations) as [pref |]; [| reflexivity].
      unfold set_preference. now rewrite category_eqb_refl.
    + destruct (learned now (dd_get [] items c)); [reflexivity |].
      destruct (learned now locations) as [pref |]; [| reflexivity].
      unfold set_preference, category_eqb.
      destruct (Category_eq_dec c k); [congruence | reflexivity].
Qed.

End CounterFacts.

(** ** Facts about auto-organization *)

Section OrganizeFacts.

Lemma nonempty_hit_Ok (f : File) (b : bool) :
  nonempty_hit f = Ok b -> b = nonempty_file f.
Proof.
  unfold nonempty_hit, nonempty_file, size_of.
  destruct (is_file f); [| intros E; now inversion E].
  destruct (stat f) as [st | e]; cbn [bind]; intros E; now inversion E.
Qed.

Lemma select_nonempty (files : list File) :
  forall results selected,
    select nonempty_hit files results = Ok selected ->
    selected = results ++ filter nonempty_file files.
Proof.
  induction files as [|f files IH]; intros results selected Hs;
    cbn [select filter] in *.
  - inversion Hs. now rewrite app_nil_r.
  - destruct (nonempty_hit f) as [b | e] eqn:Eh; [| discriminate].
    cbn [bind] in Hs. rewrite <- (nonempty_hit_Ok f b Eh).
    destruct b; apply IH in Hs; rewrite Hs; [| reflexivity].
    now rewrite <- app_assoc.
Qed.

Lemma parent_joinpath (p : Path) (seg : string) : parent (joinpath p seg) = p.
Proof. unfold parent, joinpath. apply removelast_last. Qed.

Lemma free_target_parent (fuel : nat) (existing : list Path)
  (target_dir : Path) (stem suffix : string) :
  forall counter target_path,
    parent target_path = target_dir ->
    parent (free_target fuel existing target_dir stem suffix counter
              target_path) = target_dir.
Proof.
  induction fuel as [|fuel IH]; intros counter target_path Hp;
    cbn [free_target]; [assumption |].
  destruct (in_dec Path_eq_dec target_path existing); [| assumption].
  apply IH. apply parent_joinpath.
Qed.

Lemma location_mapping_not_downloads (home : Path) (k : string)
  (target_dir : Path) :
  lookup k (location_mapping home) = Some target_dir ->
  target_dir <> joinpath home "Downloads".
Proof.
  unfold location_mapping. cbn [lookup]. unfold joinpath.
  repeat (destruct (String.eqb _ k);
          [intros E; inversion E; subst; intros H;
           apply app_inv_head in H; discriminate |]).
  discriminate.
Qed.

Variables (home : Path) (prefs : Preferences) (writable : Path -> bool).



End OrganizeFacts.

(** ** The collision loop ends on a free name *)

Section FreshTarget.

Local Open Scope string_scope.

Lemma length_append (a b : string) :
  String.length (a ++ b) = (String.length a + String.length b)%nat.
Proof. induction a as [|x a IH]; simpl; [reflexivity | now rewrite IH]. Qed.

Lemma append_inv_head (a b c : string) : a ++ b = a ++ c -> b = c.
Proof.
  induction a as [|x a IH]; simpl; intros H; [assumption |].
  apply IH. now inversion H.
Qed.

Lemma append_inv_tail (c : string) :
  forall a b, a ++ c = b ++ c -> a = b.
Proof.
  induction a as [|x a IH]; intros [|y b] H; simpl in H.
  - reflexivity.
  - apply (f_equal String.length) in H. simpl in H.
    rewrite length_append in H. lia.
  - apply (f_equal String.length) in H. simpl in H.
    rewrite length_append in H. lia.
  - inversion H; subst. f_equal. now apply IH.
Qed.

Lemma string_of_nat_inj (m n : nat) :
  string_of_nat m = string_of_nat n -> m = n.
Proof.
  unfold string_of_nat. intros H.
  apply Unsigned.to_uint_inj.
  apply (f_equal NilEmpty.uint_of_string) in H.
  rewrite !NilEmpty.usu in H. now inversion H.
Qed.

Lemma candidate_inj (target_dir : Path) (stem suffix : string) (m n : nat) :
  candidate target_dir stem suffix m = candidate target_dir stem suffix n ->
  m = n.
Proof.
  unfold candidate, joinpath. intros H.
  apply app_inv_head in H. inversion H as [E].
  apply append_inv_head in E. simpl in E. inversion E as [E'].
  apply append_inv_tail in E'. now apply string_of_nat_inj.
Qed.

(** If the loop ends on a taken name, every name it tried was taken. *)
Lemma free_target_taken (existing : list Path) (target_dir : Path)
  (stem suffix : string) (fuel : nat) :
  forall counter target_path,
    In (free_target fuel existing target_dir stem suffix counter target_path)
      existing ->
    forall k, (counter <= k < counter + fuel)%nat ->
              In (candidate target_dir stem suffix k) existing.
Proof.
  induction fuel as [|fuel IH]; intros counter target_path Hin k Hk;
    [lia |].
  cbn [free_target] in Hin.
  destruct (in_dec Path_eq_dec target_path existing) as [Ht | Ht];
    [| contradiction].
  destruct (Nat.eq_dec k counter) as [-> | Hne].
  - clear IH Hk. revert Hin. generalize (S counter).
    fold (candidate target_dir stem suffix counter).
    generalize (candidate target_dir stem suffix counter).
    clear Ht target_path.
    induction fuel as [|fuel IH]; intros p c Hin; cbn [free_target] in Hin;
      [assumption |].
    destruct (in_dec Path_eq_dec p existing); [assumption | contradiction].
  - apply (IH (S counter) _ Hin). lia.
Qed.

(** With [S (length existing)] rounds the loop finds a free name. *)
Lemma free_target_fresh (existing : list Path) (target_dir : Path)
  (stem suffix : string) (target_path : Path) :
  ~ In (free_target (S (List.length existing)) existing target_dir stem
          suffix 1 target_path) existing.
Proof.
  intros Hin.
  pose proof (free_target_taken existing target_dir stem suffix _ _ _ Hin)
    as Htaken.
  set (tried := map (candidate target_dir stem suffix)
                  (seq 1 (S (List.length existing)))).
  assert (Hnd : NoDup tried).
  { apply NoDup_map_NoDup_ForallPairs; [| apply seq_NoDup].
    intros m n _ _. apply candidate_inj. }
  assert (Hincl : incl tried existing).
  { intros p Hp. apply in_map_iff in Hp. destruct Hp as (k & <- & Hk).
    apply in_seq in Hk. apply Htaken. lia. }
  pose proof (NoDup_incl_length Hnd Hincl) as Hlen.
  unfold tried in Hlen. rewrite length_map, length_seq in Hlen. lia.
Qed.

End FreshTarget.

(** ** Claims about the relevance ranker *)

(** C1. For every candidate file (whose [stat()] answers) and every query
    the score computed by the command line ranker is the additive sum of
    the specification: the match bonus (10 for an exact lowercase
    basename, otherwise 5 for a substring), 2 for each white-space-split
    query word occurring in the basename, the recency bonus (1 within 7
    days, otherwise 0.5 within 30 days) and the learned confidence of the
    file's category when the preferred location's name occurs in the
    parent path string.  The web service ranker computes the same sum
    over the empty preference table (it has no preferences). *)
Theorem C1_score_is_additive_sum (prefs : Preferences) (now : Z)
  (query : string) (f : File) (st : Stat) :
  stat f = Ok st ->
  (exists score,
      score_of prefs now query f = Ok score
      /\ score == claimed_score prefs now query (path f) st)
  /\ _score_of now query f
     == claimed_score no_preferences now query (path f) st.
Proof.
  intros Hst. split.
  - now apply score_of_claimed.
  - now apply _score_of_claimed.
Qed.

Lemma C1_score_is_additive_sum_witness :
  (exists score,
      score_of sample_prefs sample_now "report.pdf" report_pdf = Ok score
      /\ score == claimed_score sample_prefs sample_now "report.pdf"
                    (path report_pdf) (mkStat 5000 (98 * day)))
  /\ _score_of sample_now "report.pdf" report_pdf
     == claimed_score no_preferences sample_now "report.pdf"
          (path report_pdf) (mkStat 5000 (98 * day)).
Proof.
  apply (C1_score_is_additive_sum sample_prefs sample_now "report.pdf"
           report_pdf (mkStat 5000 (98 * day))).
  reflexivity.
Defined.

(** C3. The ranked output holds exactly the input entries of strictly
    positive score (entries of score at most 0 are dropped), ordered by
    descending score, and entries of equal score keep the order they had
    in the input.  For the command line ranker this is its result
    whenever [stat()] answers for the candidates; the web service ranker
    always returns. *)
Theorem C3_ranked_output_filtered_and_ordered (prefs : Preferences)
  (now : Z) (files : list File) (query : string) :
  all_statable files ->
  (exists ranked,
      rank_search_results prefs now files query = Ok ranked
      /\ Permutation ranked
           (positive_entries (score_value prefs now query) files)
      /\ (forall f s,
             In (f, s) ranked
             <-> In f files /\ s = score_value prefs now query f /\ 0 < s)
      /\ StronglySorted score_ge ranked
      /\ (forall s,
             with_score s ranked
             = with_score s
                 (positive_entries (score_value prefs now query) files)))
  /\ (let ranked := _rank_search_results now files query in
      Permutation ranked (positive_entries (_score_of now query) files)
      /\ (forall f s,
             In (f, s) ranked
             <-> In f files /\ s = _score_of now query f /\ 0 < s)
      /\ StronglySorted score_ge ranked
      /\ (forall s,
             with_score s ranked
             = with_score s (positive_entries (_score_of now query) files))).
Proof.
  intros Hst. split.
  - eexists. split; [now apply rank_search_results_ok |].
    apply ranked_spec.
  - unfold _rank_search_results. rewrite _scored_files_eq.
    apply ranked_spec.
Qed.

Lemma C3_ranked_output_filtered_and_ordered_witness :
  all_statable sample_files
  /\ exists ranked,
       rank_search_results sample_prefs sample_now
         sample_files "report.pdf" = Ok ranked
       /\ StronglySorted score_ge ranked.
Proof.
  pose proof sample_files_statable as H.
  split; [exact H |].
  destruct (C3_ranked_output_filtered_and_ordered sample_prefs sample_now
              sample_files "report.pdf" H)
    as [(ranked & Hr & _ & _ & Hs & _) _].
  exists ranked. split; assumption.
Defined.

Section ExactMatch.

Local Open Scope Q_scope.

Variables (prefs : Preferences) (now : Z) (query : string).
Hypothesis confidence_bounds :
  forall c pref, prefs c = Some pref -> 0 <= confidence pref <= 1.

(** Score of a file whose lowercase basename is the query. *)
Lemma exact_match_score (p : Path) (st : Stat) :
  lower (name p) = query ->
  10 + claimed_words query query <= claimed_score prefs now query p st.
Proof.
  intros Hn. unfold claimed_score. rewrite Hn, claimed_match_exact.
  pose proof (claimed_recency_bounds now st).
  pose proof (claimed_preference_bounds prefs p confidence_bounds).
  lra.
Qed.

(** Score of a file whose lowercase basename properly contains the
    query. *)
Lemma proper_substring_score (p : Path) (st : Stat) :
  contains query (lower (name p)) = true -> lower (name p) <> query ->
  5 + claimed_words query query <= claimed_score prefs now query p st
  /\ claimed_score prefs now query p st <= 7 + claimed_words query query.
Proof.
  intros Hc Hne. unfold claimed_score.
  rewrite (claimed_match_proper _ _ Hc Hne).
  rewrite (claimed_words_all _ _ Hc).
  rewrite (claimed_words_all _ _ (contains_refl query)).
  pose proof (claimed_recency_bounds now st).
  pose proof (claimed_preference_bounds prefs p confidence_bounds).
  lra.
Qed.

End ExactMatch.

Lemma no_preferences_bounds :
  forall c pref, no_preferences c = Some pref -> (0 <= confidence pref <= 1)%Q.
Proof. intros c pref H. discriminate. Qed.

(** C2. When the query equals the lowercase basename of a candidate [f]
    and every learned confidence lies in [0,1], the score of [f] is at
    least 10 and [f] stands strictly before every candidate [g] whose
    lowercase basename contains the query as a proper substring: in the
    ranked list every position holding [f] is smaller than every
    position holding [g].  Both rankers; the candidates answer
    [stat()]. *)
Theorem C2_exact_match_outranks_substring (prefs : Preferences) (now : Z)
  (files : list File) (query : string) (f g : File) :
  (forall c pref, prefs c = Some pref -> 0 <= confidence pref <= 1) ->
  all_statable files ->
  In f files -> In g files ->
  lower (name (path f)) = query ->
  contains query (lower (name (path g))) = true ->
  lower (name (path g)) <> query ->
  (exists ranked sf sg,
      rank_search_results prefs now files query = Ok ranked
      /\ In (f, sf) ranked /\ In (g, sg) ranked
      /\ 10 <= sf /\ sg < sf
      /\ forall i j s t,
           nth_error ranked i = Some (f, s) ->
           nth_error ranked j = Some (g, t) -> (i < j)%nat)
  /\ (exists sf sg,
         let ranked := _rank_search_results now files query in
         In (f, sf) ranked /\ In (g, sg) ranked
         /\ 10 <= sf /\ sg < sf
         /\ forall i j s t,
              nth_error ranked i = Some (f, s) ->
              nth_error ranked j = Some (g, t) -> (i < j)%nat).
Proof.
  intros Hconf Hst Hf Hg Hexact Hsub Hproper.
  destruct (Hst f Hf) as [stf Hstf]. destruct (Hst g Hg) as [stg Hstg].
  pose proof (claimed_words_nonneg query query) as Hw.
  split.
  - pose proof (score_value_claimed prefs now query f stf Hstf) as Ef.
    pose proof (score_value_claimed prefs now query g stg Hstg) as Eg.
    pose proof (exact_match_score prefs now query Hconf (path f) stf Hexact).
    pose proof (proper_substring_score prefs now query Hconf (path g) stg
                  Hsub Hproper) as [? ?].
    assert (Hpos : 0 < score_value prefs now query g) by lra.
    assert (Hlt : score_value prefs now query g
                  < score_value prefs now query f) by lra.
    destruct (ranked_above (score_value prefs now query) files f g
                Hf Hg Hpos Hlt) as (Hinf & Hing & Hord).
    exists (sorted_by_score
              (positive_entries (score_value prefs now query) files)),
      (score_value prefs now query f), (score_value prefs now query g).
    split; [now apply rank_search_results_ok |].
    repeat (split; [first [assumption | lra] |]). exact Hord.
  - pose proof (_score_of_claimed now query f stf Hstf) as Ef.
    pose proof (_score_of_claimed now query g stg Hstg) as Eg.
    pose proof (exact_match_score no_preferences now query
                  no_preferences_bounds (path f) stf Hexact).
    pose proof (proper_substring_score no_preferences now query
                  no_preferences_bounds (path g) stg Hsub Hproper) as [? ?].
    assert (Hpos : 0 < _score_of now query g) by lra.
    assert (Hlt : _score_of now query g < _score_of now query f) by lra.
    destruct (ranked_above (_score_of now query) files f g
                Hf Hg Hpos Hlt) as (Hinf & Hing & Hord).
    exists (_score_of now query f), (_score_of now query g).
    unfold _rank_search_results. rewrite _scored_files_eq. cbv zeta.
    repeat (split; [first [assumption | lra] |]). exact Hord.
Qed.

Lemma C2_exact_match_outranks_substring_witness :
  (exists ranked sf sg,
      rank_search_results sample_prefs sample_now sample_files "report.pdf"
      = Ok ranked
      /\ In (report_pdf, sf) ranked /\ In (report_bak, sg) ranked
      /\ 10 <= sf /\ sg < sf
      /\ forall i j s t,
           nth_error ranked i = Some (report_pdf, s) ->
           nth_error ranked j = Some (report_bak, t) -> (i < j)%nat)
  /\ (exists sf sg,
         let ranked := _rank_search_results sample_now sample_files
                         "report.pdf" in
         In (report_pdf, sf) ranked /\ In (report_bak, sg) ranked
         /\ 10 <= sf /\ sg < sf
         /\ forall i j s t,
              nth_error ranked i = Some (report_pdf, s) ->
              nth_error ranked j = Some (report_bak, t) -> (i < j)%nat).
Proof.
  apply (C2_exact_match_outranks_substring sample_prefs sample_now
           sample_files "report.pdf" report_pdf report_bak).
  - exact sample_prefs_bounds.
  - exact sample_files_statable.
  - simpl; auto.
  - simpl; auto.
  - reflexivity.
  - reflexivity.
  - discriminate.
Defined.

(** ** Claims about the search pipeline *)

(** C4, as stated, fails: the merge compares the paths as the strategies
    yield them ([Path] equality in the command line engine, [str(file)]
    in the web service) and nothing resolves a path.  A folder passed to
    the web service in [file_paths] under the two spellings
    [/home/u/Documents] and [/home/u/Documents/../Documents] yields its
    file twice; both entries survive the merge and both are ranked,
    although they have one canonical path. *)
Lemma C4_counterexample :
  canonical (path plain_a) = canonical (path dotted_a)
  /\ found_files sample_now (lower "a.txt") twice_spelled_dirs
     = Ok [plain_a; dotted_a]
  /\ unique_files [plain_a; dotted_a] = [plain_a; dotted_a]
  /\ (exists ranked,
         smart_search sample_now twice_spelled_dirs "a.txt" = Ok ranked
         /\ map fst ranked = [plain_a; dotted_a])
  /\ ~ claimed_merge sample_now twice_spelled_dirs "a.txt".
Proof.
  split; [reflexivity |]. split; [reflexivity |]. split; [reflexivity |].
  split; [eexists; split; reflexivity |].
  intros H. specialize (H [plain_a; dotted_a] eq_refl).
  change (NoDup [canonical (path plain_a); canonical (path plain_a)]) in H.
  inversion H as [|x l Hin _]; subst. apply Hin. now left.
Qed.

(** C4 (amended). Whenever the five strategies return, the merge of
    their concatenated outputs holds at most one entry per path as the
    strategies yield it (the command line engine compares [Path]
    objects, the web service their strings; no path is resolved), holds
    every path that was found, keeps for each path the entry found first,
    and lists the entries in the order of first discovery; the ranked
    results of both engines never hold the same path twice.  When every
    found path is already canonical, the merge holds at most one entry
    per canonical path. *)
Theorem C4_merge_keeps_one_entry_per_path (prefs : Preferences) (now : Z)
  (search_dirs : list Dir) (query : string) (found : list File) :
  found_files now (lower query) search_dirs = Ok found ->
  let merged := unique_files found in
  NoDup (map path merged)
  /\ (forall p, In p (map path merged) <-> In p (map path found))
  /\ (forall f, In f merged ->
                nth_error found (first_index (path f) found) = Some f)
  /\ StronglySorted (seen_before found) merged
  /\ (forall ranked,
         smart_file_search prefs now search_dirs query = Ok ranked ->
         NoDup (ranked_paths ranked))
  /\ (forall ranked,
         smart_search now search_dirs query = Ok ranked ->
         NoDup (ranked_paths ranked))
  /\ ((forall f, In f found -> canonical (path f) = path f) ->
      NoDup (map (fun f => canonical (path f)) merged)).
Proof.
  intros Hfound merged.
  assert (Hnd : NoDup (map path merged)) by apply unique_from_NoDup.
  split; [exact Hnd |]. split; [| split; [| split; [| split; [| split]]]].
  - intros p. unfold merged, unique_files. rewrite unique_from_paths.
    simpl. tauto.
  - intros f Hf. now apply (unique_from_first found []).
  - apply unique_from_order.
  - intros ranked Hr. unfold smart_file_search in Hr.
    rewrite Hfound in Hr. cbn [bind] in Hr.
    eapply rank_search_results_NoDup; eauto.
  - intros ranked Hr. unfold smart_search in Hr.
    rewrite Hfound in Hr. cbn [bind] in Hr.
    assert (E : ranked = firstn 20 (_rank_search_results now merged (lower query)))
      by (unfold merged; congruence).
    rewrite E. unfold ranked_paths. rewrite <- (firstn_map (fun x : File * Q => path (fst x))).
    apply NoDup_firstn.
    now apply _rank_search_results_NoDup.
  - intros Hcanon.
    rewrite (map_ext_in (fun f => canonical (path f)) path); [exact Hnd |].
    intros f Hf. apply Hcanon. apply unique_from_In in Hf. tauto.
Qed.

Lemma C4_merge_keeps_one_entry_per_path_witness :
  exists found,
    found_files sample_now (lower "Movie") [sample_dir] = Ok found
    /\ List.length found = 2%nat
    /\ NoDup (map path (unique_files found))
    /\ forall ranked,
         smart_file_search sample_prefs sample_now [sample_dir] "Movie"
         = Ok ranked ->
         NoDup (ranked_paths ranked).
Proof.
  eexists. split; [reflexivity |]. split; [reflexivity |].
  pose proof (C4_merge_keeps_one_entry_per_path sample_prefs sample_now
                [sample_dir] "Movie" _ eq_refl) as H.
  cbv zeta in H. destruct H as (Hnd & _ & _ & _ & Hr & _).
  split; [exact Hnd | exact Hr].
Defined.

(** ** Claims about learning and organizing *)

(** C5, as stated, fails: the location recorded for a file is the name
    of the scanned directory it was found under, not the name of its
    immediate parent.  Two reports in [Documents/work] and one file in
    [Documents] teach "Documents" with confidence 1, while the most
    frequent immediate parent is "work". *)
Lemma C5_counterexample :
  observed_parents documents [nested_dir] = ["work"; "work"; "Documents"]
  /\ observed_roots documents [nested_dir]
     = ["Documents"; "Documents"; "Documents"]
  /\ fst (analyze_file_system sample_now no_preferences [nested_dir]) documents
     = Some (mkPreference "Documents" (3 # 3) sample_now)
  /\ ~ claimed_learning sample_now no_preferences [nested_dir].
Proof.
  split; [reflexivity |]. split; [reflexivity |]. split; [reflexivity |].
  intros H. destruct (H documents) as (pref & Hp & [[_ Hmode] _]).
  - discriminate.
  - change (Some (mkPreference "Documents" (3 # 3) sample_now) = Some pref)
      in Hp.
    inversion Hp; subst; clear Hp.
    specialize (Hmode "work"%string). vm_compute in Hmode. lia.
Qed.

(** C5 (amended). After a full analysis pass, every category with at
    least one observed non-empty file is mapped to a most frequent name
    among the scanned root directories under which its observed files
    were found (one name per file), with confidence the frequency of that
    name divided by the number of observed files of the category; the
    confidence lies in (0,1]. *)
Theorem C5_preference_is_modal_scan_root (now : Z) (prefs : Preferences)
  (scan_dirs : list Dir) (c : Category) :
  observed_roots c scan_dirs <> [] ->
  exists pref,
    fst (analyze_file_system now prefs scan_dirs) c = Some pref
    /\ is_mode (preferred_location pref) (observed_roots c scan_dirs)
    /\ confidence pref
       == Z.of_nat (occurrences (observed_roots c scan_dirs)
                      (preferred_location pref))
          # Pos.of_nat (List.length (observed_roots c scan_dirs))
    /\ 0 < confidence pref <= 1.
Proof.
  intros Hne.
  destruct (learned_describes now _ Hne) as (pref & Hl & [Hmode Hconf] & Hb & _).
  exists pref. split; [| auto].
  unfold analyze_file_system, learn_organization_patterns. cbn [fst].
  rewrite (learn_fold now _ (scan_all_NoDup scan_dirs)).
  now rewrite scan_all_locations, Hl.
Qed.

Lemma C5_preference_is_modal_scan_root_witness :
  exists pref,
    fst (analyze_file_system sample_now no_preferences [nested_dir]) documents
    = Some pref
    /\ is_mode (preferred_location pref) (observed_roots documents [nested_dir])
    /\ confidence pref
       == Z.of_nat (occurrences (observed_roots documents [nested_dir])
                      (preferred_location pref))
          # Pos.of_nat (List.length (observed_roots documents [nested_dir]))
    /\ 0 < confidence pref <= 1.
Proof.
  apply (C5_preference_is_modal_scan_root sample_now no_preferences
           [nested_dir] documents).
  discriminate.
Defined.




(** C7, as stated, fails at the size cap: a text file of exactly 1 MiB
    whose content contains the query is within "at most 1 MiB" but is not
    returned. *)
Lemma C7_counterexample :
  statable [one_mib_dir]
  /\ filter (claimed_content_match "budget") (walk [one_mib_dir])
     = [one_mib_txt]
  /\ search_by_content_keywords "budget" [one_mib_dir] = Ok []
  /\ search_by_content_keywords "budget" [one_mib_dir]
     <> Ok (filter (claimed_content_match "budget") (walk [one_mib_dir])).
Proof.
  split; [| split; [| split]].
  - intros f [<- | []] _. eexists. reflexivity.
  - reflexivity.
  - reflexivity.
  - discriminate.
Qed.

(** C7 (amended). When [stat()] answers for the files met, the content
    strategy returns exactly the regular files whose lowercase extension
    is in the text allow-list, whose size is greater than 0 and strictly
    less than 1 MiB, and whose decoded, lowercased content contains the
    query; and, whatever [stat()] answers, every file it opens is such a
    regular allow-listed file of size strictly between 0 and 1 MiB. *)
Theorem C7_content_search_below_one_mib (query : string)
  (search_dirs : list Dir) :
  statable search_dirs ->
  search_by_content_keywords query search_dirs
  = Ok (filter
          (fun f =>
             is_file f && extension_in text_extensions f
             && (0 <? size_of f)%Z && (size_of f <? 1024 * 1024)%Z
             && content_has query f)
          (walk search_dirs))
  /\ forall p,
       In p (content_opened query search_dirs) ->
       exists f,
         In f (walk search_dirs) /\ path f = p
         /\ is_file f = true /\ extension_in text_extensions f = true
         /\ (0 < size_of f < 1024 * 1024)%Z.
Proof.
  intros Hst. split.
  - unfold search_by_content_keywords.
    now rewrite content_scan_ok.
  - intros p Hp. unfold content_opened in Hp.
    apply content_scan_opened in Hp.
    destruct Hp as [[] | (f & Hf & Hpath & Hopen)].
    exists f. unfold openable in Hopen.
    repeat (apply andb_true_iff in Hopen; destruct Hopen as [Hopen ?]).
    repeat split; try assumption; now apply Z.ltb_lt.
Qed.

Lemma C7_content_search_below_one_mib_witness :
  search_by_content_keywords "report" [sample_dir]
  = Ok (filter
          (fun f =>
             is_file f && extension_in text_extensions f
             && (0 <? size_of f)%Z && (size_of f <? 1024 * 1024)%Z
             && content_has "report" f)
          (walk [sample_dir]))
  /\ forall p,
       In p (content_opened "report" [sample_dir]) ->
       exists f,
         In f (walk [sample_dir]) /\ path f = p
         /\ is_file f = true /\ extension_in text_extensions f = true
         /\ (0 < size_of f < 1024 * 1024)%Z.
Proof.
  apply (C7_content_search_below_one_mib "report" [sample_dir]).
  exact sample_dir_statable.
Defined.

(** C8. When [stat()] answers for the files met, only the first matching
    bucket of a strategy fires.  TypeKeyword: the first keyword of the
    dictionary, in the order it is written, that occurs in the query
    fixes the one category searched, whatever later keywords occur.
    DateContext: a recent word (today, recent, new, latest) selects the
    files modified within the last 7 days even when an old word (old,
    archive, backup) occurs too; the files older than 90 days are
    selected only when no recent word occurs.  SizeContext: a large word
    (large, big, huge) selects the files above 10 MiB even when a small
    word (small, tiny) occurs too; the files of size strictly between 0
    and 100 KiB are selected only when no large word occurs. *)
Theorem C8_first_matching_bucket_wins (now : Z) (query : string)
  (search_dirs : list Dir) :
  statable search_dirs ->
  (forall before keyword category after,
      type_keywords = before ++ (keyword, category) :: after ->
      (forall kv, In kv before -> contains (fst kv) query = false) ->
      contains keyword query = true ->
      search_by_file_type query search_dirs
      = Ok (filter
              (fun f => nonempty_file f
                        && extension_in (extensions_of category) f)
              (walk search_dirs)))
  /\ (any_in recent_words query = true ->
      search_by_date_context now query search_dirs
      = Ok (filter
              (fun f => nonempty_file f && (now - 7 * day <? mtime_of f)%Z)
              (walk search_dirs)))
  /\ (any_in recent_words query = false ->
      any_in old_words query = true ->
      search_by_date_context now query search_dirs
      = Ok (filter
              (fun f => nonempty_file f && (mtime_of f <? now - 90 * day)%Z)
              (walk search_dirs)))
  /\ (any_in large_words query = true ->
      search_by_size_context query search_dirs
      = Ok (filter
              (fun f => is_file f && (10 * MiB <? size_of f)%Z)
              (walk search_dirs)))
  /\ (any_in large_words query = false ->
      any_in small_words query = true ->
      search_by_size_context query search_dirs
      = Ok (filter
              (fun f => is_file f && (0 <? size_of f)%Z
                        && (size_of f <? 100 * KiB)%Z)
              (walk search_dirs))).
Proof.
  intros Hst. split; [| split; [| split; [| split]]].
  - intros before keyword category after Ht Hb Hk.
    apply search_by_file_type_ok; [assumption |].
    eapply target_category_first; eauto.
  - now apply search_by_date_context_recent.
  - now apply search_by_date_context_old.
  - now apply search_by_size_context_large.
  - now apply search_by_size_context_small.
Qed.

Lemma C8_first_matching_bucket_wins_witness :
  search_by_file_type "old tiny movie of the new big photo" [sample_dir]
  = Ok (filter
          (fun f => nonempty_file f && extension_in (extensions_of images) f)
          (walk [sample_dir]))
  /\ search_by_date_context sample_now
       "old tiny movie of the new big photo" [sample_dir]
     = Ok (filter
             (fun f => nonempty_file f
                       && (sample_now - 7 * day <? mtime_of f)%Z)
             (walk [sample_dir]))
  /\ search_by_size_context "old tiny movie of the new big photo"
       [sample_dir]
     = Ok (filter
             (fun f => is_file f && (10 * MiB <? size_of f)%Z)
             (walk [sample_dir])).
Proof.
  destruct (C8_first_matching_bucket_wins sample_now
              "old tiny movie of the new big photo" [sample_dir]
              sample_dir_statable)
    as (Htype & Hrecent & _ & Hlarge & _).
  split; [| split].
  - apply (Htype [] "photo" images (tl type_keywords)).
    + reflexivity.
    + intros kv [].
    + reflexivity.
  - apply Hrecent. reflexivity.
  - apply Hlarge. reflexivity.
Defined.

(** C9. The claim asks that a file whose [stat()] raises be skipped and
    the operation go on.  The analysis does so (its [stat()] is inside
    [try]); the search strategies call [stat()] unguarded, so the file
    that vanished between listing and [stat()] makes the filename search,
    the content search and with them the whole search of both engines
    raise, although the files before and after it are readable. *)
Theorem C9_search_raises_on_vanished_file :
  search_by_filename "notes" [vanishing_dir] = Raise OSError
  /\ search_by_filename "txt" [vanishing_dir] = Raise OSError
  /\ search_by_content_keywords "notes" [vanishing_dir] = Raise OSError
  /\ smart_file_search no_preferences sample_now [vanishing_dir] "notes"
     = Raise OSError
  /\ smart_search sample_now [vanishing_dir] "notes" = Raise OSError
  /\ total_files (scan_all [vanishing_dir]) = 2%Z
  /\ dd_get [] (location_patterns (scan_all [vanishing_dir])) documents
     = ["Documents"; "Documents"].
Proof. repeat split; reflexivity. Qed.

(** C10. For the empty query, when [stat()] answers for the files met
    and no learned confidence is negative: the Filename strategy returns
    every non-empty regular file under the existing roots; the query
    splits into no word, so the word bonus adds nothing; a file with a
    non-empty basename gets the substring bonus 5 and no exact match;
    every candidate's score is at least 5; and the search returns exactly
    the non-empty regular files in scope, each path once. *)
Theorem C10_empty_query_returns_every_nonempty_file (prefs : Preferences)
  (now : Z) (search_dirs : list Dir) :
  statable search_dirs ->
  (forall c pref, prefs c = Some pref -> 0 <= confidence pref) ->
  search_by_filename "" search_dirs
  = Ok (filter nonempty_file (walk search_dirs))
  /\ split "" = []
  /\ (forall basename score, word_bonus "" basename score = score)
  /\ (forall f, name (path f) <> ""%string ->
                match_bonus "" (lower (name (path f))) 0 == 5)
  /\ (forall f st, stat f = Ok st -> 5 <= score_value prefs now "" f)
  /\ exists ranked,
       smart_file_search prefs now search_dirs "" = Ok ranked
       /\ NoDup (ranked_paths ranked)
       /\ forall p,
            In p (ranked_paths ranked)
            <-> exists f, In f (walk search_dirs)
                          /\ nonempty_file f = true /\ path f = p.
Proof.
  intros Hst Hconf.
  split; [now apply search_by_filename_empty |].
  split; [reflexivity |]. split; [reflexivity |].
  split.
  { intros f Hne. rewrite match_bonus_claimed, empty_query_match; [lra |].
    intros E. apply Hne. now apply lower_empty. }
  split; [intros f st Hf; exact (empty_query_score prefs now f st Hconf Hf) |].
  pose proof (found_files_empty search_dirs Hst now) as Hfound.
  set (found := filter nonempty_file (walk search_dirs) ++ _) in Hfound.
  assert (Hin : forall f, In f found
                          <-> In f (walk search_dirs) /\ nonempty_file f = true)
    by (intros f; now apply (found_files_empty_In search_dirs Hst now)).
  assert (Hall : all_statable (unique_files found)).
  { intros f Hf. apply unique_from_In in Hf. destruct Hf as [Hf _].
    apply Hin in Hf. destruct Hf as [Hw Hne].
    apply Hst; [assumption |].
    unfold nonempty_file in Hne. apply andb_true_iff in Hne. tauto. }
  exists (sorted_by_score
            (positive_entries (score_value prefs now "") (unique_files found))).
  assert (Hrun : smart_file_search prefs now search_dirs ""
                 = Ok (sorted_by_score
                         (positive_entries (score_value prefs now "")
                            (unique_files found)))).
  { unfold smart_file_search. change (lower "") with ""%string.
    rewrite Hfound. cbn [bind]. now apply rank_search_results_ok. }
  split; [exact Hrun |]. split.
  { eapply (smart_file_search_NoDup prefs now search_dirs ""); eauto. }
  destruct (ranked_spec (score_value prefs now "") (unique_files found))
    as (_ & Hranked & _).
  cbv zeta in Hranked. intros p. unfold ranked_paths. rewrite in_map_iff.
  split.
  - intros ([f s] & Hp & Hfs). cbn [fst] in Hp.
    apply Hranked in Hfs. destruct Hfs as (Hf & _).
    apply unique_from_In in Hf. destruct Hf as [Hf _].
    apply Hin in Hf. exists f. tauto.
  - intros (f & Hw & Hne & Hp).
    assert (Hpath : In p (map path (unique_files found))).
    { unfold unique_files. apply unique_from_paths. split; [| intros []].
      apply in_map_iff. exists f. split; [assumption |].
      apply Hin. tauto. }
    apply in_map_iff in Hpath. destruct Hpath as (g & Hg & Hgin).
    destruct (Hall g Hgin) as [st Hgst].
    exists (g, score_value prefs now "" g). split; [exact Hg |].
    apply Hranked. split; [assumption |]. split; [reflexivity |].
    pose proof (empty_query_score prefs now g st Hconf Hgst). lra.
Qed.

Lemma C10_empty_query_returns_every_nonempty_file_witness :
  search_by_filename "" [sample_dir]
  = Ok (filter nonempty_file (walk [sample_dir]))
  /\ exists ranked,
       smart_file_search sample_prefs sample_now [sample_dir] "" = Ok ranked
       /\ forall p,
            In p (ranked_paths ranked)
            <-> exists f, In f (walk [sample_dir])
                          /\ nonempty_file f = true /\ path f = p.
Proof.
  destruct (C10_empty_query_returns_every_nonempty_file sample_prefs
              sample_now [sample_dir] sample_dir_statable sample_prefs_nonneg)
    as (Hname & _ & _ & _ & _ & ranked & Hrun & _ & Hall).
  split; [exact Hname |].
  exists ranked. split; [exact Hrun | exact Hall].
Defined.

(** ** Further properties: the analysis *)

Section AnalysisCounts.

Local Open Scope Z_scope.

Lemma sum_over_cons (w : File -> Z) (f : File) (l : list File) :
  sum_over w (f :: l) = w f + sum_over w l.
Proof. reflexivity. Qed.

Lemma sum_over_filter (p : File -> bool) (w : File -> Z) (l : list File) :
  sum_over (fun f => if p f then w f else 0) l = sum_over w (filter p l).
Proof.
  induction l as [|f l IH]; [reflexivity |].
  rewrite sum_over_cons, IH. cbn [filter].
  destruct (p f); [now rewrite sum_over_cons | lia].
Qed.

Lemma sum_over_ones (l : list File) :
  sum_over (fun _ => 1) l = Z.of_nat (List.length l).
Proof.
  induction l as [|f l IH]; [reflexivity |].
  rewrite sum_over_cons, IH. cbn [List.length]. lia.
Qed.

Lemma sum_over_app (w : File -> Z) (l l' : list File) :
  sum_over w (l ++ l') = sum_over w l + sum_over w l'.
Proof.
  induction l as [|f l IH]; [reflexivity |].
  cbn [app]. rewrite !sum_over_cons, IH. lia.
Qed.

(** A measure of the counters that every observed file raises by its
    weight grows, over the whole scan, by the weights of the walk. *)
Lemma scan_additive (m : Analysis -> Z) (w : File -> Z) :
  (forall scan_dir acc f, m (observe scan_dir acc f) = m acc + w f) ->
  forall scan_dirs acc,
    m (fold_left scan_step scan_dirs acc)
    = m acc + sum_over w (walk scan_dirs).
Proof.
  intros Hstep.
  assert (Hfiles : forall d files acc,
             m (fold_left (observe d) files acc) = m acc + sum_over w files).
  { intros d files. induction files as [|f files IH]; intros acc;
      cbn [fold_left]; [cbn; lia |].
    rewrite IH, Hstep, sum_over_cons. lia. }
  induction scan_dirs as [|d ds IH]; intros acc;
    cbn [fold_left walk flat_map]; [cbn; lia |].
  fold (walk ds). rewrite IH. unfold scan_step.
  destruct (dir_exists d); [| reflexivity].
  rewrite Hfiles, sum_over_app. lia.
Qed.

Lemma sum_values_from (d : DefaultDict Z) :
  forall start,
    fold_left (fun total kv => total + snd kv) d start = start + sum_values d.
Proof.
  unfold sum_values. induction d as [|kv d IH]; intros start;
    cbn [fold_left]; [lia |].
  rewrite IH, (IH (0 + snd kv)). lia.
Qed.

Lemma sum_values_cons (kv : Category * Z) (d : DefaultDict Z) :
  sum_values (kv :: d) = snd kv + sum_values d.
Proof.
  unfold sum_values at 1. cbn [fold_left]. rewrite sum_values_from. lia.
Qed.

Lemma sum_values_update (d : DefaultDict Z) (k : Category) (v : Z) :
  sum_values (dd_update 0 (fun n => n + v) d k) = sum_values d + v.
Proof.
  induction d as [|[k0 n] d IH]; cbn [dd_update].
  - reflexivity.
  - destruct (category_eqb k0 k); rewrite !sum_values_cons; cbn [snd];
      [lia | rewrite IH; lia].
Qed.

Lemma observed_counted (c : Category) (f : File) :
  observed c f = counted f && category_eqb (categorize_file (path f)) c.
Proof. reflexivity. Qed.

Lemma size_of_counted (f : File) :
  (if counted f then size_of f else 0)
  = match stat f with
    | Ok st => if is_file f && negb (st_size st =? 0) then st_size st else 0
    | Raise _ => 0
    end.
Proof.
  unfold counted, size_of. destruct (is_file f), (stat f); reflexivity.
Qed.

Lemma observe_cases (scan_dir : Dir) (acc : Analysis) (f : File) :
  (counted f = false /\ observe scan_dir acc f = acc)
  \/ (counted f = true
      /\ observe scan_dir acc f
         = mkAnalysis
             (total_files acc + 1)
             (total_size acc + size_of f)
             (dd_update 0 (fun n => n + 1) (file_stats acc)
                (categorize_file (path f)))
             (dd_update 0 (fun n => n + size_of f) (size_stats acc)
                (categorize_file (path f)))
             (dd_update [] (fun l => (l ++ [name (dir_path scan_dir)])%list)
                (location_patterns acc) (categorize_file (path f)))).
Proof.
  unfold observe, counted, size_of.
  destruct (is_file f); [| now left].
  destruct (stat f) as [st | e]; [| now left].
  destruct (st_size st =? 0); [now left | now right].
Qed.

End AnalysisCounts.

(** X1. The analysis counts exactly the regular files that answer
    [stat()] and are not empty: the totals are their number and the sum
    of their sizes, each category holds the number and the size of its
    own such files, and the per-category counts and sizes add up to the
    totals.  Empty and unreadable files never count. *)
Theorem X1_analysis_counts_nonempty_files (scan_dirs : list Dir) :
  let a := scan_all scan_dirs in
  let seen := walk scan_dirs in
  total_files a = Z.of_nat (List.length (filter counted seen))
  /\ total_size a = sum_over size_of (filter counted seen)
  /\ (forall c,
         dd_get 0%Z (file_stats a) c
         = Z.of_nat (List.length (filter (observed c) seen))
         /\ dd_get 0%Z (size_stats a) c
            = sum_over size_of (filter (observed c) seen))
  /\ sum_values (file_stats a) = total_files a
  /\ sum_values (size_stats a) = total_size a.
Proof.
  intros a seen.
  assert (Hfiles : total_files a = Z.of_nat (List.length (filter counted seen))).
  { unfold a, scan_all.
    rewrite (scan_additive total_files (fun f => if counted f then 1 else 0)%Z).
    - rewrite sum_over_filter, sum_over_ones. reflexivity.
    - intros d acc f. destruct (observe_cases d acc f) as [[-> ->] | [-> ->]];
        cbn [total_files]; lia. }
  assert (Hsize : total_size a = sum_over size_of (filter counted seen)).
  { unfold a, scan_all.
    rewrite (scan_additive total_size
               (fun f => if counted f then size_of f else 0)%Z).
    - now rewrite sum_over_filter.
    - intros d acc f. destruct (observe_cases d acc f) as [[-> ->] | [-> ->]];
        cbn [total_size]; lia. }
  split; [exact Hfiles |]. split; [exact Hsize |]. split; [| split].
  - intros c. split.
    + unfold a, scan_all.
      rewrite (scan_additive (fun acc => dd_get 0%Z (file_stats acc) c)
                 (fun f => if observed c f then 1 else 0)%Z).
      * rewrite sum_over_filter, sum_over_ones. reflexivity.
      * intros d acc f. rewrite observed_counted.
        destruct (observe_cases d acc f) as [[-> ->] | [-> ->]];
          cbn [file_stats andb]; [lia |].
        rewrite dd_get_update.
        destruct (category_eqb (categorize_file (path f)) c) eqn:E; [| lia].
        apply category_eqb_eq in E. now rewrite E.
    + unfold a, scan_all.
      rewrite (scan_additive (fun acc => dd_get 0%Z (size_stats acc) c)
                 (fun f => if observed c f then size_of f else 0)%Z).
      * now rewrite sum_over_filter.
      * intros d acc f. rewrite observed_counted.
        destruct (observe_cases d acc f) as [[-> ->] | [-> ->]];
          cbn [size_stats andb]; [lia |].
        rewrite dd_get_update.
        destruct (category_eqb (categorize_file (path f)) c) eqn:E; [| lia].
        apply category_eqb_eq in E. now rewrite E.
  - rewrite Hfiles. unfold a, scan_all.
    rewrite (scan_additive (fun acc => sum_values (file_stats acc))
               (fun f => if counted f then 1 else 0)%Z).
    + rewrite sum_over_filter, sum_over_ones. reflexivity.
    + intros d acc f. destruct (observe_cases d acc f) as [[-> ->] | [-> ->]];
        cbn [file_stats]; [lia | apply sum_values_update].
  - rewrite Hsize. unfold a, scan_all.
    rewrite (scan_additive (fun acc => sum_values (size_stats acc))
               (fun f => if counted f then size_of f else 0)%Z).
    + now rewrite sum_over_filter.
    + intros d acc f. destruct (observe_cases d acc f) as [[-> ->] | [-> ->]];
        cbn [size_stats]; [lia | apply sum_values_update].
Qed.

(** ** Further properties: the learned preferences *)

Section LearnedTable.

Lemma analyze_table (now : Z) (prefs : Preferences) (scan_dirs : list Dir)
  (c : Category) :
  fst (analyze_file_system now prefs scan_dirs) c
  = match learned now (observed_roots c scan_dirs) with
    | Some pref => Some pref
    | None => prefs c
    end.
Proof.
  unfold analyze_file_system, learn_organization_patterns. cbn [fst].
  rewrite (learn_fold now _ (scan_all_NoDup scan_dirs)).
  now rewrite scan_all_locations.
Qed.

Lemma occurrences_all_equal (r : string) (l : list string) :
  (forall x, In x l -> x = r) -> occurrences l r = List.length l.
Proof.
  induction l as [|y l IH]; intros Hall; [reflexivity |].
  rewrite occurrences_cons, (Hall y (or_introl eq_refl)), String.eqb_refl.
  cbn [List.length]. rewrite IH; [reflexivity |].
  intros x Hx. apply Hall. now right.
Qed.

End LearnedTable.

(** X2. A learning pass replaces the record of every category it
    observed by a record that does not depend on the previous table, and
    leaves the record of every category it did not observe as it was
    (also when that is no record). *)
Theorem X2_learning_replaces_per_category (now : Z)
  (prefs prefs' : Preferences) (scan_dirs : list Dir) (c : Category) :
  (observed_roots c scan_dirs = [] ->
   fst (analyze_file_system now prefs scan_dirs) c = prefs c)
  /\ (observed_roots c scan_dirs <> [] ->
      fst (analyze_file_system now prefs scan_dirs) c
      = fst (analyze_file_system now prefs' scan_dirs) c
      /\ exists pref,
           fst (analyze_file_system now prefs scan_dirs) c = Some pref
           /\ learned_on pref = now).
Proof.
  rewrite !analyze_table. split.
  - intros ->. reflexivity.
  - intros Hne.
    destruct (learned_describes now _ Hne) as (pref & -> & _ & _ & Hon).
    split; [reflexivity |]. now exists pref.
Qed.

(** X3. When all observed files of a category were found under one and
    the same scanned root, that root's name is learned with confidence
    1. *)
Theorem X3_single_root_gives_full_confidence (now : Z) (prefs : Preferences)
  (scan_dirs : list Dir) (c : Category) (root : string) :
  observed_roots c scan_dirs <> [] ->
  (forall r, In r (observed_roots c scan_dirs) -> r = root) ->
  exists pref,
    fst (analyze_file_system now prefs scan_dirs) c = Some pref
    /\ preferred_location pref = root
    /\ confidence pref == 1.
Proof.
  intros Hne Hall. rewrite analyze_table.
  destruct (learned_describes now _ Hne)
    as (pref & -> & [[Hin _] Hconf] & _ & _).
  exists pref. split; [reflexivity |].
  pose proof (Hall _ Hin) as Hroot. split; [exact Hroot |].
  rewrite Hconf, Hroot, (occurrences_all_equal root _ Hall).
  assert (Hlen : List.length (observed_roots c scan_dirs) <> 0%nat)
    by (destruct (observed_roots c scan_dirs); [contradiction | discriminate]).
  unfold Qeq. cbn [Qnum Qden]. rewrite (Zpos_of_nat _ Hlen). lia.
Qed.

Lemma X3_single_root_gives_full_confidence_witness :
  exists pref,
    fst (analyze_file_system sample_now no_preferences [nested_dir]) documents
    = Some pref
    /\ preferred_location pref = "Documents"%string
    /\ confidence pref == 1.
Proof.
  apply (X3_single_root_gives_full_confidence sample_now no_preferences
           [nested_dir] documents "Documents").
  - discriminate.
  - intros r [<- | [<- | [<- | []]]]; reflexivity.
Defined.

(** ** Further properties: ties between locations *)

Section TieBreak.

Lemma first_position_lt (x : string) (l : list string) :
  (first_position x l < List.length l)%nat <-> In x l.
Proof.
  induction l as [|y l IH]; cbn [first_position List.length In]; [lia |].
  destruct (String.eqb_spec y x) as [-> | Hne].
  - split; [now left | lia].
  - rewrite <- IH. split; [intros H; right; lia |].
    intros [E | H]; [contradiction | lia].
Qed.

Lemma first_position_le (x : string) (l : list string) :
  (first_position x l <= List.length l)%nat.
Proof.
  induction l as [|y l IH]; cbn [first_position List.length]; [lia |].
  destruct (String.eqb y x); lia.
Qed.

Lemma first_position_app_in (x : string) (a b : list string) :
  In x a -> first_position x (a ++ b) = first_position x a.
Proof.
  induction a as [|y a IH]; intros Hin; [destruct Hin |].
  cbn [app first_position]. destruct (String.eqb_spec y x) as [-> | Hne];
    [reflexivity |].
  f_equal. apply IH. destruct Hin as [E | H]; [contradiction | assumption].
Qed.

Lemma first_position_app_out (x : string) (a b : list string) :
  ~ In x a ->
  first_position x (a ++ b) = (List.length a + first_position x b)%nat.
Proof.
  induction a as [|y a IH]; intros Hout; [reflexivity |].
  cbn [app first_position List.length].
  destruct (String.eqb_spec y x) as [-> | Hne].
  - exfalso. apply Hout. now left.
  - rewrite IH; [lia |]. intros H. apply Hout. now right.
Qed.

Lemma counter_add_key_list (c : list (string * nat)) (k : string) :
  map fst (counter_add c k)
  = if in_dec string_dec k (map fst c) then map fst c else map fst c ++ [k].
Proof.
  induction c as [|[k0 n] c IH]; cbn [counter_add map fst].
  - destruct (in_dec string_dec k []) as [[] | _]. reflexivity.
  - destruct (String.eqb_spec k0 k) as [-> | Hne]; cbn [map fst].
    + destruct (in_dec string_dec k (k :: map fst c)) as [_ | Hout];
        [reflexivity |].
      exfalso. apply Hout. now left.
    + rewrite IH.
      destruct (in_dec string_dec k (map fst c)) as [Hin | Hout];
        destruct (in_dec string_dec k (k0 :: map fst c)) as [Hin' | Hout'];
        try reflexivity.
      * exfalso. apply Hout'. now right.
      * destruct Hin' as [E | Hin']; [congruence | contradiction].
Qed.

Lemma Counter_snoc (l : list string) (x : string) :
  Counter (l ++ [x]) = counter_add (Counter l) x.
Proof. unfold Counter. now rewrite fold_left_app. Qed.

(** The keys of a counter stand in the order of first occurrence. *)
Lemma Counter_key_order (l : list string) :
  forall k1 k2,
    In k1 l -> In k2 l ->
    (first_position k1 (map fst (Counter l))
     < first_position k2 (map fst (Counter l)))%nat
    <-> (first_position k1 l < first_position k2 l)%nat.
Proof.
  induction l as [|x l IH] using rev_ind; intros k1 k2 H1 H2;
    [destruct H1 |].
  rewrite Counter_snoc, counter_add_key_list.
  destruct (in_dec string_dec x (map fst (Counter l))) as [Hx | Hx].
  - apply (proj1 (Counter_keys l x)) in Hx.
    assert (H1' : In k1 l)
      by (apply in_app_or in H1; destruct H1 as [H | [<- | []]]; assumption).
    assert (H2' : In k2 l)
      by (apply in_app_or in H2; destruct H2 as [H | [<- | []]]; assumption).
    rewrite !first_position_app_in by assumption. now apply IH.
  - assert (Hxl : ~ In x l) by (intros H; apply Hx; now apply Counter_keys).
    assert (Hpos : forall k,
               In k (l ++ [x]) ->
               (In k l
                /\ first_position k (map fst (Counter l) ++ [x])
                   = first_position k (map fst (Counter l))
                /\ first_position k (l ++ [x]) = first_position k l)
               \/ (k = x
                   /\ first_position k (map fst (Counter l) ++ [x])
                      = List.length (map fst (Counter l))
                   /\ first_position k (l ++ [x]) = List.length l)).
    { intros k Hk. destruct (in_dec string_dec k l) as [Hkl | Hkl].
      - left. split; [assumption |].
        rewrite !first_position_app_in; auto. now apply Counter_keys.
      - right. apply in_app_or in Hk.
        destruct Hk as [Hk | [<- | []]]; [contradiction |].
        split; [reflexivity |].
        rewrite !first_position_app_out by assumption.
        cbn [first_position]. rewrite String.eqb_refl. lia. }
    destruct (Hpos k1 H1) as [(I1 & -> & ->) | (-> & -> & ->)];
      destruct (Hpos k2 H2) as [(I2 & -> & ->) | (-> & -> & ->)].
    + now apply IH.
    + pose proof (proj2 (first_position_lt k1 l) I1).
      pose proof (proj2 (first_position_lt k1 (map fst (Counter l)))
                    (proj2 (Counter_keys l k1) I1)).
      tauto.
    + pose proof (first_position_le k2 (map fst (Counter l))).
      pose proof (first_position_le k2 l). lia.
    + lia.
Qed.

(** [max] returns the first item of greatest count. *)
Lemma first_max_split (items : list (string * nat)) :
  forall best,
  exists before after,
    best :: items = before ++ first_max best items :: after
    /\ (forall kv, In kv before ->
                   (snd kv < snd (first_max best items))%nat)
    /\ (forall kv, In kv after ->
                   (snd kv <= snd (first_max best items))%nat).
Proof.
  induction items as [|kv items IH]; intros best; cbn [first_max].
  - exists [], []. split; [reflexivity |]. split; intros ? [].
  - destruct (Nat.ltb_spec (snd best) (snd kv)) as [Hlt | Hge].
    + destruct (IH kv) as (before & after & Heq & Hb & Ha).
      remember (first_max kv items) as r eqn:Er. clear Er IH.
      exists (best :: before), after.
      split; [cbn [app]; f_equal; exact Heq |].
      split; [| exact Ha].
      intros x [<- | Hx]; [| now apply Hb].
      destruct before as [|b0 before]; cbn [app] in Heq.
      * injection Heq as E _. now rewrite <- E.
      * injection Heq as E _. subst b0.
        specialize (Hb _ (or_introl eq_refl)). lia.
    + destruct (IH best) as (before & after & Heq & Hb & Ha).
      remember (first_max best items) as r eqn:Er. clear Er IH.
      destruct before as [|b0 before]; cbn [app] in Heq.
      * injection Heq as E Eafter. subst r after.
        exists [], (kv :: items). split; [reflexivity |].
        split; [intros ? [] |].
        intros x [<- | Hx]; [assumption | now apply Ha].
      * injection Heq as E Erest. subst b0.
        exists (best :: kv :: before), after.
        split; [cbn [app]; do 2 f_equal; exact Erest |].
        split; [| exact Ha].
        intros x [<- | [<- | Hx]].
        -- apply Hb. now left.
        -- specialize (Hb _ (or_introl eq_refl)). lia.
        -- apply Hb. now right.
Qed.

Lemma first_position_split (before : list (string * nat))
  (r : string * nat) (after : list (string * nat)) (kv : string * nat) :
  NoDup (map fst (before ++ r :: after)) ->
  In kv (r :: after) ->
  (first_position (fst r) (map fst (before ++ r :: after))
   <= first_position (fst kv) (map fst (before ++ r :: after)))%nat.
Proof.
  intros Hnd Hkv. rewrite map_app in *. cbn [map] in *.
  assert (Hr : ~ In (fst r) (map fst before)).
  { intros H. apply NoDup_remove_2 in Hnd. apply Hnd, in_or_app. now left. }
  assert (Hk : ~ In (fst kv) (map fst before)).
  { intros H. destruct Hkv as [<- | Hkv]; [contradiction |].
    apply NoDup_app_remove_l in Hnd as Hnd'.
    pose proof Hnd as Hnd2.
    apply in_split in H. destruct H as (a & b & Hab).
    rewrite Hab, <- app_assoc in Hnd2. cbn [app] in Hnd2.
    apply NoDup_remove_2 in Hnd2. apply Hnd2.
    apply in_or_app. right. apply in_or_app. right. right.
    apply in_map_iff. now exists kv. }
  rewrite !first_position_app_out by assumption.
  cbn [first_position]. rewrite String.eqb_refl.
  destruct (String.eqb (fst r) (fst kv)); lia.
Qed.

End TieBreak.

(** X4. On a tie the location seen first wins: among the scanned roots
    that hold the greatest number of observed files of a category, the
    learned location is the one met first in the scan. *)
Theorem X4_tie_goes_to_first_seen_root (now : Z) (prefs : Preferences)
  (scan_dirs : list Dir) (c : Category) :
  observed_roots c scan_dirs <> [] ->
  exists pref,
    fst (analyze_file_system now prefs scan_dirs) c = Some pref
    /\ forall y,
         In y (observed_roots c scan_dirs) ->
         occurrences (observed_roots c scan_dirs) y
         = occurrences (observed_roots c scan_dirs) (preferred_location pref) ->
         (first_position (preferred_location pref) (observed_roots c scan_dirs)
          <= first_position y (observed_roots c scan_dirs))%nat.
Proof.
  intros Hne. rewrite analyze_table.
  set (l := observed_roots c scan_dirs) in *.
  destruct (most_common_1_spec l Hne) as (x & Hmc & [Hx _]).
  assert (Hl : learned now l
               = Some (mkPreference x (Z.of_nat (occurrences l x)
                                       # Pos.of_nat (List.length l)) now)).
  { unfold learned. rewrite Hmc. destruct l; [contradiction | reflexivity]. }
  rewrite Hl. eexists. split; [reflexivity |].
  cbn [preferred_location]. intros y Hy Hocc.
  destruct (Counter l) as [|kv rest] eqn:Ec; [discriminate Hmc |].
  cbn [most_common_1] in Hmc. inversion Hmc as [Hmax]; clear Hmc.
  destruct (first_max_split rest kv) as (before & after & Heq & Hb & Ha).
  rewrite Hmax in Heq, Hb, Ha. cbn [snd] in Hb, Ha.
  assert (Hyc : In (y, occurrences l y) (Counter l)).
  { rewrite <- counter_get_Counter. apply counter_get_In.
    now apply Counter_keys. }
  rewrite Ec, Heq in Hyc.
  assert (Hyafter : In (y, occurrences l y) ((x, occurrences l x) :: after)).
  { apply in_app_or in Hyc. destruct Hyc as [Hyb | Hya]; [| assumption].
    specialize (Hb _ Hyb). cbn [snd] in Hb. lia. }
  pose proof (Counter_NoDup l) as Hnd. rewrite Ec, Heq in Hnd.
  pose proof (first_position_split before _ after _ Hnd Hyafter) as Hle.
  cbn [fst] in Hle. rewrite <- Heq, <- Ec in Hle.
  destruct (Nat.le_gt_cases (first_position x l) (first_position y l))
    as [H | H]; [assumption |].
  apply (Counter_key_order l y x Hy Hx) in H. lia.
Qed.

Lemma X4_tie_goes_to_first_seen_root_witness :
  exists pref,
    fst (analyze_file_system sample_now no_preferences tie_dirs) images
    = Some pref
    /\ forall y,
         In y (observed_roots images tie_dirs) ->
         occurrences (observed_roots images tie_dirs) y
         = occurrences (observed_roots images tie_dirs)
             (preferred_location pref) ->
         (first_position (preferred_location pref)
            (observed_roots images tie_dirs)
          <= first_position y (observed_roots images tie_dirs))%nat.
Proof.
  apply (X4_tie_goes_to_first_seen_root sample_now no_preferences tie_dirs
           images).
  discriminate.
Defined.

(** ** Further properties: categories and the type strategy *)

Section CategoryTable.

Lemma extension_listed (c : Category) (e : string) :
  In e (extensions_of c) -> categorize_in file_categories e = c.
Proof.
  destruct c; cbn; intros H;
    repeat (destruct H as [<- | H]; [reflexivity |]); destruct H.
Qed.

Lemma categorize_in_listed (e : string) (c : Category) :
  categorize_in file_categories e = c -> c <> other ->
  In e (extensions_of c).
Proof.
  unfold file_categories. cbn [categorize_in]. intros H Hne.
  repeat match type of H with
         | (if in_list e ?l then _ else _) = _ =>
             let E := fresh "E" in
             destruct (in_list e l) eqn:E;
             [subst c; apply in_list_iff in E; exact E |]
         end.
  congruence.
Qed.

Lemma categorize_in_other (e : string) :
  categorize_in file_categories e = other ->
  forall c, ~ In e (extensions_of c).
Proof.
  intros Ho c Hin. pose proof (extension_listed c e Hin) as Hc.
  rewrite Ho in Hc. subst c. exact Hin.
Qed.

Lemma extension_in_category (c : Category) (f : File) :
  c <> other ->
  extension_in (extensions_of c) f
  = category_eqb (categorize_file (path f)) c.
Proof.
  intros Hne. unfold extension_in, categorize_file.
  destruct (category_eqb _ c) eqn:E.
  - apply category_eqb_eq in E. apply in_list_iff.
    now apply categorize_in_listed.
  - destruct (in_list _ (extensions_of c)) eqn:Ei; [| reflexivity].
    apply in_list_iff, extension_listed in Ei.
    apply (proj2 (category_eqb_eq _ _)) in Ei. congruence.
Qed.

Lemma target_category_not_other (query : string) (c : Category) :
  target_category query = Some c -> c <> other.
Proof.
  unfold target_category, type_keywords. cbn [target_category_in].
  intros H.
  repeat match type of H with
         | (if ?b then _ else _) = _ =>
             destruct b; [inversion H; discriminate |]
         end.
  discriminate.
Qed.

End CategoryTable.

(** X5. The extension table is coherent: a path falls in a category
    other than [other] exactly when its lowercase extension is listed
    under that category (no extension is listed twice), and in [other]
    exactly when its extension is listed nowhere. *)
Theorem X5_category_is_the_listing_of_the_extension (p : Path)
  (c : Category) :
  (c <> other ->
   (categorize_file p = c <-> In (lower (suffix p)) (extensions_of c)))
  /\ (categorize_file p = other
      <-> forall c', ~ In (lower (suffix p)) (extensions_of c')).
Proof.
  unfold categorize_file. split.
  - intros Hne. split.
    + intros H. now apply categorize_in_listed.
    + apply extension_listed.
  - split; [apply categorize_in_other |].
    intros Hnone.
    destruct (categorize_in file_categories (lower (suffix p))) eqn:E;
      try reflexivity;
      exfalso; eapply Hnone; eapply categorize_in_listed; eauto; discriminate.
Qed.

(** X6. When [stat()] answers for the files met and a type keyword
    occurs in the query, the type strategy returns exactly the non-empty
    regular files that [categorize_file] puts in the keyword's category,
    and that category is never [other]. *)
Theorem X6_type_search_returns_the_category (query : string)
  (search_dirs : list Dir) (c : Category) :
  statable search_dirs ->
  target_category query = Some c ->
  c <> other
  /\ search_by_file_type query search_dirs
     = Ok (filter
             (fun f => nonempty_file f
                       && category_eqb (categorize_file (path f)) c)
             (walk search_dirs)).
Proof.
  intros Hst Ht.
  pose proof (target_category_not_other query c Ht) as Hne.
  split; [exact Hne |].
  rewrite (search_by_file_type_ok search_dirs Hst query c Ht).
  f_equal. apply filter_ext. intros f.
  now rewrite extension_in_category.
Qed.

Lemma X6_type_search_returns_the_category_witness :
  video <> other
  /\ search_by_file_type "my movie" [sample_dir]
     = Ok (filter
             (fun f => nonempty_file f
                       && category_eqb (categorize_file (path f)) video)
             (walk [sample_dir])).
Proof.
  apply (X6_type_search_returns_the_category "my movie" [sample_dir] video).
  - exact sample_dir_statable.
  - reflexivity.
Defined.

(** ** Further properties: what a search returns, and when *)

Section SearchSound.

Lemma select_sound (keep : File -> result bool) (files : list File) :
  forall results selected,
    select keep files results = Ok selected ->
    forall f, In f selected ->
              In f results \/ (In f files /\ keep f = Ok true).
Proof.
  induction files as [|x files IH]; intros results selected Hs f Hf;
    cbn [select] in Hs.
  - inversion Hs; subst. now left.
  - destruct (keep x) as [b | e] eqn:Ex; [| discriminate]. cbn [bind] in Hs.
    destruct b.
    + destruct (IH _ _ Hs f Hf) as [H | [H1 H2]].
      * apply in_app_or in H. destruct H as [H | [<- | []]]; [now left |].
        right. split; [now left | assumption].
      * right. split; [now right | assumption].
    + destruct (IH _ _ Hs f Hf) as [H | [H1 H2]]; [now left |].
      right. split; [now right | assumption].
Qed.

Lemma select_answers (keep : File -> result bool) (files : list File) :
  forall results selected,
    select keep files results = Ok selected ->
    forall f, In f files -> exists b, keep f = Ok b.
Proof.
  induction files as [|x files IH]; intros results selected Hs f Hf;
    [destruct Hf |].
  cbn [select] in Hs.
  destruct (keep x) as [b | e] eqn:Ex; [| discriminate]. cbn [bind] in Hs.
  destruct Hf as [<- | Hf]; [now exists b |].
  destruct b; eapply IH; eauto.
Qed.

Lemma scan_sound (keep : File -> result bool) (search_dirs : list Dir) :
  forall results selected,
    scan keep search_dirs results = Ok selected ->
    forall f, In f selected ->
              In f results \/ (In f (walk search_dirs) /\ keep f = Ok true).
Proof.
  induction search_dirs as [|d ds IH]; intros results selected Hs f Hf;
    cbn [scan] in Hs.
  - inversion Hs; subst. now left.
  - cbn [walk flat_map]. fold (walk ds). destruct (dir_exists d).
    + destruct (select keep (rglob d) results) as [mid |] eqn:Em;
        [| discriminate].
      cbn [bind] in Hs. destruct (IH _ _ Hs f Hf) as [H | [H1 H2]].
      * destruct (select_sound _ _ _ _ Em f H) as [H' | [H1 H2]];
          [now left |].
        right. split; [apply in_or_app; now left | assumption].
      * right. split; [apply in_or_app; now right | assumption].
    + cbn [app]. now apply (IH results selected).
Qed.

Lemma scan_answers (keep : File -> result bool) (search_dirs : list Dir) :
  forall results selected,
    scan keep search_dirs results = Ok selected ->
    forall f, In f (walk search_dirs) -> exists b, keep f = Ok b.
Proof.
  induction search_dirs as [|d ds IH]; intros results selected Hs f Hf;
    [destruct Hf |].
  cbn [scan] in Hs. cbn [walk flat_map] in Hf. fold (walk ds) in Hf.
  destruct (dir_exists d).
  - destruct (select keep (rglob d) results) as [mid |] eqn:Em;
      [| discriminate].
    cbn [bind] in Hs. apply in_app_or in Hf. destruct Hf as [Hf | Hf].
    + eapply select_answers; eauto.
    + eapply IH; eauto.
  - cbn [app] in Hf. eapply IH; eauto.
Qed.

Lemma content_select_sound (query : string) (files : list File) :
  forall opened results opened' selected,
    content_select query files opened results = (opened', Ok selected) ->
    forall f, In f selected ->
              In f results \/ (In f files /\ openable f = true).
Proof.
  induction files as [|x files IH];
    intros opened results opened' selected Hs f Hf; cbn [content_select] in Hs.
  - inversion Hs; subst. now left.
  - assert (Hskip : forall o,
               content_select query files o results = (opened', Ok selected) ->
               In f results \/ (In f (x :: files) /\ openable f = true)).
    { intros o H. destruct (IH _ _ _ _ H f Hf) as [H' | [H1 H2]];
        [now left |].
      right. split; [now right | assumption]. }
    destruct (is_file x && in_list (lower (suffix (path x))) text_extensions)
      eqn:E1; [| now apply (Hskip opened)].
    destruct (stat x) as [st | e] eqn:Est; [| discriminate].
    destruct ((0 <? st_size st)%Z && (st_size st <? 1024 * 1024)%Z) eqn:E2;
      [| now apply (Hskip opened)].
    assert (Hopen : openable x = true)
      by (rewrite (openable_stat x st Est), E1, E2; reflexivity).
    destruct (content x) as [text |]; [| now apply (Hskip (opened ++ [path x]))].
    destruct (contains query (lower text));
      [| now apply (Hskip (opened ++ [path x]))].
    destruct (IH _ _ _ _ Hs f Hf) as [H | [H1 H2]].
    + apply in_app_or in H. destruct H as [H | [<- | []]]; [now left |].
      right. split; [now left | assumption].
    + right. split; [now right | assumption].
Qed.

Lemma content_scan_sound (query : string) (search_dirs : list Dir) :
  forall opened results opened' selected,
    content_scan query search_dirs opened results = (opened', Ok selected) ->
    forall f, In f selected ->
              In f results \/ (In f (walk search_dirs) /\ openable f = true).
Proof.
  induction search_dirs as [|d ds IH];
    intros opened results opened' selected Hs f Hf; cbn [content_scan] in Hs.
  - inversion Hs; subst. now left.
  - cbn [walk flat_map]. fold (walk ds). destruct (dir_exists d).
    + destruct (content_select query (rglob d) opened results)
        as [o [mid | e]] eqn:Em; [| discriminate].
      destruct (IH _ _ _ _ Hs f Hf) as [H | [H1 H2]].
      * destruct (content_select_sound _ _ _ _ _ _ Em f H) as [H' | [H1 H2]];
          [now left |].
        right. split; [apply in_or_app; now left | assumption].
      * right. split; [apply in_or_app; now right | assumption].
    + cbn [app]. now apply (IH opened results opened' selected).
Qed.

(** A hit of any strategy is a non-empty regular file. *)
Lemma hit_nonempty (f : File) (k : Stat -> bool) :
  (forall st, k st = true -> (0 <? st_size st)%Z = true) ->
  (if is_file f then st <- stat f ;; Ok (k st) else Ok false) = Ok true ->
  nonempty_file f = true.
Proof.
  intros Hk. unfold nonempty_file, size_of.
  destruct (is_file f); [| discriminate].
  destruct (stat f) as [st | e]; cbn [bind]; [| discriminate].
  intros E. inversion E as [E']. rewrite E'. now rewrite (Hk st E').
Qed.

Lemma filename_hit_nonempty (query : string) (f : File) :
  filename_hit query f = Ok true -> nonempty_file f = true.
Proof.
  apply hit_nonempty. intros st H. apply andb_true_iff in H. tauto.
Qed.

Lemma type_hit_nonempty (extensions : list string) (f : File) :
  type_hit extensions f = Ok true -> nonempty_file f = true.
Proof.
  unfold type_hit, nonempty_file, size_of. destruct (is_file f); [| discriminate].
  destruct (in_list _ _); cbn [andb]; [| discriminate].
  destruct (stat f) as [st | e]; cbn [bind]; [| discriminate].
  intros E. now inversion E.
Qed.

Lemma recent_hit_nonempty (now : Z) (f : File) :
  recent_hit now f = Ok true -> nonempty_file f = true.
Proof.
  unfold recent_hit, nonempty_file, size_of. destruct (is_file f); [| discriminate].
  destruct (stat f) as [st | e]; cbn [bind]; [| discriminate].
  destruct (0 <? st_size st)%Z; [reflexivity | discriminate].
Qed.

Lemma old_hit_nonempty (now : Z) (f : File) :
  old_hit now f = Ok true -> nonempty_file f = true.
Proof.
  unfold old_hit, nonempty_file, size_of. destruct (is_file f); [| discriminate].
  destruct (stat f) as [st | e]; cbn [bind]; [| discriminate].
  destruct (0 <? st_size st)%Z; [reflexivity | discriminate].
Qed.

Lemma large_hit_nonempty (f : File) :
  large_hit f = Ok true -> nonempty_file f = true.
Proof.
  apply hit_nonempty. intros st H. apply Z.ltb_lt in H. apply Z.ltb_lt. lia.
Qed.

Lemma small_hit_nonempty (f : File) :
  small_hit f = Ok true -> nonempty_file f = true.
Proof.
  apply hit_nonempty. intros st H. apply andb_true_iff in H. tauto.
Qed.

Lemma scan_nonempty (keep : File -> result bool) (search_dirs : list Dir)
  (selected : list File) :
  (forall f, keep f = Ok true -> nonempty_file f = true) ->
  scan keep search_dirs [] = Ok selected ->
  forall f, In f selected ->
            In f (walk search_dirs) /\ nonempty_file f = true.
Proof.
  intros Hk Hs f Hf.
  destruct (scan_sound _ _ _ _ Hs f Hf) as [[] | [H1 H2]]. auto.
Qed.

(** Whatever the five strategies return is a non-empty regular file met
    on the walk. *)
Lemma found_files_sound (now : Z) (query : string) (search_dirs : list Dir)
  (found : list File) :
  found_files now query search_dirs = Ok found ->
  forall f, In f found ->
            In f (walk search_dirs) /\ nonempty_file f = true.
Proof.
  unfold found_files. intros Hfound f Hf.
  destruct (search_by_filename query search_dirs) as [r1 |] eqn:E1;
    [| discriminate]. cbn [bind] in Hfound.
  destruct (search_by_content_keywords query search_dirs) as [r2 |] eqn:E2;
    [| discriminate]. cbn [bind] in Hfound.
  destruct (search_by_file_type query search_dirs) as [r3 |] eqn:E3;
    [| discriminate]. cbn [bind] in Hfound.
  destruct (search_by_date_context now query search_dirs) as [r4 |] eqn:E4;
    [| discriminate]. cbn [bind] in Hfound.
  destruct (search_by_size_context query search_dirs) as [r5 |] eqn:E5;
    [| discriminate]. cbn [bind] in Hfound.
  inversion Hfound; subst; clear Hfound.
  repeat (apply in_app_or in Hf; destruct Hf as [Hf | Hf]).
  - eapply scan_nonempty; [apply filename_hit_nonempty | exact E1 | exact Hf].
  - unfold search_by_content_keywords in E2.
    destruct (content_scan query search_dirs [] []) as [o r] eqn:Ec.
    cbn [snd] in E2. subst r.
    destruct (content_scan_sound _ _ _ _ _ _ Ec f Hf) as [[] | [H1 H2]].
    split; [assumption | now apply openable_nonempty].
  - unfold search_by_file_type in E3.
    destruct (target_category query) as [c |].
    + eapply scan_nonempty; [apply type_hit_nonempty | exact E3 | exact Hf].
    + inversion E3; subst. destruct Hf.
  - unfold search_by_date_context in E4.
    destruct (any_in recent_words query).
    + eapply scan_nonempty; [apply recent_hit_nonempty | exact E4 | exact Hf].
    + destruct (any_in old_words query).
      * eapply scan_nonempty; [apply old_hit_nonempty | exact E4 | exact Hf].
      * inversion E4; subst. destruct Hf.
  - unfold search_by_size_context in E5.
    destruct (any_in large_words query).
    + eapply scan_nonempty; [apply large_hit_nonempty | exact E5 | exact Hf].
    + destruct (any_in small_words query).
      * eapply scan_nonempty; [apply small_hit_nonempty | exact E5 | exact Hf].
      * inversion E5; subst. destruct Hf.
Qed.

Lemma scored_files_positive (prefs : Preferences) (now : Z) (query : string)
  (files : list File) :
  forall scored f s,
    scored_files prefs now query files = Ok scored ->
    In (f, s) scored -> 0 < s.
Proof.
  induction files as [|x files IH]; intros scored f s Hs Hin.
  - inversion Hs; subst. destruct Hin.
  - cbn [scored_files] in Hs.
    destruct (score_of prefs now query x) as [sx |]; [| discriminate].
    cbn [bind] in Hs.
    destruct (scored_files prefs now query files) as [tail |]; [| discriminate].
    cbn [bind] in Hs. inversion Hs; subst; clear Hs.
    destruct (Qlt_bool 0 sx) eqn:E.
    + destruct Hin as [Eq | Hin]; [| now apply (IH tail f s)].
      inversion Eq; subst. now apply Qlt_bool_iff.
    + now apply (IH tail f s).
Qed.

End SearchSound.

(** X7. Whatever a search of either engine returns is a non-empty
    regular file lying under an existing search root, with a strictly
    positive score: directories, empty files and entries of score 0 are
    never returned. *)
Theorem X7_search_returns_only_nonempty_files (prefs : Preferences)
  (now : Z) (search_dirs : list Dir) (query : string) :
  (forall ranked,
      smart_file_search prefs now search_dirs query = Ok ranked ->
      forall f s, In (f, s) ranked ->
                  In f (walk search_dirs) /\ is_file f = true
                  /\ (0 < size_of f)%Z /\ 0 < s)
  /\ (forall ranked,
         smart_search now search_dirs query = Ok ranked ->
         forall f s, In (f, s) ranked ->
                     In f (walk search_dirs) /\ is_file f = true
                     /\ (0 < size_of f)%Z /\ 0 < s).
Proof.
  assert (Hfile : forall found f,
             found_files now (lower query) search_dirs = Ok found ->
             In f (unique_files found) ->
             In f (walk search_dirs) /\ is_file f = true /\ (0 < size_of f)%Z).
  { intros found f Hfound Hf. apply unique_from_In in Hf.
    destruct (found_files_sound _ _ _ _ Hfound f (proj1 Hf)) as [Hw Hne].
    unfold nonempty_file in Hne. apply andb_true_iff in Hne.
    destruct Hne as [Hi Hs]. apply Z.ltb_lt in Hs. auto. }
  split.
  - intros ranked Hr f s Hin. unfold smart_file_search in Hr.
    destruct (found_files now (lower query) search_dirs) as [found |] eqn:Ef;
      [| discriminate].
    cbn [bind] in Hr. unfold rank_search_results in Hr.
    destruct (scored_files prefs now (lower query) (unique_files found))
      as [scored |] eqn:Es; [| discriminate].
    cbn [bind] in Hr. inversion Hr; subst; clear Hr.
    apply (Permutation_in _ (sorted_by_score_perm scored)) in Hin.
    pose proof (scored_files_In _ _ _ _ _ _ _ Es Hin) as Hf.
    pose proof (scored_files_positive _ _ _ _ _ _ _ Es Hin) as Hs.
    destruct (Hfile found f eq_refl Hf) as (H1 & H2 & H3). auto.
  - intros ranked Hr f s Hin. unfold smart_search in Hr.
    destruct (found_files now (lower query) search_dirs) as [found |] eqn:Ef;
      [| discriminate].
    cbn [bind] in Hr.
    assert (E : ranked
                = firstn 20 (_rank_search_results now (unique_files found)
                               (lower query))) by congruence.
    rewrite E in Hin. apply firstn_incl in Hin.
    unfold _rank_search_results in Hin. rewrite _scored_files_eq in Hin.
    apply (Permutation_in _ (sorted_by_score_perm _)) in Hin.
    apply positive_entries_In in Hin. destruct Hin as (Hf & _ & Hs).
    destruct (Hfile found f eq_refl Hf) as (H1 & H2 & H3). auto.
Qed.

(** ** Further properties: when a search cannot return *)

Section SearchReturns.

(** The filename strategy asks [stat()] of every regular file. *)
Lemma found_files_statable (now : Z) (query : string)
  (search_dirs : list Dir) (found : list File) :
  found_files now query search_dirs = Ok found -> statable search_dirs.
Proof.
  unfold found_files. intros Hfound f Hf Hfile.
  destruct (search_by_filename query search_dirs) as [r1 |] eqn:E1;
    [| discriminate].
  unfold search_by_filename in E1.
  destruct (scan_answers _ _ _ _ E1 f Hf) as [b Hb].
  unfold filename_hit in Hb. rewrite Hfile in Hb.
  destruct (stat f) as [st | e]; [now exists st | discriminate].
Qed.

End SearchReturns.

(** X8. One regular file whose [stat()] raises makes every search
    raise, whatever the query: the filename strategy runs first and asks
    [stat()] of every regular file under the existing roots, outside any
    [try]. *)
Theorem X8_unreadable_file_fails_every_search (prefs : Preferences)
  (now : Z) (search_dirs : list Dir) (query : string) (f : File) (e : exn) :
  In f (walk search_dirs) ->
  is_file f = true ->
  stat f = Raise e ->
  (exists e', search_by_filename (lower query) search_dirs = Raise e')
  /\ (exists e', smart_file_search prefs now search_dirs query = Raise e')
  /\ (exists e', smart_search now search_dirs query = Raise e').
Proof.
  intros Hin Hfile Hstat.
  assert (Hfound : exists e', found_files now (lower query) search_dirs
                              = Raise e').
  { destruct (found_files now (lower query) search_dirs) as [found | e']
      eqn:Ef; [| now exists e'].
    destruct (found_files_statable _ _ _ _ Ef f Hin Hfile) as [st Hst].
    congruence. }
  split; [| split].
  - destruct (search_by_filename (lower query) search_dirs) as [r | e']
      eqn:Es; [| now exists e'].
    unfold search_by_filename in Es.
    destruct (scan_answers _ _ _ _ Es f Hin) as [b Hb].
    unfold filename_hit in Hb. rewrite Hfile, Hstat in Hb. discriminate.
  - destruct Hfound as [e' He']. exists e'.
    unfold smart_file_search. now rewrite He'.
  - destruct Hfound as [e' He']. exists e'.
    unfold smart_search. now rewrite He'.
Qed.

Lemma X8_unreadable_file_fails_every_search_witness :
  (exists e', search_by_filename (lower "Kept") [vanishing_dir] = Raise e')
  /\ (exists e',
         smart_file_search sample_prefs sample_now [vanishing_dir] "Kept"
         = Raise e')
  /\ (exists e', smart_search sample_now [vanishing_dir] "Kept" = Raise e').
Proof.
  apply (X8_unreadable_file_fails_every_search sample_prefs sample_now
           [vanishing_dir] "Kept" gone_txt OSError).
  - cbn. right. now left.
  - reflexivity.
  - reflexivity.
Defined.

(** ** Further properties: suggestions *)

Section SuggestionFacts.

Lemma storage_threshold (total : Z) :
  Qlt_bool 1000 (inject_Z total / inject_Z (1024 * 1024))
  = (1000 * 1024 * 1024 <? total)%Z.
Proof.
  destruct (Z.ltb_spec (1000 * 1024 * 1024) total) as [H | H].
  - apply Qlt_bool_iff. unfold Qlt, Qdiv, Qmult, Qinv, inject_Z.
    cbn [Qnum Qden]. cbn. lia.
  - apply Qlt_bool_false_iff. unfold Qle, Qdiv, Qmult, Qinv, inject_Z.
    cbn [Qnum Qden]. cbn. lia.
Qed.

Lemma max_item_spec (items : list (Category * Z)) :
  forall best,
    In (max_item best items) (best :: items)
    /\ forall kv, In kv (best :: items) ->
                  (snd kv <= snd (max_item best items))%Z.
Proof.
  induction items as [|kv items IH]; intros best; cbn [max_item].
  - split; [now left |]. intros kv [<- | []]. lia.
  - destruct (Z.ltb_spec (snd best) (snd kv)) as [Hlt | Hge].
    + destruct (IH kv) as [Hin Hmax]. split.
      * destruct Hin as [E | Hin]; [right; now left | right; now right].
      * intros x [<- | [<- | Hx]].
        -- specialize (Hmax kv (or_introl eq_refl)). lia.
        -- apply Hmax. now left.
        -- apply Hmax. now right.
    + destruct (IH best) as [Hin Hmax]. split.
      * destruct Hin as [E | Hin]; [now left | right; now right].
      * intros x [<- | [<- | Hx]].
        -- apply Hmax. now left.
        -- specialize (Hmax best (or_introl eq_refl)). lia.
        -- apply Hmax. now right.
Qed.

Lemma largest_item_spec (d : DefaultDict Z) :
  d <> [] ->
  exists c v,
    largest_item d = Ok (c, v)
    /\ In (c, v) d
    /\ forall kv, In kv d -> (snd kv <= v)%Z.
Proof.
  destruct d as [|kv rest]; [contradiction |]. intros _.
  destruct (max_item_spec rest kv) as [Hin Hmax].
  destruct (max_item kv rest) as [c v] eqn:E.
  exists c, v. cbn [largest_item]. rewrite E. auto.
Qed.

Lemma scan_all_size_sum (scan_dirs : list Dir) :
  sum_values (size_stats (scan_all scan_dirs)) = total_size (scan_all scan_dirs).
Proof.
  unfold scan_all.
  rewrite (scan_additive (fun acc => sum_values (size_stats acc))
             (fun f => if counted f then size_of f else 0)%Z).
  - rewrite (scan_additive total_size
               (fun f => if counted f then size_of f else 0)%Z);
      [reflexivity |].
    intros d acc f. destruct (observe_cases d acc f) as [[-> ->] | [-> ->]];
      cbn [total_size]; lia.
  - intros d acc f. destruct (observe_cases d acc f) as [[-> ->] | [-> ->]];
      cbn [size_stats]; [lia | apply sum_values_update].
Qed.

Lemma suggestion_types (format_1f : Q -> string)
  (file_stats size_stats : DefaultDict Z) :
  exists suggestions,
    generate_smart_suggestions format_1f file_stats size_stats = Ok suggestions
    /\ map type suggestions
       = (if (1000 * 1024 * 1024 <? sum_values size_stats)%Z
          then ["storage_optimization"%string] else [])
         ++ (if (20 <? dd_get 0%Z file_stats other)%Z
             then ["organization"%string] else [])
         ++ (if (5 <? dd_get 0%Z file_stats archives)%Z
             then ["cleanup"%string] else []).
Proof.
  unfold generate_smart_suggestions. rewrite storage_threshold.
  destruct (Z.ltb_spec (1000 * 1024 * 1024) (sum_values size_stats))
    as [Hbig | Hsmall].
  - assert (Hne : size_stats <> []).
    { intros ->. cbn in Hbig. lia. }
    destruct (largest_item_spec size_stats Hne) as (c & v & -> & Hin & Hmax).
    cbn [bind fst snd app].
    eexists. split; [reflexivity |].
    destruct (20 <? dd_get 0%Z file_stats other)%Z;
      destruct (5 <? dd_get 0%Z file_stats archives)%Z; reflexivity.
  - cbn [bind app]. eexists. split; [reflexivity |].
    destruct (20 <? dd_get 0%Z file_stats other)%Z;
      destruct (5 <? dd_get 0%Z file_stats archives)%Z; reflexivity.
Qed.

Lemma scan_all_file_count (scan_dirs : list Dir) (c : Category) :
  dd_get 0%Z (file_stats (scan_all scan_dirs)) c
  = Z.of_nat (List.length (filter (observed c) (walk scan_dirs))).
Proof.
  unfold scan_all.
  rewrite (scan_additive (fun acc => dd_get 0%Z (file_stats acc) c)
             (fun f => if observed c f then 1 else 0)%Z).
  - rewrite sum_over_filter, sum_over_ones. reflexivity.
  - intros d acc f. rewrite observed_counted.
    destruct (observe_cases d acc f) as [[-> ->] | [-> ->]];
      cbn [file_stats andb]; [lia |].
    rewrite dd_get_update.
    destruct (category_eqb (categorize_file (path f)) c) eqn:E; [| lia].
    apply category_eqb_eq in E. now rewrite E.
Qed.

End SuggestionFacts.

(** X9. The suggestions never fail and come in a fixed order, each at
    most once: the storage suggestion exactly when the category sizes sum
    to more than 1000 MiB (1,048,576,000 bytes), the organization
    suggestion exactly when more than 20 files are uncategorized, the
    cleanup suggestion exactly when there are more than 5 archives; the
    storage suggestion names a category of greatest size.  ([max] is only
    asked of a non-empty dictionary.) *)
Theorem X9_suggestions_follow_the_thresholds (format_1f : Q -> string)
  (file_stats size_stats : DefaultDict Z) :
  exists suggestions,
    generate_smart_suggestions format_1f file_stats size_stats = Ok suggestions
    /\ map type suggestions
       = (if (1000 * 1024 * 1024 <? sum_values size_stats)%Z
          then ["storage_optimization"%string] else [])
         ++ (if (20 <? dd_get 0%Z file_stats other)%Z
             then ["organization"%string] else [])
         ++ (if (5 <? dd_get 0%Z file_stats archives)%Z
             then ["cleanup"%string] else [])
    /\ map priority suggestions
       = (if (1000 * 1024 * 1024 <? sum_values size_stats)%Z
          then ["medium"%string] else [])
         ++ (if (20 <? dd_get 0%Z file_stats other)%Z
             then ["high"%string] else [])
         ++ (if (5 <? dd_get 0%Z file_stats archives)%Z
             then ["low"%string] else [])
    /\ ((1000 * 1024 * 1024 < sum_values size_stats)%Z ->
        exists c v,
          In (c, v) size_stats
          /\ (forall kv, In kv size_stats -> (snd kv <= v)%Z)
          /\ option_map message (hd_error suggestions)
             = Some ("Your " ++ category_name c ++ " files are using "
                     ++ format_1f (inject_Z v / inject_Z (1024 * 1024))
                     ++ "MB. Consider archiving old files.")%string).
Proof.
  unfold generate_smart_suggestions. rewrite storage_threshold.
  destruct (Z.ltb_spec (1000 * 1024 * 1024) (sum_values size_stats))
    as [Hbig | Hsmall].
  - assert (Hne : size_stats <> []).
    { intros ->. cbn in Hbig. lia. }
    destruct (largest_item_spec size_stats Hne) as (c & v & -> & Hin & Hmax).
    cbn [bind fst snd app].
    eexists. split; [reflexivity |].
    destruct (20 <? dd_get 0%Z file_stats other)%Z;
      destruct (5 <? dd_get 0%Z file_stats archives)%Z;
      (split; [reflexivity |]; split; [reflexivity |];
       intros _; exists c, v; split; [exact Hin |];
       split; [exact Hmax | reflexivity]).
  - cbn [bind app]. eexists. split; [reflexivity |].
    destruct (20 <? dd_get 0%Z file_stats other)%Z;
      destruct (5 <? dd_get 0%Z file_stats archives)%Z;
      (split; [reflexivity |]; split; [reflexivity |]; intros H; lia).
Qed.

(** X10. Once the scan loop has completed, generating the suggestions
    from its counters does not fail, and they follow what the analysis
    reports: the storage suggestion appears exactly when the reported
    total size exceeds 1000 MiB, the organization suggestion exactly when
    more than 20 counted files fall in no category, the cleanup
    suggestion exactly when more than 5 counted files are archives. *)
Theorem X10_suggestions_follow_the_reported_totals
  (format_1f : Q -> string) (scan_dirs : list Dir) :
  let a := scan_all scan_dirs in
  exists suggestions,
    generate_smart_suggestions format_1f (file_stats a) (size_stats a)
    = Ok suggestions
    /\ (In "storage_optimization"%string (map type suggestions)
        <-> (1000 * 1024 * 1024 < total_size a)%Z)
    /\ (In "organization"%string (map type suggestions)
        <-> (20 < List.length
                    (filter (observed other) (walk scan_dirs)))%nat)
    /\ (In "cleanup"%string (map type suggestions)
        <-> (5 < List.length
                   (filter (observed archives) (walk scan_dirs)))%nat).
Proof.
  intros a.
  destruct (suggestion_types format_1f (file_stats a) (size_stats a))
    as (suggestions & Hgen & Htypes).
  exists suggestions. split; [exact Hgen |].
  rewrite Htypes. unfold a.
  rewrite scan_all_size_sum, !scan_all_file_count.
  destruct (Z.ltb_spec (1000 * 1024 * 1024) (total_size (scan_all scan_dirs)))
    as [H1 | H1];
    destruct (Z.ltb_spec 20
                (Z.of_nat (List.length
                             (filter (observed other) (walk scan_dirs)))))
      as [H2 | H2];
    destruct (Z.ltb_spec 5
                (Z.of_nat (List.length
                             (filter (observed archives) (walk scan_dirs)))))
      as [H3 | H3];
    cbn [app In];
    (split; [| split]);
    (split;
     [ intros H; repeat (destruct H as [H | H]; try discriminate H);
       try lia; try (exfalso; exact H)
     | intros H; try lia; auto ]).
Qed.

(** ** Further properties: the interactive loop *)

Section CommandFacts.

Local Open Scope string_scope.

Lemma is_space_lower_char (c : ascii) : is_space (lower_char c) = is_space c.
Proof.
  destruct c as [[] [] [] [] [] [] [] []]; reflexivity.
Qed.

Lemma lower_char_idem (c : ascii) : lower_char (lower_char c) = lower_char c.
Proof.
  destruct c as [[] [] [] [] [] [] [] []]; reflexivity.
Qed.

Lemma lower_idem (s : string) : lower (lower s) = lower s.
Proof.
  induction s as [|c s IH]; [reflexivity |].
  cbn [lower]. now rewrite lower_char_idem, IH.
Qed.

Lemma lower_drop (n : nat) :
  forall s, lower (drop n s) = drop n (lower s).
Proof.
  induction n as [|n IH]; intros s; [reflexivity |].
  destruct s as [|c s]; [reflexivity |]. cbn [drop lower]. apply IH.
Qed.

Lemma last_char_lower (s : string) :
  last_char (lower s) = option_map lower_char (last_char s).
Proof.
  induction s as [|c s IH]; [reflexivity |].
  destruct s as [|d s]; [reflexivity |].
  change (last_char (lower (String d s))
          = option_map lower_char (last_char (String d s))).
  exact IH.
Qed.

Lemma last_char_rstrip (s : string) (c : ascii) :
  last_char (rstrip s) = Some c -> is_space c = false.
Proof.
  induction s as [|x s IH]; [discriminate |].
  cbn [rstrip]. destruct (rstrip s) as [|d r].
  - destruct (is_space x) eqn:Ex; [discriminate |].
    intros H. inversion H; subst. exact Ex.
  - exact IH.
Qed.

Lemma last_char_append (a b : string) :
  b <> "" -> last_char (a ++ b) = last_char b.
Proof.
  intros Hb. induction a as [|x a IH]; [reflexivity |].
  cbn [append]. destruct (a ++ b) as [|d r] eqn:E.
  - destruct a; [cbn in E; contradiction | discriminate].
  - exact IH.
Qed.

Lemma drop_append (a b : string) : drop (String.length a) (a ++ b) = b.
Proof. induction a as [|x a IH]; [now destruct b | exact IH]. Qed.

(** A stripped, lowercased line that starts with ["search "] goes on
    after it. *)
Lemma search_has_query (line : string) :
  String.prefix "search " (lower (strip line)) = true ->
  drop 7 (lower (strip line)) <> ""
  /\ lower (strip line) = "search " ++ drop 7 (lower (strip line)).
Proof.
  intros Hp. apply prefix_iff in Hp. destruct Hp as [rest Hrest].
  rewrite Hrest. change 7%nat with (String.length "search ").
  rewrite drop_append. split; [| reflexivity].
  intros ->. rewrite append_nil_r in Hrest.
  assert (Hlast : last_char (lower (strip line)) = Some " "%char)
    by now rewrite Hrest.
  rewrite last_char_lower in Hlast. unfold strip in Hlast.
  destruct (last_char (rstrip (lstrip line))) as [c |] eqn:Ec;
    [| discriminate].
  apply last_char_rstrip in Ec. cbn [option_map] in Hlast.
  inversion Hlast as [Hc].
  rewrite <- is_space_lower_char, Hc in Ec. discriminate.
Qed.

Lemma interactive_command_search (line query : string) :
  interactive_command line = Search query ->
  query <> ""
  /\ lower query = query
  /\ forall c, last_char query = Some c -> is_space c = false.
Proof.
  unfold interactive_command.
  destruct (String.eqb _ "quit"); [discriminate |].
  destruct (String.eqb _ "analyze"); [discriminate |].
  destruct (String.prefix "search " (lower (strip line))) eqn:Ep.
  - destruct (search_has_query line Ep) as [Hne Hcmd].
    destruct (drop 7 (lower (strip line))) as [|x q] eqn:Eq;
      [contradiction |].
    intros H. inversion H; subst query; clear H.
    split; [discriminate |]. split.
    + rewrite <- Eq, lower_drop, lower_idem. reflexivity.
    + intros c Hc.
      rewrite <- (last_char_append "search " (String x q)) in Hc
        by discriminate.
      rewrite <- Hcmd, last_char_lower in Hc. unfold strip in Hc.
      destruct (last_char (rstrip (lstrip line))) as [d |] eqn:Ed;
        [| discriminate].
      apply last_char_rstrip in Ed. inversion Hc; subst c.
      now rewrite is_space_lower_char.
  - destruct (String.eqb _ "organize"); [discriminate |].
    destruct (String.eqb _ "insights"); [discriminate |].
    destruct (String.eqb _ "suggestions"); discriminate.
Qed.

Lemma interactive_command_asks_never (line : string) :
  interactive_command line <> AskForQuery.
Proof.
  unfold interactive_command.
  destruct (String.eqb _ "quit"); [discriminate |].
  destruct (String.eqb _ "analyze"); [discriminate |].
  destruct (String.prefix "search " (lower (strip line))) eqn:Ep.
  - destruct (search_has_query line Ep) as [Hne _].
    destruct (drop 7 (lower (strip line))); [contradiction | discriminate].
  - destruct (String.eqb _ "organize"); [discriminate |].
    destruct (String.eqb _ "insights"); [discriminate |].
    destruct (String.eqb _ "suggestions"); discriminate.
Qed.

Lemma interactive_actions (lines : list string) (a : Action) :
  In a (interactive_file_intelligence lines) ->
  exists line, In line lines /\ interactive_command line = a.
Proof.
  induction lines as [|line lines IH]; [intros [] |].
  cbn [interactive_file_intelligence].
  destruct (interactive_command line) eqn:E;
    try (intros [<- | H];
         [exists line; split; [now left | assumption]
         | destruct (IH H) as (l & Hl & Hc); exists l; split;
           [now right | assumption]]).
  intros [<- | []]. exists line. split; [now left | assumption].
Qed.

End CommandFacts.

(** X11. The interactive loop never asks for a missing search query:
    the line is stripped before it is tested, so a command that starts
    with "search " always carries a query.  Every query it searches for
    is non-empty, lowercase and does not end in white space; the branch
    that prints "Please provide a search query" is dead. *)
Theorem X11_interactive_search_always_has_a_query (lines : list string) :
  ~ In AskForQuery (interactive_file_intelligence lines)
  /\ forall query,
       In (Search query) (interactive_file_intelligence lines) ->
       query <> ""%string
       /\ lower query = query
       /\ forall c, last_char query = Some c -> is_space c = false.
Proof.
  split.
  - intros H. apply interactive_actions in H. destruct H as (line & _ & Hc).
    now apply interactive_command_asks_never in Hc.
  - intros query H. apply interactive_actions in H.
    destruct H as (line & _ & Hc).
    now apply interactive_command_search in Hc.
Qed.

(** ** Further properties: the moves of the organizer *)

Section MoveFacts.

Variables (home : Path) (prefs : Preferences) (writable : Path -> bool).

Lemma NoDup_snoc {A : Type} (l : list A) (x : A) :
  NoDup l -> ~ In x l -> NoDup (l ++ [x]).
Proof.
  induction l as [|y l IH]; intros Hnd Hx; cbn [app].
  - constructor; [intros [] | constructor].
  - inversion Hnd as [|? ? Hy Hl]; subst. constructor.
    + rewrite in_app_iff. intros [H | [E | []]]; [contradiction |].
      subst. apply Hx. now left.
    + apply IH; [assumption |]. intros H. apply Hx. now right.
Qed.

(** What one round of the loop does. *)
Lemma organize_one_cases (acc : Organized) (f : File) :
  (organize_one home prefs writable acc f = acc
   /\ ~ (exists pref target_dir,
            prefs (categorize_file (path f)) = Some pref
            /\ lookup (preferred_location pref) (location_mapping home)
               = Some target_dir
            /\ writable target_dir = true))
  \/ (exists pref target_dir dst,
         prefs (categorize_file (path f)) = Some pref
         /\ lookup (preferred_location pref) (location_mapping home)
            = Some target_dir
         /\ writable target_dir = true
         /\ parent dst = target_dir
         /\ ~ In dst (existing acc)
         /\ organize_one home prefs writable acc f
            = mkOrganized (moves acc ++ [(path f, dst)])
                (S (organized_count acc))
                (dst :: remove Path_eq_dec (path f) (existing acc))).
Proof.
  unfold organize_one.
  destruct (prefs (categorize_file (path f))) as [pref |] eqn:Ep.
  - destruct (lookup (preferred_location pref) (location_mapping home))
      as [target_dir |] eqn:El.
    + destruct (writable target_dir) eqn:Ew.
      * right. exists pref, target_dir.
        eexists. repeat (split; [eassumption || reflexivity |]).
        split; [apply free_target_parent, parent_joinpath |].
        split; [apply free_target_fresh | reflexivity].
      * left. split; [reflexivity |].
        intros (p & t & Hp & Hl & Hw). congruence.
    + left. split; [reflexivity |].
      intros (p & t & Hp & Hl & Hw). congruence.
  - left. split; [reflexivity |].
    intros (p & t & Hp & Hl & Hw). congruence.
Qed.

Lemma organize_moves_grow (files : list File) :
  forall acc m,
    In m (moves acc) ->
    In m (moves (fold_left (organize_one home prefs writable) files acc)).
Proof.
  induction files as [|f files IH]; intros acc m Hm; cbn [fold_left];
    [assumption |].
  apply IH. destruct (organize_one_cases acc f)
    as [[-> _] | (p & t & dst & _ & _ & _ & _ & _ & ->)]; [assumption |].
  cbn [moves]. apply in_or_app. now left.
Qed.

(** A file is moved exactly when its category has a learned location
    that is mapped to a writable directory. *)
Lemma organize_moved_iff (files : list File) :
  forall acc src,
    (exists dst,
        In (src, dst)
          (moves (fold_left (organize_one home prefs writable) files acc)))
    <-> (exists dst, In (src, dst) (moves acc))
        \/ (In src (map path files)
            /\ exists pref target_dir,
                 prefs (categorize_file src) = Some pref
                 /\ lookup (preferred_location pref) (location_mapping home)
                    = Some target_dir
                 /\ writable target_dir = true).
Proof.
  induction files as [|f files IH]; intros acc src; cbn [fold_left map In].
  - split; [intros H; now left | intros [H | [[] _]]; exact H].
  - rewrite IH. clear IH.
    destruct (organize_one_cases acc f)
      as [[-> Hno] | (p & t & dst & Hp & Hl & Hw & _ & _ & ->)].
    + split.
      * intros [H | [Hin Hc]]; [now left | right; split; [now right | exact Hc]].
      * intros [H | [[E | Hin] Hc]]; [now left | | right; now split].
        subst src. contradiction.
    + cbn [moves]. split.
      * intros [[d Hd] | [Hin Hc]].
        -- apply in_app_or in Hd. destruct Hd as [Hd | [E | []]].
           ++ left. now exists d.
           ++ inversion E; subst. right. split; [now left |].
              now exists p, t.
        -- right. split; [now right | exact Hc].
      * intros [[d Hd] | [[E | Hin] Hc]].
        -- left. exists d. apply in_or_app. now left.
        -- subst src. left. exists dst. apply in_or_app. right. now left.
        -- right. now split.
Qed.

(** The invariant of the loop when every file lies in [Downloads]. *)
Lemma organize_invariant (existing0 : list Path) (files : list File) :
  (forall f, In f files -> parent (path f) = joinpath home "Downloads") ->
  forall acc,
    (forall dst, In dst (map snd (moves acc)) ->
                 In dst (existing acc)
                 /\ parent dst <> joinpath home "Downloads"
                 /\ ~ In dst existing0) ->
    NoDup (map snd (moves acc)) ->
    (forall p, In p existing0 -> parent p <> joinpath home "Downloads" ->
               In p (existing acc)) ->
    organized_count acc = List.length (moves acc) ->
    let done := fold_left (organize_one home prefs writable) files acc in
    (forall dst, In dst (map snd (moves done)) -> ~ In dst existing0)
    /\ NoDup (map snd (moves done))
    /\ organized_count done = List.length (moves done).
Proof.
  induction files as [|f files IH]; intros Hdl acc H1 H2 H3 H4;
    cbn [fold_left].
  - cbv zeta. split; [intros dst Hd; now apply H1 | auto].
  - assert (Hf : parent (path f) = joinpath home "Downloads")
      by (apply Hdl; now left).
    assert (Hrest : forall g, In g files ->
                               parent (path g) = joinpath home "Downloads")
      by (intros g Hg; apply Hdl; now right).
    destruct (organize_one_cases acc f)
      as [[-> _] | (p & t & dst & Hp & Hl & Hw & Hparent & Hfresh & ->)];
      [now apply IH |].
    assert (Hdst : parent dst <> joinpath home "Downloads").
    { rewrite Hparent. eapply location_mapping_not_downloads; eauto. }
    apply IH; try assumption; cbn [moves existing organized_count].
    + intros d Hd. rewrite map_app in Hd. apply in_app_or in Hd.
      destruct Hd as [Hd | [<- | []]].
      * destruct (H1 d Hd) as (Hin & Hpar & Hnew).
        split; [| auto]. right. apply in_in_remove; [| assumption].
        intros E. apply Hpar. now rewrite E.
      * cbn [snd]. split; [now left |]. split; [assumption |].
        intros Hin. apply Hfresh. now apply H3.
    + rewrite map_app. cbn [map snd]. apply NoDup_snoc; [assumption |].
      intros Hin. apply Hfresh. now apply H1.
    + intros q Hq Hpar. right. apply in_in_remove; [| now apply H3].
      intros E. apply Hpar. now rewrite E.
    + rewrite length_app. cbn [List.length]. lia.
Qed.

End MoveFacts.

(** X12. The command line organizer never overwrites a file and never
    sends two files to the same place: when the files it organizes lie
    in [Downloads], the targets of its moves are pairwise different, none
    of them existed before, and the count it returns is the number of
    moves. *)
Theorem X12_moves_never_overwrite (home : Path) (prefs : Preferences)
  (writable : Path -> bool) (downloads : Dir) (existing0 : list Path)
  (done : Organized) :
  auto_organize_files home prefs writable downloads existing0 = Ok done ->
  (forall f, In f (iterdir downloads) ->
             parent (path f) = joinpath home "Downloads") ->
  (forall dst, In dst (map snd (moves done)) -> ~ In dst existing0)
  /\ NoDup (map snd (moves done))
  /\ organized_count done = List.length (moves done).
Proof.
  intros Hdone Hdl. unfold auto_organize_files in Hdone.
  destruct (dir_exists downloads).
  - destruct (select nonempty_hit (iterdir downloads) []) as [files |] eqn:Es;
      [| discriminate].
    cbn [bind] in Hdone. inversion Hdone; subst; clear Hdone.
    apply select_nonempty in Es. cbn [app] in Es.
    apply (organize_invariant home prefs writable existing0 files).
    + intros f Hf. apply Hdl. rewrite Es in Hf. now apply filter_In in Hf.
    + intros dst [].
    + constructor.
    + auto.
    + reflexivity.
  - inversion Hdone; subst. cbn. split; [intros ? [] |].
    split; [constructor | reflexivity].
Qed.

Lemma X12_moves_never_overwrite_witness :
  exists done,
    auto_organize_files home_path picture_prefs (fun _ => true) downloads_dir
      [path holiday_jpg; ["home"; "u"; "Pictures"; "holiday.jpg"]] = Ok done
    /\ moves done
       = [(path holiday_jpg, ["home"; "u"; "Pictures"; "holiday_1.jpg"])]
    /\ (forall dst,
           In dst (map snd (moves done)) ->
           ~ In dst [path holiday_jpg;
                     ["home"; "u"; "Pictures"; "holiday.jpg"]])
    /\ NoDup (map snd (moves done))
    /\ organized_count done = List.length (moves done).
Proof.
  eexists. split; [reflexivity |]. split; [reflexivity |].
  apply (X12_moves_never_overwrite home_path picture_prefs (fun _ => true)
           downloads_dir
           [path holiday_jpg; ["home"; "u"; "Pictures"; "holiday.jpg"]]).
  - reflexivity.
  - intros f [<- | []]. reflexivity.
Defined.

(** X13. When the [Downloads] folder exists and the organizer returns,
    a file of the folder is moved exactly when it is a non-empty regular
    file whose category has a learned preferred location that names one
    of Documents, Pictures, Music and Videos and whose directory can be
    written; every other file stays. *)
Theorem X13_moved_iff_learned_location_is_mapped (home : Path)
  (prefs : Preferences) (writable : Path -> bool) (downloads : Dir)
  (existing0 : list Path) (done : Organized) (src : Path) :
  auto_organize_files home prefs writable downloads existing0 = Ok done ->
  dir_exists downloads = true ->
  (exists dst, In (src, dst) (moves done))
  <-> (exists f, In f (iterdir downloads) /\ nonempty_file f = true
                 /\ path f = src)
      /\ exists pref target_dir,
           prefs (categorize_file src) = Some pref
           /\ lookup (preferred_location pref) (location_mapping home)
              = Some target_dir
           /\ writable target_dir = true.
Proof.
  intros Hdone Hex. unfold auto_organize_files in Hdone. rewrite Hex in Hdone.
  destruct (select nonempty_hit (iterdir downloads) []) as [files |] eqn:Es;
    [| discriminate].
  cbn [bind] in Hdone. inversion Hdone; subst; clear Hdone.
  apply select_nonempty in Es. cbn [app] in Es.
  rewrite organize_moved_iff. cbn [moves]. rewrite Es, in_map_iff. split.
  - intros [[d []] | [(f & Hp & Hf) Hc]]. split; [| exact Hc].
    apply filter_In in Hf. exists f. tauto.
  - intros [(f & Hf & Hne & Hp) Hc]. right. split; [| exact Hc].
    exists f. split; [assumption |]. apply filter_In. tauto.
Qed.

Lemma X13_moved_iff_learned_location_is_mapped_witness :
  exists done,
    auto_organize_files home_path picture_prefs (fun _ => true) downloads_dir
      [path holiday_jpg] = Ok done
    /\ ((exists dst, In (path holiday_jpg, dst) (moves done))
        <-> (exists f, In f (iterdir downloads_dir) /\ nonempty_file f = true
                       /\ path f = path holiday_jpg)
            /\ exists pref target_dir,
                 picture_prefs (categorize_file (path holiday_jpg)) = Some pref
                 /\ lookup (preferred_location pref)
                      (location_mapping home_path) = Some target_dir
                 /\ (fun _ : Path => true) target_dir = true).
Proof.
  eexists. split; [reflexivity |].
  apply (X13_moved_iff_learned_location_is_mapped home_path picture_prefs
           (fun _ => true) downloads_dir [path holiday_jpg]).
  - reflexivity.
  - reflexivity.
Defined.

(** ** Further properties: merging again, and the case of the query *)

Section MergeAgain.

Lemma unique_from_seen_ext (l : list File) :
  forall seen seen',
    (forall p, In p seen <-> In p seen') ->
    unique_from seen l = unique_from seen' l.
Proof.
  induction l as [|x l IH]; intros seen seen' Hs; [reflexivity |].
  cbn [unique_from].
  destruct (in_dec Path_eq_dec (path x) seen) as [H | H];
    destruct (in_dec Path_eq_dec (path x) seen') as [H' | H'].
  - now apply IH.
  - exfalso. apply H'. now apply Hs.
  - exfalso. apply H. now apply Hs.
  - f_equal. apply IH. intros p. cbn [In]. rewrite Hs. tauto.
Qed.

Lemma unique_from_app (a b : list File) :
  forall seen,
    unique_from seen (a ++ b)
    = unique_from seen a ++ unique_from (map path a ++ seen) b.
Proof.
  induction a as [|x a IH]; intros seen; [reflexivity |].
  cbn [app unique_from map].
  destruct (in_dec Path_eq_dec (path x) seen) as [H | H].
  - rewrite IH. f_equal. apply unique_from_seen_ext.
    intros p. cbn [In]. rewrite !in_app_iff. split; [tauto |].
    intros [E | H']; [subst; now right | assumption].
  - cbn [app]. f_equal. rewrite IH. f_equal. apply unique_from_seen_ext.
    intros p. cbn [In]. rewrite !in_app_iff. cbn [In]. tauto.
Qed.

Lemma unique_from_all_seen (l : list File) (seen : list Path) :
  (forall f, In f l -> In (path f) seen) -> unique_from seen l = [].
Proof.
  induction l as [|x l IH]; intros Hs; [reflexivity |].
  cbn [unique_from].
  destruct (in_dec Path_eq_dec (path x) seen) as [H | H].
  - apply IH. intros f Hf. apply Hs. now right.
  - exfalso. apply H, Hs. now left.
Qed.

Lemma unique_from_NoDup_id (l : list File) :
  forall seen,
    NoDup (map path l) ->
    (forall f, In f l -> ~ In (path f) seen) ->
    unique_from seen l = l.
Proof.
  induction l as [|x l IH]; intros seen Hnd Hs; [reflexivity |].
  cbn [map] in Hnd. inversion Hnd as [|? ? Hx Hl]; subst.
  cbn [unique_from].
  destruct (in_dec Path_eq_dec (path x) seen) as [H | H].
  - exfalso. apply (Hs x); [now left | assumption].
  - f_equal. apply IH; [assumption |].
    intros f Hf [E | Hin].
    + apply Hx. rewrite E. now apply in_map.
    + apply (Hs f); [now right | assumption].
Qed.

End MergeAgain.

(** X14. Merging is idempotent and only the first discovery counts: a
    list without repeated paths is left as it is, merging a merged list
    changes nothing, and results whose paths were all found before add
    nothing to the merge. *)
Theorem X14_merging_again_changes_nothing (a b : list File) :
  (NoDup (map path a) -> unique_files a = a)
  /\ unique_files (unique_files a) = unique_files a
  /\ ((forall f, In f b -> In (path f) (map path a)) ->
      unique_files (a ++ b) = unique_files a).
Proof.
  assert (Hid : forall l, NoDup (map path l) -> unique_files l = l).
  { intros l Hnd. apply unique_from_NoDup_id; [assumption |].
    intros f _ []. }
  split; [apply Hid |]. split.
  - apply Hid. apply unique_from_NoDup.
  - intros Hb. unfold unique_files. rewrite (unique_from_app a b []).
    rewrite (unique_from_all_seen b); [apply app_nil_r |].
    intros f Hf. apply in_or_app. left. now apply Hb.
Qed.

(** X15. A search does not depend on the case of the query: the query
    and its lowercase form give the same result, in both engines. *)
Theorem X15_search_ignores_the_case_of_the_query (prefs : Preferences)
  (now : Z) (search_dirs : list Dir) (query query' : string) :
  lower query = lower query' ->
  smart_file_search prefs now search_dirs query
  = smart_file_search prefs now search_dirs query'
  /\ smart_search now search_dirs query = smart_search now search_dirs query'
  /\ smart_file_search prefs now search_dirs (lower query)
     = smart_file_search prefs now search_dirs query.
Proof.
  intros H. unfold smart_file_search, smart_search.
  rewrite lower_idem, H. auto.
Qed.

Lemma X15_search_ignores_the_case_of_the_query_witness :
  smart_file_search sample_prefs sample_now [sample_dir] "REPORT"
  = smart_file_search sample_prefs sample_now [sample_dir] "Report"
  /\ smart_search sample_now [sample_dir] "REPORT"
     = smart_search sample_now [sample_dir] "Report"
  /\ smart_file_search sample_prefs sample_now [sample_dir] (lower "REPORT")
     = smart_file_search sample_prefs sample_now [sample_dir] "REPORT".
Proof.
  apply (X15_search_ignores_the_case_of_the_query sample_prefs sample_now
           [sample_dir] "REPORT" "Report").
  reflexivity.
Defined.



(** ** Further properties: the range of the scores *)

Section ScoreRange.

Local Open Scope Q_scope.

Lemma claimed_match_bounds (query basename : string) :
  0 <= claimed_match query basename <= 10.
Proof.
  unfold claimed_match. destruct (String.eqb basename query); [lra |].
  destruct (contains query basename); lra.
Qed.

Lemma filter_length {A : Type} (p : A -> bool) (l : list A) :
  (List.length (filter p l) <= List.length l)%nat.
Proof.
  induction l as [|x l IH]; [apply Nat.le_refl |].
  cbn [filter]. destruct (p x); cbn [List.length]; lia.
Qed.

Lemma claimed_words_le (query basename : string) :
  claimed_words query basename
  <= 2 * inject_Z (Z.of_nat (List.length (split query))).
Proof.
  unfold claimed_words.
  assert (inject_Z (Z.of_nat (List.length
                      (filter (fun w => contains w basename) (split query))))
          <= inject_Z (Z.of_nat (List.length (split query)))).
  { rewrite <- Zle_Qle. apply Nat2Z.inj_le, filter_length. }
  lra.
Qed.

Lemma half_integer_add (x y : Q) :
  half_integer x -> half_integer y -> half_integer (x + y).
Proof.
  intros [a Ha] [b Hb]. exists (a + b)%Z. rewrite Ha, Hb.
  unfold Qeq, Qplus. cbn [Qnum Qden]. lia.
Qed.

Lemma half_integer_Z (n : Z) : half_integer (inject_Z n).
Proof. exists (2 * n)%Z. unfold Qeq, inject_Z. cbn [Qnum Qden]. lia. Qed.

Lemma half_integer_eq (x y : Q) : x == y -> half_integer y -> half_integer x.
Proof. intros E [k Hk]. exists k. now rewrite E. Qed.

Lemma claimed_match_half (query basename : string) :
  half_integer (claimed_match query basename).
Proof.
  unfold claimed_match. destruct (String.eqb basename query);
    [apply (half_integer_Z 10) |].
  destruct (contains query basename);
    [apply (half_integer_Z 5) | apply (half_integer_Z 0)].
Qed.

Lemma claimed_words_half (query basename : string) :
  half_integer (claimed_words query basename).
Proof.
  unfold claimed_words.
  eapply half_integer_eq; [| apply (half_integer_Z (2 * Z.of_nat
      (List.length (filter (fun w => contains w basename) (split query)))))].
  rewrite inject_Z_mult. reflexivity.
Qed.

Lemma claimed_recency_half (now : Z) (st : Stat) :
  half_integer (claimed_recency now st).
Proof.
  unfold claimed_recency. destruct (modified_within 7 now _);
    [apply (half_integer_Z 1) |].
  destruct (modified_within 30 now _);
    [exists 1%Z; reflexivity | apply (half_integer_Z 0)].
Qed.

End ScoreRange.

(** X17. Scores are bounded: with learned confidences in [0,1] the
    command line score of a file that answers [stat()] lies between 0 and
    12 plus twice the number of query words; the web service score lies
    between 0 and 11 plus twice the number of query words and is always a
    multiple of one half (so rounding it to two decimals loses
    nothing). *)
Theorem X17_scores_are_bounded (prefs : Preferences) (now : Z)
  (query : string) (f : File) (st : Stat) :
  (forall c pref, prefs c = Some pref -> 0 <= confidence pref <= 1) ->
  stat f = Ok st ->
  (0 <= score_value prefs now query f
        <= 12 + 2 * inject_Z (Z.of_nat (List.length (split query))))
  /\ (forall g,
         0 <= _score_of now query g
              <= 11 + 2 * inject_Z (Z.of_nat (List.length (split query)))
         /\ half_integer (_score_of now query g)).
Proof.
  intros Hconf Hst. split.
  - rewrite (score_value_claimed prefs now query f st Hst).
    unfold claimed_score.
    pose proof (claimed_match_bounds query (lower (name (path f)))).
    pose proof (claimed_words_nonneg query (lower (name (path f)))).
    pose proof (claimed_words_le query (lower (name (path f)))).
    pose proof (claimed_recency_bounds now st).
    pose proof (claimed_preference_bounds prefs (path f) Hconf).
    lra.
  - intros g.
    pose proof (claimed_match_bounds query (lower (name (path g)))).
    pose proof (claimed_words_nonneg query (lower (name (path g)))).
    pose proof (claimed_words_le query (lower (name (path g)))).
    destruct (stat g) as [sg | e] eqn:Eg.
    + pose proof (_score_of_claimed now query g sg Eg) as E.
      pose proof (claimed_recency_bounds now sg).
      unfold claimed_score, claimed_preference, no_preferences in E.
      split; [lra |].
      eapply half_integer_eq; [exact E |].
      repeat apply half_integer_add;
        [apply claimed_match_half | apply claimed_words_half
        | apply claimed_recency_half | apply (half_integer_Z 0)].
    + pose proof (_score_of_unreadable now query g e Eg) as E.
      split; [lra |].
      eapply half_integer_eq; [exact E |].
      apply half_integer_add;
        [apply claimed_match_half | apply claimed_words_half].
Qed.

Lemma X17_scores_are_bounded_witness :
  (0 <= score_value sample_prefs sample_now "report.pdf" report_pdf
        <= 12 + 2 * inject_Z (Z.of_nat (List.length (split "report.pdf"))))
  /\ (forall g,
         0 <= _score_of sample_now "report.pdf" g
              <= 11 + 2 * inject_Z
                          (Z.of_nat (List.length (split "report.pdf")))
         /\ half_integer (_score_of sample_now "report.pdf" g)).
Proof.
  apply (X17_scores_are_bounded sample_prefs sample_now "report.pdf"
           report_pdf (mkStat 5000 (98 * day))).
  - exact sample_prefs_bounds.
  - reflexivity.
Defined.

(** ** Further properties: learning feeds ranking; the response *)

Section LearnThenRank.

Local Open Scope string_scope.

Lemma concat_contains (seg : string) (p : list string) :
  In seg p -> contains seg (String.concat "/" p) = true.
Proof.
  induction p as [|x t IH]; [intros [] |].
  intros Hin. cbn [String.concat]. destruct t as [|y t'].
  - destruct Hin as [<- | []]. apply contains_refl.
  - destruct Hin as [<- | Hin].
    + apply contains_iff. now exists "", ("/" ++ String.concat "/" (y :: t')).
    + apply (contains_trans _ (String.concat "/" (y :: t'))); [now apply IH |].
      apply contains_iff. exists (x ++ "/"), "".
      now rewrite append_nil_r, append_assoc.
Qed.

Lemma str_contains (seg : string) (p : Path) :
  In seg p -> contains seg (str p) = true.
Proof.
  intros Hin. unfold str.
  apply (contains_trans _ (String.concat "/" p)); [now apply concat_contains |].
  apply contains_iff. exists "/", "". now rewrite append_nil_r.
Qed.

Lemma name_in_path (p : Path) : p <> [] -> In (name p) p.
Proof.
  intros Hne. unfold name. destruct (exists_last Hne) as (l & x & ->).
  rewrite last_last. apply in_or_app. right. now left.
Qed.

(** A file below a directory has the directory's name in its parent
    path. *)
Lemma root_name_in_parent (root rel : Path) :
  root <> [] -> rel <> [] ->
  contains (name root) (str (parent (root ++ rel)%list)) = true.
Proof.
  intros Hroot Hrel. apply str_contains. unfold parent.
  rewrite removelast_app by assumption.
  apply in_or_app. left. now apply name_in_path.
Qed.

End LearnThenRank.

(** X18. Learning feeds ranking: once all observed files of a category
    were found under one scanned root, every file of that category lying
    below that root (at any depth) scores exactly 1 more than it would
    without preferences. *)
Theorem X18_files_under_the_learned_root_gain_one (now now' : Z)
  (prefs : Preferences) (scan_dirs : list Dir) (root rel : Path)
  (c : Category) (query : string) (f : File) (st : Stat) :
  observed_roots c scan_dirs <> [] ->
  (forall r, In r (observed_roots c scan_dirs) -> r = name root) ->
  root <> [] -> rel <> [] ->
  path f = root ++ rel ->
  categorize_file (path f) = c ->
  stat f = Ok st ->
  score_value (fst (analyze_file_system now prefs scan_dirs)) now' query f
  == score_value no_preferences now' query f + 1.
Proof.
  intros Hne Hall Hroot Hrel Hpath Hcat Hst.
  rewrite (score_value_claimed _ now' query f st Hst).
  rewrite (score_value_claimed no_preferences now' query f st Hst).
  unfold claimed_score, claimed_preference at 2, no_preferences.
  assert (Hpref : claimed_preference
                    (fst (analyze_file_system now prefs scan_dirs)) (path f)
                  == 1).
  { unfold claimed_preference. rewrite Hcat, analyze_table.
    destruct (learned_describes now _ Hne)
      as (pref & -> & [[Hin _] Hconf] & _ & _).
    pose proof (Hall _ Hin) as Hloc.
    rewrite Hloc, Hpath, (root_name_in_parent root rel Hroot Hrel).
    rewrite Hconf, Hloc, (occurrences_all_equal (name root) _ Hall).
    assert (Hlen : List.length (observed_roots c scan_dirs) <> 0%nat)
      by (destruct (observed_roots c scan_dirs);
          [contradiction | discriminate]).
    unfold Qeq. cbn [Qnum Qden]. rewrite (Zpos_of_nat _ Hlen). lia. }
  rewrite Hpref. lra.
Qed.

Lemma X18_files_under_the_learned_root_gain_one_witness :
  score_value (fst (analyze_file_system sample_now no_preferences [nested_dir]))
    sample_now "report" report_pdf
  == score_value no_preferences sample_now "report" report_pdf + 1.
Proof.
  apply (X18_files_under_the_learned_root_gain_one sample_now sample_now
           no_preferences [nested_dir] docs_path ["report.pdf"] documents
           "report" report_pdf (mkStat 5000 (98 * day))).
  - discriminate.
  - intros r [<- | [<- | [<- | []]]]; reflexivity.
  - discriminate.
  - discriminate.
  - reflexivity.
  - reflexivity.
  - reflexivity.
Defined.



(** ** Further properties: which candidates survive the ranking *)

Section PositiveScore.

Local Open Scope Q_scope.

Lemma claimed_match_pos (query basename : string) :
  0 < claimed_match query basename <-> contains query basename = true.
Proof.
  unfold claimed_match. destruct (String.eqb_spec basename query) as [-> | Hne].
  - rewrite contains_refl. split; [reflexivity | intros _; lra].
  - destruct (contains query basename).
    + split; [reflexivity | intros _; lra].
    + split; [lra | discriminate].
Qed.

Lemma claimed_words_pos (query basename : string) :
  0 < claimed_words query basename
  <-> exists w, In w (split query) /\ contains w basename = true.
Proof.
  unfold claimed_words.
  destruct (filter (fun w => contains w basename) (split query))
    as [|w ws] eqn:Ef.
  - split.
    + intros H. change (0 < 2 * 0) in H. lra.
    + intros (w & Hw & Hc).
      assert (Hin : In w (filter (fun w => contains w basename) (split query)))
        by (apply filter_In; now split).
      rewrite Ef in Hin. destruct Hin.
  - split.
    + intros _. exists w.
      assert (Hin : In w (filter (fun w => contains w basename) (split query)))
        by (rewrite Ef; now left).
      now apply filter_In in Hin.
    + intros _. cbn [List.length]. rewrite Nat2Z.inj_succ.
      assert (0 < inject_Z (Z.succ (Z.of_nat (List.length ws)))).
      { change 0 with (inject_Z 0). rewrite <- Zlt_Qlt. lia. }
      lra.
Qed.

Lemma modified_within_mono (now mod_time : Z) :
  modified_within 7 now mod_time = true ->
  modified_within 30 now mod_time = true.
Proof.
  unfold modified_within. rewrite !Z.ltb_lt. pose proof day_pos. lia.
Qed.

Lemma claimed_recency_pos (now : Z) (st : Stat) :
  0 < claimed_recency now st
  <-> modified_within 30 now (st_mtime st) = true.
Proof.
  unfold claimed_recency.
  destruct (modified_within 7 now (st_mtime st)) eqn:E7.
  - rewrite (modified_within_mono _ _ E7). split; [reflexivity | intros _; lra].
  - destruct (modified_within 30 now (st_mtime st)).
    + split; [reflexivity | intros _; lra].
    + split; [lra | discriminate].
Qed.

Lemma claimed_preference_pos (prefs : Preferences) (p : Path) :
  (forall c pref, prefs c = Some pref -> 0 < confidence pref) ->
  0 < claimed_preference prefs p
  <-> exists pref,
        prefs (categorize_file p) = Some pref
        /\ contains (preferred_location pref) (str (parent p)) = true.
Proof.
  intros Hconf. unfold claimed_preference.
  destruct (prefs (categorize_file p)) as [pref |] eqn:Ep.
  - destruct (contains (preferred_location pref) (str (parent p))) eqn:Ec.
    + split; [intros _; now exists pref | intros _; eauto].
    + split; [lra |]. intros (q & Hq & Hc). inversion Hq; subst. congruence.
  - split; [lra |]. intros (q & Hq & _). discriminate.
Qed.

Lemma sum_pos (a b : Q) : 0 <= a -> 0 <= b -> (0 < a + b <-> 0 < a \/ 0 < b).
Proof.
  intros Ha Hb. split.
  - intros H. destruct (Qlt_le_dec 0 a) as [Hlt | Hle]; [now left |].
    right. lra.
  - intros [H | H]; lra.
Qed.

End PositiveScore.

(** X20. The ranking is a filter on names and dates, whichever strategy
    found the file.  In the web service a candidate reaches the ranked
    list exactly when the query or one of its words occurs in its
    lowercase basename, or it was modified within the last 30 days; a
    file found only by its content, type, size or old age is dropped
    otherwise.  The command line ranker (confidences positive, [stat()]
    answering) keeps in addition the files of a category whose preferred
    location's name occurs in their parent path. *)
Theorem X20_only_names_dates_and_preferences_survive (prefs : Preferences)
  (now : Z) (query : string) (f : File) (st : Stat) :
  (forall c pref, prefs c = Some pref -> 0 < confidence pref) ->
  stat f = Ok st ->
  (0 < score_value prefs now query f
   <-> name_matches query f
       \/ modified_within 30 now (st_mtime st) = true
       \/ exists pref,
            prefs (categorize_file (path f)) = Some pref
            /\ contains (preferred_location pref) (str (parent (path f)))
               = true)
  /\ (forall g,
         0 < _score_of now query g
         <-> name_matches query g
             \/ exists sg, stat g = Ok sg
                           /\ modified_within 30 now (st_mtime sg) = true).
Proof.
  intros Hconf Hst. unfold name_matches. split.
  - rewrite (score_value_claimed prefs now query f st Hst).
    unfold claimed_score.
    pose proof (claimed_match_bounds query (lower (name (path f)))) as [Hm _].
    pose proof (claimed_words_nonneg query (lower (name (path f)))) as Hw.
    pose proof (claimed_recency_bounds now st) as [Hr _].
    assert (Hp : 0 <= claimed_preference prefs (path f)).
    { apply claimed_preference_nonneg. intros c pref H.
      apply Qlt_le_weak. eauto. }
    rewrite sum_pos, sum_pos, sum_pos by lra.
    rewrite claimed_match_pos, claimed_words_pos, claimed_recency_pos,
      (claimed_preference_pos prefs (path f) Hconf).
    tauto.
  - intros g.
    pose proof (claimed_match_bounds query (lower (name (path g)))) as [Hm _].
    pose proof (claimed_words_nonneg query (lower (name (path g)))) as Hw.
    destruct (stat g) as [sg | e] eqn:Eg.
    + rewrite (_score_of_claimed now query g sg Eg).
      unfold claimed_score, claimed_preference, no_preferences.
      pose proof (claimed_recency_bounds now sg) as [Hr _].
      rewrite sum_pos, sum_pos, sum_pos by lra.
      rewrite claimed_match_pos, claimed_words_pos, claimed_recency_pos.
      split.
      * intros [[[H | H] | H] | H]; [tauto | tauto | | lra].
        right. now exists sg.
      * intros [[H | H] | (s' & Hs' & H)]; [tauto | tauto |].
        inversion Hs'; subst. tauto.
    + rewrite (_score_of_unreadable now query g e Eg).
      rewrite sum_pos by lra.
      rewrite claimed_match_pos, claimed_words_pos.
      split; [tauto |].
      intros [H | (s' & Hs' & _)]; [tauto | discriminate].
Qed.

Lemma X20_only_names_dates_and_preferences_survive_witness :
  (0 < score_value sample_prefs sample_now "report.pdf" report_pdf
   <-> name_matches "report.pdf" report_pdf
       \/ modified_within 30 sample_now (98 * day) = true
       \/ exists pref,
            sample_prefs (categorize_file (path report_pdf)) = Some pref
            /\ contains (preferred_location pref)
                 (str (parent (path report_pdf))) = true)
  /\ (forall g,
         0 < _score_of sample_now "report.pdf" g
         <-> name_matches "report.pdf" g
             \/ exists sg, stat g = Ok sg
                           /\ modified_within 30 sample_now (st_mtime sg)
                              = true).
Proof.
  apply (X20_only_names_dates_and_preferences_survive sample_prefs sample_now
           "report.pdf" report_pdf (mkStat 5000 (98 * day))).
  - intros c pref H. destruct c; try discriminate H.
    inversion H; subst. reflexivity.
  - reflexivity.
Defined.
